(** * A sympy-based statevector simulator: embedding and verified properties

    Shallow embedding of [qiskit_addon_sympy/statevector_simulator.py]:
    the gate classes [SDGGate], [TDGGate], [UGateGeneric], the gate factory
    [get_sym_op] and the evolution loop [run_circuit].

    Modelling decisions.
    - Python exceptions are an explicit [Raises] outcome; mutable objects
      (the parameter lists carried by instructions, the fields of [self])
      live in a store that every operation threads through, and a raise
      keeps the writes made before it.
    - A sympy scalar is modelled by the complex number it denotes (a pair of
      reals), so sympy's simplifier is the identity on values.  A sympy state
      expression is modelled by the formal sum of weighted kets it denotes.
    - Gate objects record the class and the constructor arguments; the
      duplicate check that sympy's gate constructors perform
      ([_validate_targets_controls]) is part of the model, as are the
      arity check and the control test of [Gate._apply_operator_Qubit].
    - sympy builds products through a cache that lives as long as the
      process.  The cache tells gates apart by class and qubits only, so the
      product it returns for a [UGateGeneric] may hold a gate built earlier,
      with another matrix.  What the cache returns is part of the store
      (see [product_cache]). *)

From Stdlib Require Import Reals Lra Lia String Ascii List.
From stdpp Require Import gmap strings list.
Import ListNotations.

Local Open Scope string_scope.

(** ** Complex scalars *)

(** A number of the program, Python float or sympy expression, is the real
    or complex number it denotes. *)
Definition complex : Type := R * R.

Definition RtoC (x : R) : complex := (x, 0%R).
Definition Ci : complex := (0%R, 1%R).
Definition Cplus (a b : complex) : complex :=
  ((a.1 + b.1)%R, (a.2 + b.2)%R).
Definition Copp (a : complex) : complex := ((- a.1)%R, (- a.2)%R).
Definition Cmult (a b : complex) : complex :=
  ((a.1 * b.1 - a.2 * b.2)%R, (a.1 * b.2 + a.2 * b.1)%R).
Definition Cconj (a : complex) : complex := (a.1, (- a.2)%R).
(** [exp] on complex arguments: e^(x+iy) = e^x (cos y + i sin y). *)
Definition Cexp (z : complex) : complex :=
  ((exp z.1 * cos z.2)%R, (exp z.1 * sin z.2)%R).

Declare Scope complex_scope.
Delimit Scope complex_scope with C.
Bind Scope complex_scope with complex.
Notation "0" := (RtoC 0%R) : complex_scope.
Notation "1" := (RtoC 1%R) : complex_scope.
Infix "+" := Cplus : complex_scope.
Infix "*" := Cmult : complex_scope.
Notation "- a" := (Copp a) : complex_scope.

(** ** Python outcomes, exceptions and the store monad *)

(** The raise sites of [SympySimulatorError] in the source, each with the
    data its message is formatted from. *)
Inductive raise_site :=
| conditional_not_supported
| operation_not_supported (name : string)
| unrecognized_operation (backend name : string)
| u_gate_parameter_count
| not_supported
| validate_measure_reset (circuit_name : string).

Definition dquote : string := String (ascii_of_nat 34) EmptyString.

(** The message text each raise site passes to the exception. *)
Definition message (s : raise_site) : string :=
  match s with
  | conditional_not_supported =>
      "conditional operations not supported in statevector simulator"
  | operation_not_supported name =>
      "operation " ++ name ++ " not supported by sympy statevector simulator."
  | unrecognized_operation backend name =>
      backend ++ " encountered unrecognized operation " ++ dquote ++ name ++ dquote
  | u_gate_parameter_count => "U gate must carry 1, 2 or 3 parameters!"
  | not_supported => "Not supported"
  | validate_measure_reset circuit_name =>
      "In circuit " ++ circuit_name
        ++ ": statevector simulator does not support measure or reset."
  end.

Inductive exception :=
| SympySimulatorError (site : raise_site)
| TypeError
| ValueError
| IndexError
| AttributeError
| ShapeError
| QuantumError (msg : string).

(** The source has the single exception class [SympySimulatorError]; the
    specification tells three kinds of failure apart.  They are the raise
    sites, grouped as the specification's error section describes them. *)
Inductive error_kind :=
| UnsupportedOperationError
| UnsupportedGateError
| InvalidParameterCountError.

Definition kind_of_site (s : raise_site) : error_kind :=
  match s with
  | conditional_not_supported | operation_not_supported _
  | validate_measure_reset _ => UnsupportedOperationError
  | unrecognized_operation _ _ | not_supported => UnsupportedGateError
  | u_gate_parameter_count => InvalidParameterCountError
  end.

Definition kind_of (e : exception) : option error_kind :=
  match e with
  | SympySimulatorError s => Some (kind_of_site s)
  | _ => None
  end.

Inductive outcome (A : Type) :=
| Returns (a : A)
| Raises (e : exception).
Arguments Returns {A} a.
Arguments Raises {A} e.

Definition obind {A B} (m : outcome A) (k : A -> outcome B) : outcome B :=
  match m with
  | Returns a => k a
  | Raises e => Raises e
  end.

(** A computation over a store [S]: the store after a raise is the store at
    the raise. *)
Definition M (S A : Type) : Type := S -> outcome A * S.

Definition ret {S A} (a : A) : M S A := fun s => (Returns a, s).
Definition raise {S A} (e : exception) : M S A := fun s => (Raises e, s).
Definition bind {S A B} (m : M S A) (k : A -> M S B) : M S B :=
  fun s => match m s with
           | (Returns a, s') => k a s'
           | (Raises e, s') => (Raises e, s')
           end.
Definition lift {S A} (o : outcome A) : M S A := fun s => (o, s).
Definition gets {S A} (f : S -> A) : M S A := fun s => (Returns (f s), s).
Definition modify {S} (f : S -> S) : M S unit := fun s => (Returns tt, f s).

Declare Scope monad_scope.
Delimit Scope monad_scope with monad.
Notation "x <- m ;; k" := (bind m (fun x => k))
  (at level 100, m at next level, right associativity) : monad_scope.
Notation "m ;; k" := (bind m (fun _ => k))
  (at level 100, right associativity) : monad_scope.
Notation "x <~ m ;; k" := (obind m (fun x => k))
  (at level 100, m at next level, right associativity) : monad_scope.
Local Open Scope monad_scope.

(** [seq[i]] on a tuple or list. *)
Definition index {A} (xs : list A) (i : nat) : outcome A :=
  match xs !! i with
  | Some x => Returns x
  | None => Raises IndexError
  end.

(** [for x in xs: body(x)] *)
Fixpoint for_each {S A} (xs : list A) (body : A -> M S unit) : M S unit :=
  match xs with
  | [] => ret tt
  | x :: xs' => body x ;; for_each xs' body
  end.

Fixpoint omap_list {A B} (f : A -> outcome B) (xs : list A) : outcome (list B) :=
  match xs with
  | [] => Returns []
  | x :: xs' => y <~ f x ;; ys <~ omap_list f xs' ;; Returns (y :: ys)
  end.

(** ** Strings *)

(** [str.upper()] on ASCII letters. *)
Definition upper_char (c : ascii) : ascii :=
  let n := nat_of_ascii c in
  if ((97 <=? n)%nat && (n <=? 122)%nat)%bool then ascii_of_nat (n - 32) else c.

Fixpoint upper (s : string) : string :=
  match s with
  | EmptyString => EmptyString
  | String c s' => String (upper_char c) (upper s')
  end.

(** [s.startswith(p)] *)
Fixpoint startswith (s p : string) : bool :=
  match p with
  | EmptyString => true
  | String a p' =>
      match s with
      | EmptyString => false
      | String b s' => Ascii.eqb a b && startswith s' p'
      end
  end.

(** [x in (a, b, ...)] for strings. *)
Definition str_in (x : string) (xs : list string) : bool :=
  existsb (String.eqb x) xs.

(** ** Parameter lists as shared Python objects *)

Definition loc := nat.

(** The list objects of the store.  A reference always denotes an allocated
    object in Python; at a location outside the store the model reads the
    empty list. *)
Abbreviation heap := (gmap loc (list R)).

Definition read (h : gmap loc (list R)) (l : loc) : list R := default [] (h !! l).

(** [len(p)]: [None] has no length. *)
Definition len (p : option loc) : M (gmap loc (list R)) nat :=
  match p with
  | None => raise TypeError
  | Some l => gets (fun h => length (read h l))
  end.

(** [p.insert(i, x)], in place. *)
Definition list_insert (p : option loc) (i : nat) (x : R) : M (gmap loc (list R)) unit :=
  match p with
  | None => raise AttributeError
  | Some l => modify (fun h => <[l := (take i (read h l) ++ x :: drop i (read h l))%list]> h)
  end.

(** The elements of [p], as the matrix construction reads them. *)
Definition elements (p : option loc) : M (gmap loc (list R)) (list R) :=
  match p with
  | None => raise TypeError
  | Some l => gets (fun h => read h l)
  end.

(** ** The sympy quantum objects the simulator uses *)

(** A sympy [Matrix], as its list of rows. *)
Definition Matrix : Type := list (list complex).

(** The values of a [Qubit], leftmost first, as [Qubit.qubit_values]. *)
Definition ket : Type := list bool.

(** A state expression: the sum of its weighted kets; [0] is the empty sum. *)
Definition qexpr : Type := list (complex * ket).

Definition Qubit (values : list bool) : qexpr := [(1%C, values)].

(** [Qubit] called on the values.  Called without any value, sympy falls back on the
    default label of a ket, which is no qubit value, and raises. *)
Definition new_Qubit (values : list bool) : outcome qexpr :=
  match values with
  | [] => Raises ValueError
  | _ => Returns (Qubit values)
  end.

(** The one-qubit gate classes: sympy's [IdentityGate], [X], [Y], [Z], [H],
    [S], [T] (the names [XGate] ... [TGate] are the classes those short
    names stand for), and the three classes the source declares.  A
    [UGateGeneric] carries the field [_u_mat], [None] until it is set. *)
Inductive one_qubit_class :=
| IdentityGate
| XGate
| YGate
| ZGate
| HadamardGate
| PhaseGate
| TGate
| SDGGate
| TDGGate
| UGateGeneric (_u_mat : option Matrix).

(** A gate object: its class and its constructor arguments.  [CNotGate] is
    sympy's [CNOT]. *)
Inductive gate :=
| OneQubitGate (cls : one_qubit_class) (label : list nat)
| CNotGate (label : list nat)
| CGate (controls : list nat) (g : gate).

Definition sqrt2_inv : complex := RtoC (/ sqrt 2).

Definition scale_matrix (c : complex) (m : Matrix) : Matrix :=
  map (map (Cmult c)) m.

(** [get_target_matrix] of each one-qubit class.  The bodies for [SDGGate],
    [TDGGate] and [UGateGeneric] are the source's; the others are sympy's
    matrix cache. *)
Definition class_target_matrix (cls : one_qubit_class) : option Matrix :=
  match cls with
  | IdentityGate => Some [[1; 0]; [0; 1]]%C
  | XGate => Some [[0; 1]; [1; 0]]%C
  | YGate => Some [[0; - Ci]; [Ci; 0]]%C
  | ZGate => Some [[1; 0]; [0; Copp 1]]%C
  | HadamardGate => Some (scale_matrix sqrt2_inv [[1; 1]; [1; Copp 1]]%C)
  | PhaseGate => Some [[1; 0]; [0; Ci]]%C
  | TGate => Some [[1; 0]; [0; Cexp (Ci * RtoC PI * RtoC (/ 4))]]%C
  | SDGGate => Some [[1; 0]; [0; - Ci]]%C
  | TDGGate => Some [[1; 0]; [0; Cexp (- Ci * RtoC PI * RtoC (/ 4))]]%C
  | UGateGeneric _u_mat => _u_mat
  end.

Fixpoint get_target_matrix (g : gate) : option Matrix :=
  match g with
  | OneQubitGate cls _ => class_target_matrix cls
  | CNotGate _ => class_target_matrix XGate
  | CGate _ g' => get_target_matrix g'
  end.

(** [UGateGeneric.set_target_matrix] *)
Definition set_target_matrix (g : gate) (u_matrix : Matrix) : gate :=
  match g with
  | OneQubitGate (UGateGeneric _) label =>
      OneQubitGate (UGateGeneric (Some u_matrix)) label
  | _ => g
  end.

Fixpoint targets (g : gate) : outcome (list nat) :=
  match g with
  | OneQubitGate _ label => Returns label
  | CNotGate label => t <~ index label 1 ;; Returns [t]
  | CGate _ g' => targets g'
  end.

Definition controls (g : gate) : outcome (list nat) :=
  match g with
  | OneQubitGate _ _ => Returns []
  | CNotGate label => c <~ index label 0 ;; Returns [c]
  | CGate cs _ => Returns cs
  end.

Definition is_CGate (g : gate) : bool :=
  match g with
  | OneQubitGate _ _ => false
  | _ => true
  end.

(** The largest qubit index a gate mentions, plus one.  (For a gate without
    any qubit the bound is taken as 1; the engine builds no such gate.) *)
Definition min_qubits (g : gate) : outcome nat :=
  match g with
  | OneQubitGate _ label => Returns (S (list_max label))
  | CNotGate label => Returns (S (list_max label))
  | CGate cs g' => ts <~ targets g' ;; Returns (S (Nat.max (list_max cs) (list_max ts)))
  end.

(** sympy's [_validate_targets_controls]: a gate never names a qubit twice. *)
Definition validate_targets_controls (tandc : list nat) : outcome unit :=
  if decide (NoDup tandc) then Returns tt
  else Raises (QuantumError "Target/control qubits in a gate cannot be duplicated").

(** Construction of a gate object of class [cls] on the qubits [label]. *)
Definition new_gate (cls : one_qubit_class) (label : list nat) : outcome gate :=
  _ <~ validate_targets_controls label ;; Returns (OneQubitGate cls label).

Definition CNOT (label : list nat) : outcome gate :=
  _ <~ validate_targets_controls label ;; Returns (CNotGate label).

(** [CGate(controls, g)] *)
Definition new_CGate (cs : list nat) (g : gate) : outcome gate :=
  ts <~ targets g ;;
  _ <~ validate_targets_controls (cs ++ ts)%list ;;
  Returns (CGate cs g).

(** [qubits[bit]]: bit 0 is the rightmost value. *)
Definition qubit_at (qubits : ket) (bit : nat) : bool :=
  nth (length qubits - bit - 1) qubits false.

(** [qubits.flip(bit)] *)
Definition flip (qubits : ket) (bit : nat) : ket :=
  alter negb (length qubits - bit - 1) qubits.

(** [CGate.eval_controls]: every control qubit holds 1. *)
Definition eval_controls (cs : list nat) (qubits : ket) : bool :=
  forallb (qubit_at qubits) cs.

(** The column of the target matrix selected by the target qubits' values. *)
Definition column_index (ts : list nat) (qubits : ket) : nat :=
  fst (fold_left
         (fun '(ci, n) target => (ci + n * Nat.b2n (qubit_at qubits target), 2 * n))
         ts (0, 1)).

(** [m[:, j]] *)
Definition matrix_column (m : Matrix) (j : nat) : outcome (list complex) :=
  omap_list (fun row => index row j) m.

(** The ket whose target qubits spell [index]: target number [bit] is
    flipped when it differs from bit [bit] of [index]. *)
Definition place (qubits : ket) (ts : list nat) (index : nat) : ket :=
  fold_left
    (fun q '(bit, target) =>
       if Bool.eqb (qubit_at q target) (Nat.testbit index bit) then q
       else flip q target)
    (zip (seq 0 (length ts)) ts) qubits.

(** [Gate._apply_operator_Qubit] *)
Definition apply_operator_Qubit (g : gate) (qubits : ket) : outcome qexpr :=
  mq <~ min_qubits g ;;
  if (length qubits <? mq)%nat
  then Raises (QuantumError "Gate needs a minimum of qubits to act on")
  else
    met <~ (if is_CGate g
            then cs <~ controls g ;; Returns (eval_controls cs qubits)
            else Returns true) ;;
    if negb met then Returns (Qubit qubits)
    else
      ts <~ targets g ;;
      match get_target_matrix g with
      | None => Raises TypeError
      | Some target_matrix =>
          column <~ matrix_column target_matrix (column_index ts qubits) ;;
          Returns (imap (fun index c => (c, place qubits ts index)) column)
      end.

(** [qapply(g * e)] for a gate whose matrix its class decides: the gate acts
    on every ket of the sum. *)
Fixpoint qapply (g : gate) (e : qexpr) : outcome qexpr :=
  match e with
  | [] => Returns []
  | (c, q) :: e' =>
      r <~ apply_operator_Qubit g q ;;
      rs <~ qapply g e' ;;
      Returns (map (fun t : complex * ket => ((c * t.1)%C, t.2)) r ++ rs)%list
  end.

(** The basis index of a ket, as [Qubit._represent_ZGate] computes it:
    the rightmost value has weight 1. *)
Definition definite_state (qubits : ket) : nat :=
  fst (fold_left (fun '(ds, n) it => (ds + n * Nat.b2n it, n * 2))
         (rev qubits) (0, 1)).

(** [represent(Qubit(...))]: the column with a single 1. *)
Definition represent_Qubit (qubits : ket) : Matrix :=
  map (fun x => [x])
      (<[definite_state qubits := 1%C]> (replicate (2 ^ length qubits) 0%C)).

Definition matrix_add (a b : Matrix) : outcome Matrix :=
  if (length a =? length b)%nat
     && forallb (fun rs => (length rs.1 =? length rs.2)%nat) (zip a b)
  then Returns (zip_with (zip_with Cplus) a b)
  else Raises ShapeError.

(** [represent(e).shape] needs a matrix: [represent(0)] is the number 0,
    which has no shape. *)
Definition represent (e : qexpr) : outcome Matrix :=
  match e with
  | [] => Raises AttributeError
  | (c, q) :: e' =>
      fold_left
        (fun result t =>
           r <~ result ;;
           matrix_add r (scale_matrix t.1 (represent_Qubit t.2)))
        e' (Returns (scale_matrix c (represent_Qubit q)))
  end.

(** Modelled from the spec: [compute_ugate_matrix] of [simulatortools],
    which is not among the sources.  The specification gives the 2x2 matrix
    of the angles (theta, phi, lambda): rows
    [cos(theta/2), -e^(i lambda) sin(theta/2)] and
    [e^(i phi) sin(theta/2), e^(i (phi+lambda)) cos(theta/2)]. *)
Definition compute_ugate_matrix (parameters : list R) : Matrix :=
  let theta := nth 0 parameters 0%R in
  let phi := nth 1 parameters 0%R in
  let lam := nth 2 parameters 0%R in
  [[RtoC (cos (theta / 2)); - Cexp (Ci * RtoC lam) * RtoC (sin (theta / 2))];
   [Cexp (Ci * RtoC phi) * RtoC (sin (theta / 2));
    Cexp (Ci * RtoC (phi + lam)) * RtoC (cos (theta / 2))]]%C.

(** ** sympy's cache of products *)

(** sympy builds a product with [Mul], whose constructor is cached for the
    whole process: asked for a product whose arguments are equal to those
    of a product it still holds, it returns that product.  Gates are equal
    when their class and their qubits are.  The matrix of a [UGateGeneric]
    is the field [_u_mat], which is none of the gate's arguments, so a U
    gate just built is equal, for the cache, to every U gate built before on
    the same qubits, and the product found for it holds the earlier gate,
    with the earlier matrix.  A product is looked up when the gate is
    multiplied with the state, and again for the gate and single kets of
    the state when [qapply] distributes the gate over the sum, so the model
    lets the cache answer ket by ket.

    Every U gate of the program has the matrix of the parameters it was
    built from ([get_sym_op], the lines after the parameter check), so a
    product found in the cache is told by the parameters of its gate.  What
    the cache holds at a given moment depends on everything the process has
    evaluated before and on the cache's replacement policy; the model takes
    it from the store.  A [product_cache] tells, for the qubits of a U gate
    and a ket of the state, whether the product comes from the cache, and
    then the parameters of the gate it holds. *)
Definition product_cache : Type := list nat -> ket -> option (list R).

Definition nothing_cached : product_cache := fun _ _ => None.

(** The gate in the product that sympy forms for the gate [op] and the ket
    [q].  Only a [UGateGeneric] has a matrix outside its arguments; for
    every other gate of the program the gate found is the gate given. *)
Definition cached_gate (c : product_cache) (op : gate) (q : ket) : gate :=
  match op with
  | OneQubitGate (UGateGeneric _) label =>
      match c label q with
      | Some parameters =>
          OneQubitGate (UGateGeneric (Some (compute_ugate_matrix parameters))) label
      | None => op
      end
  | _ => op
  end.

(** [qapply(op * e)] with the products that the cache [c] returns: on every
    ket of the sum acts the gate of the product formed for that ket. *)
Fixpoint qapply_cached (c : product_cache) (op : gate) (e : qexpr) : outcome qexpr :=
  match e with
  | [] => Returns []
  | (a, q) :: e' =>
      r <~ apply_operator_Qubit (cached_gate c op q) q ;;
      rs <~ qapply_cached c op e' ;;
      Returns (map (fun t : complex * ket => ((a * t.1)%C, t.2)) r ++ rs)%list
  end.

(** ** The simulator *)

(** An instruction of a circuit.  [params] is [None] when the instruction
    has no such attribute, else a reference to its parameter list;
    [conditional] is the truth value of
    [getattr(operation, 'conditional', None)]. *)
Record QobjInstruction := {
  name : string;
  qubits : list nat;
  params : option loc;
  conditional : bool
}.

Record QobjExperiment := {
  header_name : string;
  header_number_of_qubits : nat;
  instructions : list QobjInstruction
}.

Record ExperimentResult := {
  statevector : list complex;
  success : bool;
  shots : nat;
  status : string;
  result_header_name : string
}.

(** The store of a run: the list objects, the fields of [self], and sympy's
    cache.
    - [self_name] is the text that [str.format] renders for [self.name].
      The source does not call [name], so this is the text of the bound
      method, which ends in the address of the simulator object.
    - [mul_cache] lists, for the products of a U gate and the register state
      that are still to be formed, what the cache returns for each of them,
      the next product first; past the end of the list nothing comes from
      the cache. *)
Record world := {
  objects : gmap loc (list R);
  self_name : string;
  _number_of_qubits : option nat;
  _statevector : option qexpr;
  mul_cache : list product_cache
}.

Definition set_objects (w : world) (h : gmap loc (list R)) : world :=
  {| objects := h; self_name := self_name w;
     _number_of_qubits := _number_of_qubits w;
     _statevector := _statevector w;
     mul_cache := mul_cache w |}.

Definition set_number_of_qubits (n : option nat) : M world unit :=
  modify (fun w => {| objects := objects w; self_name := self_name w;
                      _number_of_qubits := n;
                      _statevector := _statevector w;
                      mul_cache := mul_cache w |}).

Definition set_statevector (e : option qexpr) : M world unit :=
  modify (fun w => {| objects := objects w; self_name := self_name w;
                      _number_of_qubits := _number_of_qubits w;
                      _statevector := e;
                      mul_cache := mul_cache w |}).

(** The cache as it is when the next product of a U gate is formed; the
    rest of the list is for the products after it. *)
Definition next_product_cache : M world product_cache :=
  fun w => (Returns (hd nothing_cached (mul_cache w)),
            {| objects := objects w; self_name := self_name w;
               _number_of_qubits := _number_of_qubits w;
               _statevector := _statevector w;
               mul_cache := tl (mul_cache w) |}).

(** A computation on the list objects, run inside the whole store. *)
Definition with_objects {A} (m : M (gmap loc (list R)) A) : M world A :=
  fun w => let (r, h) := m (objects w) in (r, set_objects w h).

(** The first dispatch of [get_sym_op]: the gates with a fixed name, or
    [None]. *)
Definition the_gate (name : string) (qid_tuple : list nat) : outcome (option gate) :=
  if (name =? "ID")%string then
    g <~ new_gate IdentityGate qid_tuple ;; Returns (Some g)
  else if (name =? "X")%string then
    g <~ new_gate XGate qid_tuple ;; Returns (Some g)
  else if (name =? "Y")%string then
    g <~ new_gate YGate qid_tuple ;; Returns (Some g)
  else if (name =? "Z")%string then
    g <~ new_gate ZGate qid_tuple ;; Returns (Some g)
  else if (name =? "H")%string then
    g <~ new_gate HadamardGate qid_tuple ;; Returns (Some g)
  else if (name =? "S")%string then
    g <~ new_gate PhaseGate qid_tuple ;; Returns (Some g)
  else if (name =? "SDG")%string then
    g <~ new_gate SDGGate qid_tuple ;; Returns (Some g)
  else if (name =? "T")%string then
    g <~ new_gate TGate qid_tuple ;; Returns (Some g)
  else if (name =? "TDG")%string then
    g <~ new_gate TDGGate qid_tuple ;; Returns (Some g)
  else if ((name =? "CX") || (name =? "CNOT"))%string then
    g <~ CNOT qid_tuple ;; Returns (Some g)
  else if (name =? "CY")%string then
    c <~ index qid_tuple 0 ;;
    t <~ index qid_tuple 1 ;;
    y <~ new_gate YGate [t] ;;
    g <~ new_CGate [c] y ;; Returns (Some g)
  else if (name =? "CZ")%string then
    c <~ index qid_tuple 0 ;;
    t <~ index qid_tuple 1 ;;
    z <~ new_gate ZGate [t] ;;
    g <~ new_CGate [c] z ;; Returns (Some g)
  else if ((name =? "CCX") || (name =? "CCNOT") || (name =? "TOFFOLI"))%string then
    c0 <~ index qid_tuple 0 ;;
    c1 <~ index qid_tuple 1 ;;
    t <~ index qid_tuple 2 ;;
    x <~ new_gate XGate [t] ;;
    g <~ new_CGate [c0; c1] x ;; Returns (Some g)
  else Returns None.

(** [get_sym_op(name, qid_tuple, params)] *)
Definition get_sym_op (name : string) (qid_tuple : list nat) (params : option loc)
  : M (gmap loc (list R)) gate :=
  fixed <- lift (the_gate name qid_tuple) ;;
  match fixed with
  | Some g => ret g
  | None =>
      if startswith name "U" || startswith name "CU" then
        let parameters := params in
        n <- len parameters ;;
        (if (n =? 1)%nat then
           list_insert parameters 0 0%R ;; list_insert parameters 0 0%R
         else if (n =? 2)%nat then list_insert parameters 0 (PI / 2)%R
         else if (n =? 3)%nat then ret tt
         else raise (SympySimulatorError u_gate_parameter_count)) ;;
        if startswith name "U" then
          ugate <- lift (new_gate (UGateGeneric None) qid_tuple) ;;
          ps <- elements parameters ;;
          let u_mat := compute_ugate_matrix ps in
          ret (set_target_matrix ugate u_mat)
        else if startswith name "CU" then
          ugate <- lift (new_gate (UGateGeneric None) qid_tuple) ;;
          ps <- elements parameters ;;
          let u_mat := compute_ugate_matrix ps in
          let ugate := set_target_matrix ugate u_mat in
          c <- lift (index qid_tuple 0) ;;
          lift (new_CGate [c] ugate)
        else raise (SympySimulatorError not_supported)
      else raise (SympySimulatorError not_supported)
  end.

(** [qapply(op * self._statevector)]; a gate times [None] is a type error.
    The product of a U gate is looked up in the cache; a CNOT has no matrix
    of its own, so where its product comes from makes no difference. *)
Definition apply_to (op : gate) (sv : option qexpr) : M world qexpr :=
  match sv with
  | None => raise TypeError
  | Some e =>
      match op with
      | OneQubitGate (UGateGeneric _) _ =>
          c <- next_product_cache ;; lift (qapply_cached c op e)
      | _ => lift (qapply op e)
      end
  end.

(** The body of the loop of [run_circuit], for one instruction. *)
Definition run_operation (operation : QobjInstruction) : M world unit :=
  if conditional operation then
    raise (SympySimulatorError conditional_not_supported)
  else if str_in (name operation) ["measure"; "reset"] then
    raise (SympySimulatorError (operation_not_supported (name operation)))
  else if str_in (name operation) ["U"; "u1"; "u2"; "u3"] then
    qubit <- lift (index (qubits operation) 0) ;;
    let opname := upper (name operation) in
    let opparas := params operation in
    _sym_op <- with_objects (get_sym_op opname [qubit] opparas) ;;
    sv <- gets _statevector ;;
    applied <- apply_to _sym_op sv ;;
    set_statevector (Some applied)
  else if (name operation =? "id")%string then ret tt
  else if (name operation =? "barrier")%string then ret tt
  else if str_in (name operation) ["CX"; "cx"] then
    qubit0 <- lift (index (qubits operation) 0) ;;
    qubit1 <- lift (index (qubits operation) 1) ;;
    let opname := upper (name operation) in
    let opparas := params operation in
    let q0q1tuple := [qubit0; qubit1] in
    _sym_op <- with_objects (get_sym_op opname q0q1tuple opparas) ;;
    sv <- gets _statevector ;;
    applied <- apply_to _sym_op sv ;;
    set_statevector (Some applied)
  else
    backend <- gets self_name ;;
    raise (SympySimulatorError (unrecognized_operation backend (name operation))).

(** [[matrix_form[i, 0] for i in range(shape_n)]] *)
Definition list_form (matrix_form : Matrix) : outcome (list complex) :=
  let shape_n := length matrix_form in
  omap_list (fun i => row <~ index matrix_form i ;; index row 0) (seq 0 shape_n).

(** [run_circuit(circuit)] *)
Definition run_circuit (circuit : QobjExperiment) : M world ExperimentResult :=
  set_number_of_qubits (Some (header_number_of_qubits circuit)) ;;
  set_statevector (Some []) ;;
  ground_state <- lift (new_Qubit (replicate (header_number_of_qubits circuit) false)) ;;
  set_statevector (Some ground_state) ;;
  for_each (instructions circuit) run_operation ;;
  sv <- gets _statevector ;;
  matrix_form <- lift (match sv with
                       | Some e => represent e
                       | None => Raises AttributeError
                       end) ;;
  amplitudes <- lift (list_form matrix_form) ;;
  ret {| statevector := amplitudes;
         success := true;
         shots := 1;
         status := "DONE";
         result_header_name := header_name circuit |}.

(** [_validate(qobj)]: the check the job layer makes before any circuit
    runs. *)
Definition _validate (experiments : list QobjExperiment) : outcome unit :=
  fold_left
    (fun acc circuit =>
       _ <~ acc ;;
       fold_left
         (fun acc' operator =>
            _ <~ acc' ;;
            if str_in (name operator) ["measure"; "reset"]
            then Raises (SympySimulatorError (validate_measure_reset (header_name circuit)))
            else Returns tt)
         (instructions circuit) (Returns tt))
    experiments (Returns tt).

(** ** Definitions used to state the properties *)

(** The parameter normalisation as the specification words it: one
    parameter [lambda] stands for (0, 0, lambda), two parameters
    [phi, lambda] for (pi/2, phi, lambda), three are used as they are. *)
Definition spec_parameters (ps : list R) : list R :=
  match ps with
  | [lam] => [0%R; 0%R; lam]
  | [phi; lam] => [(PI / 2)%R; phi; lam]
  | _ => ps
  end.

(** The gate object that the last part of [get_sym_op] builds from a name of
    the U family and the normalised parameters. *)
Definition u_family_gate (name : string) (qid_tuple : list nat) (ps : list R)
  : outcome gate :=
  ugate <~ new_gate (UGateGeneric None) qid_tuple ;;
  let ugate := set_target_matrix ugate (compute_ugate_matrix ps) in
  if startswith name "U" then Returns ugate
  else c <~ index qid_tuple 0 ;; new_CGate [c] ugate.

(** An instruction the engine refuses as non-unitary or classically
    controlled. *)
Definition refused (operation : QobjInstruction) : bool :=
  conditional operation || str_in (name operation) ["measure"; "reset"].

(** The store in which the loop of [run_circuit] starts, for a circuit over
    at least one qubit. *)
Definition ground (circuit : QobjExperiment) (w : world) : world :=
  {| objects := objects w; self_name := self_name w;
     _number_of_qubits := Some (header_number_of_qubits circuit);
     _statevector := Some (Qubit (replicate (header_number_of_qubits circuit) false));
     mul_cache := mul_cache w |}.

(** The store in which [run_circuit] stops when the circuit has no qubit:
    the register state is still the number 0. *)
Definition no_register (w : world) : world :=
  {| objects := objects w; self_name := self_name w;
     _number_of_qubits := Some 0;
     _statevector := Some [];
     mul_cache := mul_cache w |}.

(** The parameters whose matrix acts on the ket [q], when a U gate built
    from the parameters [ps] on the qubits [label] is applied with the
    products of the cache [c]. *)
Definition acting_parameters (c : product_cache) (label : list nat) (ps : list R)
           (q : ket) : list R :=
  default ps (c label q).

(** The ket over [n] qubits whose bit pattern is [i]: qubit [b] holds bit
    [b] of [i]. *)
Definition ket_of_index (n i : nat) : ket :=
  rev (map (Nat.testbit i) (seq 0 n)).

(** The amplitude of a basis ket in a state: the sum of the weights the
    state gives to that ket. *)
Definition amplitude (e : qexpr) (k : ket) : complex :=
  fold_right (fun t acc => if decide (t.2 = k) then (t.1 + acc)%C else acc) 0%C e.

(** The column matrix whose entry [i] is [f i], for [i] below [n]. *)
Definition column (f : nat -> complex) (n : nat) : Matrix :=
  map (fun i => [f i]) (seq 0 n).

(** The value of a list of bits, least significant first. *)
Fixpoint bits_value (l : list bool) : nat :=
  match l with
  | [] => 0
  | b :: l' => Nat.b2n b + 2 * bits_value l'
  end.

(** ** Example inputs *)

(** The text of the bound method [self.name], for a simulator object at
    some address. *)
Definition bound_method_name : string :=
  "<bound method BaseBackend.name of <qiskit_addon_sympy.statevector_simulator.SympyStatevectorSimulator object at 0x7f3c5a1d2e80>>".

(** A simulator object as [__init__] leaves it, in a store without list
    objects, in a process whose cache returns nothing. *)
Definition w0 : world :=
  {| objects := ∅; self_name := bound_method_name;
     _number_of_qubits := None; _statevector := None; mul_cache := [] |}.

Definition instr (n : string) (qs : list nat) (ps : option loc) (c : bool)
  : QobjInstruction :=
  {| name := n; qubits := qs; params := ps; conditional := c |}.

(** The circuit of instructions H on qubit 0, CX on qubits 0 and 1. *)
Definition circuit_H_CX : QobjExperiment :=
  {| header_name := "bell"; header_number_of_qubits := 2;
     instructions := [instr "H" [0] None false; instr "CX" [0; 1] None false] |}.

Definition circuit_h_cx : QobjExperiment :=
  {| header_name := "bell"; header_number_of_qubits := 2;
     instructions := [instr "h" [0] None false; instr "cx" [0; 1] None false] |}.

(** The same circuit in the basis gates of the backend: u2(0, pi) is the
    Hadamard gate.  Its parameter list is the object at location 7. *)
Definition circuit_u2_cx : QobjExperiment :=
  {| header_name := "bell"; header_number_of_qubits := 2;
     instructions := [instr "u2" [0] (Some 7) false; instr "cx" [0; 1] None false] |}.

Definition w_u2 : world :=
  {| objects := {[ 7 := [0%R; PI] ]}; self_name := bound_method_name;
     _number_of_qubits := None; _statevector := None; mul_cache := [] |}.

(** An unknown gate followed by a classically controlled instruction. *)
Definition circuit_h_conditional : QobjExperiment :=
  {| header_name := "c"; header_number_of_qubits := 1;
     instructions := [instr "h" [0] None false; instr "u1" [0] None true] |}.

Definition circuit_cx : QobjExperiment :=
  {| header_name := "cx"; header_number_of_qubits := 2;
     instructions := [instr "cx" [0; 1] None false] |}.

Definition circuit_measure : QobjExperiment :=
  {| header_name := "m"; header_number_of_qubits := 1;
     instructions := [instr "measure" [0] None false] |}.

(** Two gates of the U family on the same qubit: u1(pi), the phase flip,
    then u3(pi, 0, pi), the NOT gate.  Their parameter lists are the objects
    at locations 1 and 3. *)
Definition circuit_u1_u3 : QobjExperiment :=
  {| header_name := "u1u3"; header_number_of_qubits := 1;
     instructions := [instr "u1" [0] (Some 1) false; instr "u3" [0] (Some 3) false] |}.

(** The cache once the product of the u1(pi) gate on qubit 0 and the ket |0>
    has been formed: that product is returned for every U gate on qubit 0
    and that ket. *)
Definition cache_after_u1 : product_cache :=
  fun label q =>
    if decide (label = [0] /\ q = [false]) then Some [0%R; 0%R; PI] else None.

(** A fresh process about to run [circuit_u1_u3]: the first product is new,
    the second is formed when the cache holds the first. *)
Definition w_u1_u3 : world :=
  {| objects := {[ 1 := [PI]; 3 := [PI; 0%R; PI] ]}; self_name := bound_method_name;
     _number_of_qubits := None; _statevector := None;
     mul_cache := [nothing_cached; cache_after_u1] |}.

(** The same run at its second instruction, the register state |0> that the
    first instruction left written in simplified form. *)
Definition w_u3_second : world :=
  {| objects := {[ 1 := [0%R; 0%R; PI]; 3 := [PI; 0%R; PI] ]};
     self_name := bound_method_name;
     _number_of_qubits := Some 1; _statevector := Some (Qubit [false]);
     mul_cache := [cache_after_u1] |}.

(** A measurement in a circuit over no qubit. *)
Definition circuit_measure_no_qubit : QobjExperiment :=
  {| header_name := "m0"; header_number_of_qubits := 0;
     instructions := [instr "measure" [] None false] |}.

(** A measurement after a gate. *)
Definition circuit_cx_measure : QobjExperiment :=
  {| header_name := "cm"; header_number_of_qubits := 2;
     instructions := [instr "cx" [0; 1] None false; instr "measure" [0] None false] |}.

(** ** The job layer *)

Record Qobj := {
  qobj_id : string;
  experiments : list QobjExperiment
}.

(** What [_run_job] reads from outside the simulator object: the name of the
    backend ([self.name()]), the version of the package, and the two
    readings of the clock. *)
Record job_environment := {
  backend_name : string;
  backend_version : string;
  start : R;
  end_ : R
}.

(** [QobjResult], built from the keywords of [result]: the container
    [_run_job] fills. *)
Record QobjResult := {
  result_backend_name : string;
  result_backend_version : string;
  result_qobj_id : string;
  result_job_id : string;
  results : list ExperimentResult;
  job_status : string;
  job_success : bool;
  time_taken : R
}.

(** [dict(items)]: a later item replaces an earlier one with the same key. *)
Definition dict_of {V} (items : list (string * V)) : gmap string V :=
  fold_left (fun d item => <[item.1 := item.2]> d) items ∅.

(** qiskit's [Result]: it takes the name of the backend, the job id and the
    status from the container and keeps the results of the experiments in a
    dictionary, each under the name in its header. *)
Record Result := {
  Result_backend_name : string;
  Result_job_id : string;
  Result_status : string;
  Result_results : gmap string ExperimentResult
}.

(** [Result(qobj_result)] *)
Definition new_Result (qobj_result : QobjResult) : Result :=
  {| Result_backend_name := result_backend_name qobj_result;
     Result_job_id := result_job_id qobj_result;
     Result_status := job_status qobj_result;
     Result_results :=
       dict_of (map (fun r => (result_header_name r, r)) (results qobj_result)) |}.

(** [for circuit in qobj.experiments:
       result_list.append(self.run_circuit(circuit))] *)
Fixpoint run_experiments (circuits : list QobjExperiment)
         (result_list : list ExperimentResult) : M world (list ExperimentResult) :=
  match circuits with
  | [] => ret result_list
  | circuit :: circuits' =>
      r <- run_circuit circuit ;;
      run_experiments circuits' (result_list ++ [r])%list
  end.

(** [_run_job(job_id, qobj)] *)
Definition _run_job (env : job_environment) (job_id : string) (qobj : Qobj)
  : M world Result :=
  lift (_validate (experiments qobj)) ;;
  result_list <- run_experiments (experiments qobj) [] ;;
  let qobj_result :=
    {| result_backend_name := backend_name env;
       result_backend_version := backend_version env;
       result_qobj_id := qobj_id qobj;
       result_job_id := job_id;
       results := result_list;
       job_status := "COMPLETED";
       job_success := true;
       time_taken := (end_ env - start env)%R |} in
  ret (new_Result qobj_result).

(** [DEFAULT_CONFIGURATION] *)
Record configuration := {
  conf_name : string;
  conf_url : string;
  conf_simulator : bool;
  conf_local : bool;
  conf_description : string;
  conf_coupling_map : string;
  basis_gates : string
}.

Definition DEFAULT_CONFIGURATION : configuration :=
  {| conf_name := "statevector_simulator";
     conf_url := "https://github.com/Qiskit/qiskit-addon-sympy";
     conf_simulator := true;
     conf_local := true;
     conf_description := "A sympy-based statevector simulator";
     conf_coupling_map := "all-to-all";
     basis_gates := "u1,u2,u3,cx,id" |}.

(** [s.split(sep)] for a separator of one character. *)
Fixpoint split_on (sep : ascii) (s : string) : list string :=
  match s with
  | EmptyString => [EmptyString]
  | String c s' =>
      if Ascii.eqb c sep then EmptyString :: split_on sep s'
      else match split_on sep s' with
           | [] => [String c EmptyString]
           | w :: ws => String c w :: ws
           end
  end.

(** Example jobs. *)
Definition env0 : job_environment :=
  {| backend_name := "statevector_simulator"; backend_version := "0";
     start := 0%R; end_ := 1%R |}.

Definition qobj_with_measure : Qobj :=
  {| qobj_id := "q"; experiments := [circuit_cx; circuit_measure] |}.

Definition qobj_cx_twice : Qobj :=
  {| qobj_id := "q"; experiments := [circuit_cx; circuit_cx] |}.


(** ** Further definitions used to state properties *)

(** The names the first dispatch of [get_sym_op] compares with, in its
    order. *)
Definition fixed_gate_names : list string :=
  ["ID"; "X"; "Y"; "Z"; "H"; "S"; "SDG"; "T"; "TDG"; "CX"; "CNOT"; "CY"; "CZ";
   "CCX"; "CCNOT"; "TOFFOLI"].

(** A circuit with a measure or reset instruction. *)
Definition has_measure_or_reset (circuit : QobjExperiment) : bool :=
  existsb (fun operator => str_in (name operator) ["measure"; "reset"])
          (instructions circuit).

(** Two stores hold the same parameters when their lists agree once
    normalised. *)
Definition same_parameters (h1 h2 : gmap loc (list R)) : Prop :=
  forall l, spec_parameters <$> (h1 !! l) = spec_parameters <$> (h2 !! l).

(** The locations of the parameter lists of a circuit's instructions. *)
Definition parameter_locations (ops : list QobjInstruction) : list loc :=
  omap params ops.

(** The ket [q] after a NOT on qubit [t] controlled by qubit [c]. *)
Definition controlled_flip (c t : nat) (q : ket) : ket :=
  if qubit_at q c then flip q t else q.

(** The ket [q] with qubit [t] set to [b]. *)
Definition set_qubit (q : ket) (t : nat) (b : bool) : ket :=
  if Bool.eqb (qubit_at q t) b then q else flip q t.

(** The entry of a matrix in row [i] and column [j]. *)
Definition matrix_entry (m : Matrix) (i j : nat) : complex :=
  nth j (nth i m []) 0%C.

(** Product and conjugate transpose of matrices. *)
Definition dot (r c : list complex) : complex :=
  fold_right Cplus 0%C (zip_with Cmult r c).

Definition matrix_mul (a b : Matrix) : Matrix :=
  map (fun row =>
         map (fun j => dot row (map (fun brow => nth j brow 0%C) b))
             (seq 0 (length (hd [] b))))
      a.

Definition dagger (a : Matrix) : Matrix :=
  map (fun j => map (fun row => Cconj (nth j row 0%C)) a)
      (seq 0 (length (hd [] a))).

Definition eye2 : Matrix := [[1; 0]; [0; 1]]%C.

(** ** Tactics *)

(** Unfolds the monad operations. *)
Ltac run_monad :=
  unfold bind, lift, ret, raise, gets, modify, with_objects, obind; simpl.

(** Equations between complex numbers that hold componentwise by linear
    arithmetic. *)
Ltac complex_eq :=
  repeat match goal with a : complex |- _ => destruct a end;
  unfold Cplus, Cmult, Copp, RtoC, Ci; simpl; f_equal; lra.

(** Equations between amplitude vectors, entry by entry. *)
Ltac amplitudes :=
  repeat match goal with
         | |- Returns _ = Returns _ => apply f_equal
         | |- _ :: _ = _ :: _ => apply f_equal2
         | |- (_, _) = (_, _) => apply f_equal2
         | |- @eq (list _) [] [] => reflexivity
         | |- @eq R _ _ => lra
         end.

(** ** Basic facts *)

Lemma startswith_U (name : string) :
  startswith name "U" = true -> exists s, name = String "U" s.
Proof.
  destruct name as [|c s]; [discriminate|].
  cbn [startswith]. intros H. apply andb_true_iff in H as [H _].
  apply Ascii.eqb_eq in H. subst. eauto.
Qed.

Lemma startswith_CU (name : string) :
  startswith name "CU" = true -> exists s, name = String "C" (String "U" s).
Proof.
  destruct name as [|c [|c' s]]; cbn [startswith]; intros H;
    try discriminate.
  - apply andb_true_iff in H as [_ H]. discriminate.
  - apply andb_true_iff in H as [H1 H2]. apply andb_true_iff in H2 as [H2 _].
    apply Ascii.eqb_eq in H1, H2. subst. eauto.
Qed.

(** No fixed gate name begins with U or CU. *)
Lemma the_gate_u_family (name : string) (qid_tuple : list nat) :
  startswith name "U" || startswith name "CU" = true ->
  the_gate name qid_tuple = Returns None.
Proof.
  intros Hn. apply orb_true_iff in Hn as [Hn|Hn].
  - apply startswith_U in Hn as [s ->]. reflexivity.
  - apply startswith_CU in Hn as [s ->]. reflexivity.
Qed.

Lemma get_sym_op_no_params (name : string) (qid_tuple : list nat)
      (h : gmap loc (list R)) :
  startswith name "U" || startswith name "CU" = true ->
  get_sym_op name qid_tuple None h = (Raises TypeError, h).
Proof.
  intros Hn. unfold get_sym_op. run_monad.
  rewrite (the_gate_u_family _ _ Hn), Hn. reflexivity.
Qed.

Lemma u_family_gate_eq (name : string) (qid_tuple : list nat) (l : loc)
      (h : gmap loc (list R)) (ps : list R) :
  startswith name "U" || startswith name "CU" = true ->
  h !! l = Some ps ->
  get_sym_op name qid_tuple (Some l) h =
    if decide (1 <= length ps <= 3)
    then (u_family_gate name qid_tuple (spec_parameters ps),
          <[l := spec_parameters ps]> h)
    else (Raises (SympySimulatorError u_gate_parameter_count), h).
Proof.
  intros Hn Hl. unfold get_sym_op. run_monad.
  rewrite (the_gate_u_family _ _ Hn), Hn.
  unfold read. rewrite Hl. simpl.
  assert (Htail : forall h' ps', h' !! l = Some ps' ->
    (if startswith name "U"
     then fun s : gmap loc (list R) =>
            match new_gate (UGateGeneric None) qid_tuple with
            | Returns a =>
                (Returns (set_target_matrix a
                            (compute_ugate_matrix (default [] (s !! l)))), s)
            | Raises e => (Raises e, s)
            end
     else if startswith name "CU"
          then fun s : gmap loc (list R) =>
                 match new_gate (UGateGeneric None) qid_tuple with
                 | Returns a =>
                     match index qid_tuple 0 with
                     | Returns a0 =>
                         (new_CGate [a0]
                            (set_target_matrix a
                               (compute_ugate_matrix (default [] (s !! l)))), s)
                     | Raises e => (Raises e, s)
                     end
                 | Raises e => (Raises e, s)
                 end
          else fun s => (Raises (SympySimulatorError not_supported), s)) h'
    = (u_family_gate name qid_tuple ps', h')).
  { intros h' ps' Hl'. unfold u_family_gate, obind.
    destruct (startswith name "U") eqn:HU; simpl in Hn |- *.
    - rewrite Hl'. destruct (new_gate _ _); reflexivity.
    - rewrite Hn, Hl'. destruct (new_gate _ _); [|reflexivity].
      destruct (index qid_tuple 0); reflexivity. }
  destruct ps as [|a [|b [|c [|d ps]]]]; simpl.
  - reflexivity.
  - rewrite Hl. simpl. rewrite lookup_insert_eq. simpl.
    rewrite insert_insert_eq. apply Htail, lookup_insert_eq.
  - rewrite Hl. simpl. apply Htail, lookup_insert_eq.
  - rewrite (insert_id h l _ Hl). apply Htail, Hl.
  - reflexivity.
Qed.

Lemma spec_parameters_length (ps : list R) :
  1 <= length ps <= 3 -> length (spec_parameters ps) = 3.
Proof.
  destruct ps as [|a [|b [|c [|d ps]]]]; simpl; lia.
Qed.

Lemma spec_parameters_idem (ps : list R) :
  spec_parameters (spec_parameters ps) = spec_parameters ps.
Proof.
  destruct ps as [|a [|b [|c [|d ps]]]]; reflexivity.
Qed.

Lemma new_gate_inv (cls : one_qubit_class) (label : list nat) (g : gate) :
  new_gate cls label = Returns g -> NoDup label /\ g = OneQubitGate cls label.
Proof.
  unfold new_gate, validate_targets_controls.
  destruct (decide (NoDup label)); simpl; intros H; inversion H; auto.
Qed.

Lemma new_gate_NoDup (cls : one_qubit_class) (label : list nat) :
  NoDup label -> new_gate cls label = Returns (OneQubitGate cls label).
Proof.
  intros H. unfold new_gate, validate_targets_controls.
  destruct (decide (NoDup label)); [reflexivity | contradiction].
Qed.

Lemma new_gate_raises (cls : one_qubit_class) (label : list nat) (e : exception) :
  new_gate cls label = Raises e -> kind_of e = None.
Proof.
  unfold new_gate, validate_targets_controls.
  destruct (decide (NoDup label)); simpl; intros H; inversion H; reflexivity.
Qed.

Lemma new_CGate_inv (cs : list nat) (g g' : gate) :
  new_CGate cs g = Returns g' -> g' = CGate cs g.
Proof.
  unfold new_CGate, validate_targets_controls.
  destruct (targets g); simpl; [|discriminate].
  destruct (decide (NoDup _)); simpl; intros H; inversion H; auto.
Qed.

Lemma index_raises {A} (xs : list A) (i : nat) (e : exception) :
  index xs i = Raises e -> e = IndexError.
Proof.
  unfold index. destruct (xs !! i); intros H; inversion H; reflexivity.
Qed.

Lemma new_CGate_raises (cs : list nat) (cls : one_qubit_class) (label : list nat)
      (e : exception) :
  new_CGate cs (OneQubitGate cls label) = Raises e -> kind_of e = None.
Proof.
  unfold new_CGate, validate_targets_controls. simpl.
  destruct (decide (NoDup _)); simpl; intros H; inversion H; reflexivity.
Qed.

(** What the U branch returns carries the matrix of the parameters it was
    given, and its failures are none of the simulator's own. *)
Lemma u_family_gate_matrix (name : string) (qid_tuple : list nat) (ps : list R)
      (g : gate) :
  u_family_gate name qid_tuple ps = Returns g ->
  get_target_matrix g = Some (compute_ugate_matrix ps).
Proof.
  unfold u_family_gate.
  destruct (new_gate _ _) as [ug|] eqn:Hug; simpl; [|discriminate].
  apply new_gate_inv in Hug as [_ ->]. simpl.
  destruct (startswith name "U").
  - intros H. inversion H. reflexivity.
  - destruct (index qid_tuple 0) as [c|]; simpl; [|discriminate].
    intros H. apply new_CGate_inv in H as ->. reflexivity.
Qed.

Lemma u_family_gate_raises (name : string) (qid_tuple : list nat) (ps : list R)
      (e : exception) :
  u_family_gate name qid_tuple ps = Raises e -> kind_of e = None.
Proof.
  unfold u_family_gate.
  destruct (new_gate _ _) as [ug|e'] eqn:Hug; simpl.
  - apply new_gate_inv in Hug as [_ ->]. simpl.
    destruct (startswith name "U"); [discriminate|].
    destruct (index qid_tuple 0) as [c|e'] eqn:Hc; simpl.
    + apply new_CGate_raises.
    + intros H. inversion H. subst. apply index_raises in Hc as ->. reflexivity.
  - intros H. inversion H. subst. eapply new_gate_raises, Hug.
Qed.

(** A name of the CU family never yields a gate: the inner gate is built on
    the whole of [qid_tuple], so the control is named twice. *)
Lemma cu_family_gate_raises (name : string) (c : nat) (qs : list nat) (ps : list R) :
  startswith name "U" = false ->
  u_family_gate name (c :: qs) ps =
    Raises (QuantumError "Target/control qubits in a gate cannot be duplicated").
Proof.
  intros HU. unfold u_family_gate, new_gate, validate_targets_controls.
  destruct (decide (NoDup (c :: qs))); simpl; [|reflexivity].
  rewrite HU. unfold new_CGate, validate_targets_controls. simpl.
  destruct (decide (NoDup (c :: c :: qs))) as [Hd|]; [|reflexivity].
  apply NoDup_cons in Hd as [Hd _]. exfalso. apply Hd. left.
Qed.

Lemma startswith_CU_not_U (name : string) :
  startswith name "CU" = true -> startswith name "U" = false.
Proof.
  intros H. apply startswith_CU in H as [s ->]. reflexivity.
Qed.

(** ** The gate factory on the U family *)

(** C4: for a name beginning with U or CU and a parameter list [ps], the
    list is normalised before the matrix is built: one parameter becomes
    (0, 0, lambda), two become (pi/2, phi, lambda), three stay; the matrix
    of any returned gate is that of the normalised list; and the call fails
    with the parameter-count error exactly when the length is not 1, 2
    or 3. *)
Theorem u_family_parameter_normalisation
        (name : string) (qid_tuple : list nat) (l : loc)
        (h : gmap loc (list R)) (ps : list R) :
  startswith name "U" || startswith name "CU" = true ->
  h !! l = Some ps ->
  let r := (get_sym_op name qid_tuple (Some l) h).1 in
  let h' := (get_sym_op name qid_tuple (Some l) h).2 in
  ((exists e, r = Raises e /\ kind_of e = Some InvalidParameterCountError)
   <-> ~ (1 <= length ps <= 3))
  /\ (~ (1 <= length ps <= 3) ->
      r = Raises (SympySimulatorError u_gate_parameter_count) /\ h' = h)
  /\ (1 <= length ps <= 3 ->
      h' !! l = Some (spec_parameters ps)
      /\ (forall lam, ps = [lam] -> spec_parameters ps = [0%R; 0%R; lam])
      /\ (forall phi lam, ps = [phi; lam] ->
            spec_parameters ps = [(PI / 2)%R; phi; lam])
      /\ (length ps = 3 -> spec_parameters ps = ps)
      /\ (forall g, r = Returns g ->
            get_target_matrix g = Some (compute_ugate_matrix (spec_parameters ps)))
      /\ (startswith name "U" = true -> NoDup qid_tuple ->
          r = Returns (OneQubitGate
                         (UGateGeneric (Some (compute_ugate_matrix (spec_parameters ps))))
                         qid_tuple))).
Proof.
  intros Hn Hl r h'. subst r h'.
  rewrite (u_family_gate_eq _ _ _ _ _ Hn Hl).
  destruct (decide (1 <= length ps <= 3)) as [Hlen|Hlen]; simpl.
  - split; [|split].
    + split; [|tauto]. intros (e & He & Hk).
      apply u_family_gate_raises in He. congruence.
    + tauto.
    + intros _. split; [apply lookup_insert_eq|].
      split; [intros lam ->; reflexivity|].
      split; [intros phi lam ->; reflexivity|].
      split.
      { destruct ps as [|a [|b [|c [|d ps]]]]; simpl; intros; (reflexivity || lia). }
      split; [intros g; apply u_family_gate_matrix|].
      intros HU Hd. unfold u_family_gate.
      rewrite (new_gate_NoDup _ _ Hd). simpl. rewrite HU. reflexivity.
  - split; [|split].
    + split; [tauto|]. intros _. eexists. split; reflexivity.
    + auto.
    + tauto.
Qed.

Lemma u_family_parameter_normalisation_witness :
  startswith "U1" "U" || startswith "U1" "CU" = true
  /\ ({[ 7 := [PI] ]} : gmap loc (list R)) !! 7 = Some [PI]
  /\ (get_sym_op "U1" [0] (Some 7) {[ 7 := [PI] ]}).2 !! 7 = Some [0%R; 0%R; PI].
Proof.
  split; [reflexivity|]. split; [reflexivity|].
  apply (u_family_parameter_normalisation "U1" [0] 7 {[ 7 := [PI] ]} [PI]);
    [reflexivity | reflexivity | simpl; lia].
Defined.

(** C5 (what the code does instead): for a name beginning with CU and a valid
    parameter count the inner gate is built on the whole of [qid_tuple], the
    control included, so the controlled composition names its control twice
    and the call raises sympy's duplicate-qubit error: no operator is
    returned.  The sibling branch CY builds its inner gate on
    [qid_tuple[1]] alone and returns the controlled composition. *)
Theorem cu_family_builds_inner_gate_on_all_targets
        (name : string) (c : nat) (qs : list nat) (l : loc)
        (h : gmap loc (list R)) (ps : list R) :
  startswith name "CU" = true ->
  h !! l = Some ps ->
  1 <= length ps <= 3 ->
  (get_sym_op name (c :: qs) (Some l) h).1 =
    Raises (QuantumError "Target/control qubits in a gate cannot be duplicated")
  /\ (NoDup (c :: qs) ->
      new_gate (UGateGeneric None) (c :: qs)
      = Returns (OneQubitGate (UGateGeneric None) (c :: qs))
      /\ forall m,
          new_CGate [c] (OneQubitGate (UGateGeneric (Some m)) (c :: qs))
          = Raises (QuantumError "Target/control qubits in a gate cannot be duplicated"))
  /\ (forall t, c <> t ->
      (get_sym_op "CY" [c; t] (Some l) h).1 = Returns (CGate [c] (OneQubitGate YGate [t]))).
Proof.
  intros Hn Hl Hlen. split; [|split].
  - rewrite (u_family_gate_eq name (c :: qs) l h ps); [|rewrite Hn; apply orb_true_r|exact Hl].
    destruct (decide (1 <= length ps <= 3)); [|contradiction]. simpl.
    apply cu_family_gate_raises, startswith_CU_not_U, Hn.
  - intros Hd. split; [apply new_gate_NoDup, Hd|].
    intros m. unfold new_CGate, validate_targets_controls. simpl.
    destruct (decide (NoDup (c :: c :: qs))) as [Hd'|]; [|reflexivity].
    apply NoDup_cons in Hd' as [Hd' _]. exfalso. apply Hd'. left.
  - intros t Hct. unfold get_sym_op, the_gate. run_monad.
    unfold new_gate, new_CGate, validate_targets_controls. simpl.
    destruct (decide (NoDup [t])) as [|Hd]; simpl.
    2:{ exfalso. apply Hd. apply NoDup_singleton. }
    destruct (decide (NoDup [c; t])) as [|Hd]; simpl; [reflexivity|].
    exfalso. apply Hd. apply NoDup_cons. split.
    + intros Hin. apply list_elem_of_singleton in Hin. contradiction.
    + apply NoDup_singleton.
Qed.

Lemma cu_family_builds_inner_gate_on_all_targets_witness :
  startswith "CU1" "CU" = true
  /\ ({[ 7 := [PI] ]} : gmap loc (list R)) !! 7 = Some [PI]
  /\ (get_sym_op "CU1" [0; 1] (Some 7) {[ 7 := [PI] ]}).1 =
       Raises (QuantumError "Target/control qubits in a gate cannot be duplicated").
Proof.
  split; [reflexivity|]. split; [reflexivity|].
  assert (Hlen : 1 <= length [PI] <= 3) by (simpl; lia).
  destruct (cu_family_builds_inner_gate_on_all_targets
              "CU1" 0 [1] 7 {[ 7 := [PI] ]} [PI] eq_refl
              (lookup_singleton_eq _ _) Hlen) as (Hraise & _).
  exact Hraise.
Defined.

(** C9: for a name beginning with U or CU and a parameter list of length 1
    or 2, the call writes the default angles at the front of the caller's
    own list object: afterwards that object holds three parameters, no other
    object has changed, and a second call with the same object takes the
    three-parameter path, returning the same outcome and leaving the store
    as it is. *)
Theorem get_sym_op_mutates_parameter_list
        (name : string) (qid_tuple : list nat) (l : loc)
        (h : gmap loc (list R)) (ps : list R) :
  startswith name "U" || startswith name "CU" = true ->
  h !! l = Some ps ->
  length ps = 1 \/ length ps = 2 ->
  let r := (get_sym_op name qid_tuple (Some l) h).1 in
  let h' := (get_sym_op name qid_tuple (Some l) h).2 in
  (exists front, h' !! l = Some (front ++ ps)%list
                 /\ length (front ++ ps)%list = 3
                 /\ (front = [0%R; 0%R] \/ front = [(PI / 2)%R]))
  /\ h' !! l <> h !! l
  /\ (forall l', l' <> l -> h' !! l' = h !! l')
  /\ get_sym_op name qid_tuple (Some l) h' = (r, h').
Proof.
  intros Hn Hl Hlen r h'. subst r h'.
  rewrite (u_family_gate_eq _ _ _ _ _ Hn Hl).
  destruct (decide (1 <= length ps <= 3)) as [Hv|Hv]; [|lia]. simpl.
  split; [|split; [|split]].
  - rewrite lookup_insert_eq.
    destruct ps as [|a [|b [|c ps]]]; simpl in Hlen; try lia.
    + exists [0%R; 0%R]. auto.
    + exists [(PI / 2)%R]. auto.
  - rewrite lookup_insert_eq, Hl. intros Heq. inversion Heq as [Heq'].
    apply (f_equal length) in Heq'. rewrite spec_parameters_length in Heq'; lia.
  - intros l' Hne. apply lookup_insert_ne. auto.
  - rewrite (u_family_gate_eq name qid_tuple l _ (spec_parameters ps) Hn
               (lookup_insert_eq _ _ _)).
    rewrite spec_parameters_length by exact Hv.
    destruct (decide (1 <= 3 <= 3)); [|lia].
    rewrite spec_parameters_idem, insert_insert_eq. reflexivity.
Qed.

Lemma get_sym_op_mutates_parameter_list_witness :
  startswith "U2" "U" || startswith "U2" "CU" = true
  /\ ({[ 7 := [0%R; PI] ]} : gmap loc (list R)) !! 7 = Some [0%R; PI]
  /\ (length [0%R; PI] = 1 \/ length [0%R; PI] = 2)
  /\ (get_sym_op "U2" [0] (Some 7) {[ 7 := [0%R; PI] ]}).2 !! 7
     <> ({[ 7 := [0%R; PI] ]} : gmap loc (list R)) !! 7.
Proof.
  split; [reflexivity|]. split; [reflexivity|]. split; [right; reflexivity|].
  apply (get_sym_op_mutates_parameter_list "U2" [0] 7 {[ 7 := [0%R; PI] ]} [0%R; PI]);
    [reflexivity | reflexivity | right; reflexivity].
Defined.

(** ** The evolution loop *)

Lemma str_in_In (x : string) (xs : list string) :
  str_in x xs = true <-> In x xs.
Proof.
  unfold str_in. rewrite existsb_exists. split.
  - intros (y & Hy & Heq). apply String.eqb_eq in Heq. subst. exact Hy.
  - intros Hx. exists x. split; [exact Hx | apply String.eqb_refl].
Qed.

Lemma set_objects_id (w : world) : set_objects w (objects w) = w.
Proof. destruct w. reflexivity. Qed.

Lemma for_each_app {S A} (xs ys : list A) (body : A -> M S unit) (s : S) :
  for_each (xs ++ ys) body s =
    match for_each xs body s with
    | (Returns _, s') => for_each ys body s'
    | (Raises e, s') => (Raises e, s')
    end.
Proof.
  revert s. induction xs as [|x xs IH]; intros s; simpl; [reflexivity|].
  unfold bind. destruct (body x s) as [[[]|e] s']; [apply IH | reflexivity].
Qed.

(** A refused instruction raises at once and writes nothing. *)
Lemma run_operation_refused (operation : QobjInstruction) (w : world) :
  refused operation = true ->
  run_operation operation w =
    (Raises (SympySimulatorError
               (if conditional operation then conditional_not_supported
                else operation_not_supported (name operation))), w).
Proof.
  unfold refused, run_operation. intros H.
  destruct (conditional operation); [reflexivity|].
  rewrite orb_false_l in H. rewrite H. reflexivity.
Qed.

Lemma run_operation_returns_not_refused (operation : QobjInstruction) (w w' : world) :
  run_operation operation w = (Returns tt, w') -> refused operation = false.
Proof.
  intros H. destruct (refused operation) eqn:Hr; [|reflexivity].
  rewrite (run_operation_refused _ _ Hr) in H. discriminate.
Qed.

Lemma for_each_returns_not_refused (ops : list QobjInstruction) (w w' : world) :
  for_each ops run_operation w = (Returns tt, w') ->
  Forall (fun o => refused o = false) ops.
Proof.
  revert w. induction ops as [|o ops IH]; intros w; simpl; [constructor|].
  unfold bind. destruct (run_operation o w) as [[[]|e] w1] eqn:Ho; [|discriminate].
  intros H. constructor; [eapply run_operation_returns_not_refused, Ho | eapply IH, H].
Qed.

(** The loop over a circuit that holds a refused instruction never returns. *)
Lemma for_each_refused (pre post : list QobjInstruction) (op : QobjInstruction)
      (w : world) :
  refused op = true ->
  exists e w', for_each (pre ++ op :: post) run_operation w = (Raises e, w').
Proof.
  intros Hr. rewrite for_each_app.
  destruct (for_each pre run_operation w) as [[[]|e] w1]; [|eauto].
  simpl. unfold bind. rewrite (run_operation_refused _ _ Hr). eauto.
Qed.

Lemma new_Qubit_ground (n : nat) :
  n <> 0 ->
  new_Qubit (replicate n false) = Returns (Qubit (replicate n false)).
Proof. destruct n; [contradiction | reflexivity]. Qed.

(** A circuit over no qubit stops before its loop. *)
Lemma run_circuit_no_qubits (circuit : QobjExperiment) (w : world) :
  header_number_of_qubits circuit = 0 ->
  run_circuit circuit w = (Raises ValueError, no_register w).
Proof.
  intros Hn. unfold run_circuit, set_number_of_qubits, set_statevector.
  run_monad. rewrite Hn. reflexivity.
Qed.

Lemma run_circuit_loop (circuit : QobjExperiment) (w : world) :
  header_number_of_qubits circuit <> 0 ->
  run_circuit circuit w =
    match for_each (instructions circuit) run_operation (ground circuit w) with
    | (Returns _, w') =>
        match (match _statevector w' with
               | Some e => represent e
               | None => Raises AttributeError
               end) with
        | Returns matrix_form =>
            match list_form matrix_form with
            | Returns amplitudes =>
                (Returns {| statevector := amplitudes; success := true; shots := 1;
                            status := "DONE";
                            result_header_name := header_name circuit |}, w')
            | Raises e => (Raises e, w')
            end
        | Raises e => (Raises e, w')
        end
    | (Raises e, w') => (Raises e, w')
    end.
Proof.
  intros Hn. unfold run_circuit, set_number_of_qubits, set_statevector. run_monad.
  rewrite (new_Qubit_ground _ Hn). fold (ground circuit w).
  destruct (for_each _ _ _) as [[[]|e] w']; [|reflexivity].
  destruct (_statevector w') as [sv|]; [|reflexivity].
  destruct (represent sv); [|reflexivity].
  destruct (list_form a); reflexivity.
Qed.

(** C3 (as amended): when a circuit holds a measure or reset instruction, or
    one flagged conditional, the run raises and returns no amplitude vector;
    and when the circuit is over at least one qubit and the instructions
    before such an instruction have all been processed, none of them is of
    that sort and the run fails at it, with the unsupported-operation
    error, the store being as the instructions before left it. *)
Theorem refused_instruction_fails_circuit
        (circuit : QobjExperiment) (w : world)
        (pre post : list QobjInstruction) (op : QobjInstruction) :
  instructions circuit = (pre ++ op :: post)%list ->
  refused op = true ->
  (exists e w', run_circuit circuit w = (Raises e, w'))
  /\ (0 < header_number_of_qubits circuit ->
      forall w1,
        for_each pre run_operation (ground circuit w) = (Returns tt, w1) ->
        Forall (fun o => refused o = false) pre
        /\ exists site,
            run_circuit circuit w = (Raises (SympySimulatorError site), w1)
            /\ kind_of (SympySimulatorError site) = Some UnsupportedOperationError
            /\ site = (if conditional op then conditional_not_supported
                       else operation_not_supported (name op))).
Proof.
  intros Hc Hr. split.
  - destruct (Nat.eq_dec (header_number_of_qubits circuit) 0) as [Hn|Hn].
    + rewrite (run_circuit_no_qubits _ _ Hn). eauto.
    + rewrite (run_circuit_loop _ _ Hn), Hc.
      destruct (for_each_refused pre post op (ground circuit w) Hr) as (e & w' & ->).
      eauto.
  - intros Hn w1 Hpre. rewrite run_circuit_loop, Hc by lia.
    split; [eapply for_each_returns_not_refused, Hpre|].
    rewrite for_each_app, Hpre. simpl. unfold bind.
    rewrite (run_operation_refused _ _ Hr).
    eexists. split; [reflexivity|]. split; [|reflexivity].
    destruct (conditional op); reflexivity.
Qed.

Lemma refused_instruction_fails_circuit_witness :
  instructions circuit_cx_measure
  = ([instr "cx" [0; 1] None false] ++ instr "measure" [0] None false :: [])%list
  /\ refused (instr "measure" [0] None false) = true
  /\ 0 < header_number_of_qubits circuit_cx_measure
  /\ exists w1,
      for_each [instr "cx" [0; 1] None false] run_operation
               (ground circuit_cx_measure w0) = (Returns tt, w1)
      /\ exists site,
          run_circuit circuit_cx_measure w0 = (Raises (SympySimulatorError site), w1)
          /\ kind_of (SympySimulatorError site) = Some UnsupportedOperationError.
Proof.
  assert (Hn : 0 < header_number_of_qubits circuit_cx_measure) by (simpl; lia).
  split; [reflexivity|]. split; [reflexivity|]. split; [exact Hn|].
  destruct (refused_instruction_fails_circuit circuit_cx_measure w0
              [instr "cx" [0; 1] None false] []
              (instr "measure" [0] None false) eq_refl eq_refl) as (_ & Hat).
  eexists. split; [reflexivity|].
  destruct (Hat Hn _ eq_refl) as (_ & site & Hrun & Hkind & _).
  exists site. split; assumption.
Defined.

(** C3 (as stated) fails: the circuit below holds an instruction flagged
    conditional and passes the check of the job layer, yet the run fails at
    the unknown gate before that instruction, with the
    unrecognized-operation error and not the unsupported-operation one.
    And a circuit over no qubit that holds a measure instruction fails
    before its loop, with a value error. *)
Lemma refused_instruction_after_unknown_gate :
  (exists op, In op (instructions circuit_h_conditional) /\ conditional op = true)
  /\ _validate [circuit_h_conditional] = Returns tt
  /\ (run_circuit circuit_h_conditional w0).1 =
       Raises (SympySimulatorError
                 (unrecognized_operation (self_name w0) "h"))
  /\ kind_of (SympySimulatorError
                (unrecognized_operation (self_name w0) "h"))
     <> Some UnsupportedOperationError
  /\ (exists op, In op (instructions circuit_measure_no_qubit)
                 /\ name op = "measure")
  /\ (run_circuit circuit_measure_no_qubit w0).1 = Raises ValueError
  /\ kind_of ValueError <> Some UnsupportedOperationError.
Proof.
  split; [|split; [|split; [|split; [|split; [|split]]]]].
  - exists (instr "u1" [0] None true). split; [right; left|]; reflexivity.
  - reflexivity.
  - reflexivity.
  - discriminate.
  - exists (instr "measure" [] None false). split; [left|]; reflexivity.
  - reflexivity.
  - discriminate.
Qed.

(** C7: processing an [id] or [barrier] instruction leaves the store, and
    with it the register state, as it was; when the instruction is not
    flagged conditional it completes, so a circuit with the instruction and
    the circuit without it run to the same result. *)
Theorem id_and_barrier_leave_state_unchanged
        (operation : QobjInstruction) (w : world) :
  name operation = "id" \/ name operation = "barrier" ->
  (run_operation operation w).2 = w
  /\ (conditional operation = false ->
      run_operation operation w = (Returns tt, w)
      /\ forall hn n pre post w1,
          run_circuit {| header_name := hn; header_number_of_qubits := n;
                         instructions := (pre ++ operation :: post)%list |} w1
          = run_circuit {| header_name := hn; header_number_of_qubits := n;
                           instructions := (pre ++ post)%list |} w1).
Proof.
  intros Hname.
  assert (Hstep : conditional operation = false ->
                  run_operation operation w = (Returns tt, w)).
  { intros Hc. unfold run_operation. rewrite Hc.
    destruct Hname as [-> | ->]; reflexivity. }
  split.
  - destruct (conditional operation) eqn:Hc.
    + unfold run_operation. rewrite Hc. reflexivity.
    + rewrite (Hstep eq_refl). reflexivity.
  - intros Hc. split; [exact (Hstep Hc)|].
    intros hn n pre post w1.
    destruct (Nat.eq_dec n 0) as [Hn|Hn].
    { rewrite !run_circuit_no_qubits by exact Hn. reflexivity. }
    rewrite !run_circuit_loop by exact Hn. simpl.
    unfold ground. simpl. rewrite !for_each_app.
    destruct (for_each pre run_operation _) as [[[]|e] w2]; [|reflexivity].
    simpl. unfold bind.
    assert (Hstep2 : run_operation operation w2 = (Returns tt, w2)).
    { unfold run_operation. rewrite Hc.
      destruct Hname as [-> | ->]; reflexivity. }
    rewrite Hstep2. reflexivity.
Qed.

Lemma id_and_barrier_leave_state_unchanged_witness :
  (name (instr "id" [0] None false) = "id"
   \/ name (instr "id" [0] None false) = "barrier")
  /\ conditional (instr "id" [0] None false) = false
  /\ run_operation (instr "id" [0] None false) (ground circuit_h_cx w0)
     = (Returns tt, ground circuit_h_cx w0).
Proof.
  split; [left; reflexivity|]. split; [reflexivity|].
  apply (id_and_barrier_leave_state_unchanged (instr "id" [0] None false)
           (ground circuit_h_cx w0)); [left|]; reflexivity.
Defined.

Lemma u_names_upper (n : string) :
  str_in n ["U"; "u1"; "u2"; "u3"] = true ->
  startswith (upper n) "U" = true.
Proof.
  intros H. apply str_in_In in H. simpl in H.
  destruct H as [<-|[<-|[<-|[<-|[]]]]]; reflexivity.
Qed.

Lemma cx_names_upper (n : string) :
  str_in n ["CX"; "cx"] = true -> upper n = "CX".
Proof.
  intros H. apply str_in_In in H. simpl in H.
  destruct H as [<-|[<-|[]]]; reflexivity.
Qed.

Lemma str_in_app (x : string) (xs ys : list string) :
  str_in x (xs ++ ys) = str_in x xs || str_in x ys.
Proof. apply existsb_app. Qed.

(** The steps the two unitary branches of the loop body share. *)
Lemma gate_step (n : string) (qs : list nat) (ps : option loc) (w : world) :
  (_sym_op <- with_objects (get_sym_op n qs ps) ;;
   sv <- gets _statevector ;;
   applied <- apply_to _sym_op sv ;;
   set_statevector (Some applied)) w
  = match get_sym_op n qs ps (objects w) with
    | (Returns g, h') =>
        match apply_to g (_statevector w) (set_objects w h') with
        | (Returns e', w1) =>
            (Returns tt,
             {| objects := objects w1; self_name := self_name w1;
                _number_of_qubits := _number_of_qubits w1;
                _statevector := Some e'; mul_cache := mul_cache w1 |})
        | (Raises e, w1) => (Raises e, w1)
        end
    | (Raises e, h') => (Raises e, set_objects w h')
    end.
Proof.
  run_monad. destruct (get_sym_op _ _ _ _) as [[g|e] h']; [|reflexivity].
  simpl. destruct (apply_to g (_statevector w) _) as [[e'|e] w1]; reflexivity.
Qed.

(** The branches of the loop body for the unitary names, in terms of what
    the gate factory returns. *)
Lemma run_operation_u (operation : QobjInstruction) (w : world) (q : nat)
      (rest : list nat) :
  refused operation = false ->
  str_in (name operation) ["U"; "u1"; "u2"; "u3"] = true ->
  qubits operation = q :: rest ->
  run_operation operation w =
    match get_sym_op (upper (name operation)) [q] (params operation) (objects w) with
    | (Returns g, h') =>
        match apply_to g (_statevector w) (set_objects w h') with
        | (Returns e', w1) =>
            (Returns tt,
             {| objects := objects w1; self_name := self_name w1;
                _number_of_qubits := _number_of_qubits w1;
                _statevector := Some e'; mul_cache := mul_cache w1 |})
        | (Raises e, w1) => (Raises e, w1)
        end
    | (Raises e, h') => (Raises e, set_objects w h')
    end.
Proof.
  unfold refused. intros Hr Hu Hq. apply orb_false_iff in Hr as [Hc Hm].
  unfold run_operation. rewrite Hc, Hm, Hu, Hq. run_monad.
  destruct (get_sym_op _ _ _ _) as [[g|e] h']; [|reflexivity].
  simpl. destruct (apply_to g (_statevector w) _) as [[e'|e] w1]; reflexivity.
Qed.

Lemma run_operation_cx (operation : QobjInstruction) (w : world) (q0 q1 : nat)
      (rest : list nat) :
  refused operation = false ->
  str_in (name operation) ["CX"; "cx"] = true ->
  qubits operation = q0 :: q1 :: rest ->
  run_operation operation w =
    match get_sym_op "CX" [q0; q1] (params operation) (objects w) with
    | (Returns g, h') =>
        match apply_to g (_statevector w) (set_objects w h') with
        | (Returns e', w1) =>
            (Returns tt,
             {| objects := objects w1; self_name := self_name w1;
                _number_of_qubits := _number_of_qubits w1;
                _statevector := Some e'; mul_cache := mul_cache w1 |})
        | (Raises e, w1) => (Raises e, w1)
        end
    | (Raises e, h') => (Raises e, set_objects w h')
    end.
Proof.
  unfold refused. intros Hr Hu Hq. apply orb_false_iff in Hr as [Hc Hm].
  unfold run_operation. rewrite Hc, Hm, Hq, (cx_names_upper _ Hu).
  assert (Hn : str_in (name operation) ["U"; "u1"; "u2"; "u3"] = false
               /\ (name operation =? "id")%string = false
               /\ (name operation =? "barrier")%string = false).
  { apply str_in_In in Hu. simpl in Hu.
    destruct Hu as [<-|[<-|[]]]; repeat split; reflexivity. }
  destruct Hn as (-> & -> & ->). rewrite Hu. run_monad.
  destruct (get_sym_op _ _ _ _) as [[g|e] h']; [|reflexivity].
  simpl. destruct (apply_to g (_statevector w) _) as [[e'|e] w1]; reflexivity.
Qed.

(** The two products the loop forms. *)
Lemma apply_to_CNOT (label : list nat) (e : qexpr) (w : world) :
  apply_to (CNotGate label) (Some e) w = (qapply (CNotGate label) e, w).
Proof. reflexivity. Qed.

Lemma apply_to_UGate (m : option Matrix) (label : list nat) (e : qexpr) (w : world) :
  apply_to (OneQubitGate (UGateGeneric m) label) (Some e) w
  = (qapply_cached (hd nothing_cached (mul_cache w))
                   (OneQubitGate (UGateGeneric m) label) e,
     {| objects := objects w; self_name := self_name w;
        _number_of_qubits := _number_of_qubits w;
        _statevector := _statevector w;
        mul_cache := tl (mul_cache w) |}).
Proof. reflexivity. Qed.

Lemma get_sym_op_CX (q0 q1 : nat) (ps : option loc) (h : gmap loc (list R)) :
  q0 <> q1 ->
  get_sym_op "CX" [q0; q1] ps h = (Returns (CNotGate [q0; q1]), h).
Proof.
  intros Hne. unfold get_sym_op, the_gate, CNOT, validate_targets_controls.
  run_monad. destruct (decide (NoDup [q0; q1])) as [|Hd]; [reflexivity|].
  exfalso. apply Hd. apply NoDup_cons. split; [|apply NoDup_singleton].
  intros Hin. apply list_elem_of_singleton in Hin. contradiction.
Qed.

(** C10: called with a name beginning with U or CU and [None] for the
    parameters, the gate factory raises a type error, which is none of the
    simulator's own errors; this is what the loop meets for an instruction
    of the U family that has no parameters. *)
Theorem u_family_without_parameters_type_error :
  (forall (name : string) (qid_tuple : list nat) (h : gmap loc (list R)),
      startswith name "U" || startswith name "CU" = true ->
      get_sym_op name qid_tuple None h = (Raises TypeError, h))
  /\ kind_of TypeError = None
  /\ (forall (operation : QobjInstruction) (w : world) (q : nat) (rest : list nat),
        refused operation = false ->
        str_in (name operation) ["U"; "u1"; "u2"; "u3"] = true ->
        qubits operation = q :: rest ->
        params operation = None ->
        run_operation operation w = (Raises TypeError, w)).
Proof.
  split; [|split].
  - intros name0 qid_tuple h Hn. apply get_sym_op_no_params, Hn.
  - reflexivity.
  - intros operation w q rest Hr Hu Hq Hp.
    rewrite (run_operation_u _ _ _ _ Hr Hu Hq), Hp.
    rewrite get_sym_op_no_params.
    + rewrite set_objects_id. reflexivity.
    + rewrite (u_names_upper _ Hu). reflexivity.
Qed.

Lemma u_family_without_parameters_type_error_witness :
  startswith "U1" "U" || startswith "U1" "CU" = true
  /\ refused (instr "u1" [0] None false) = false
  /\ get_sym_op "U1" [0] None ∅ = (Raises TypeError, ∅)
  /\ run_operation (instr "u1" [0] None false) w0 = (Raises TypeError, w0).
Proof.
  split; [reflexivity|]. split; [reflexivity|].
  destruct u_family_without_parameters_type_error as (H1 & _ & H3).
  split.
  - apply (H1 "U1" [0] ∅). reflexivity.
  - apply (H3 (instr "u1" [0] None false) w0 0 []); reflexivity.
Defined.

(** ** Complex arithmetic *)

Lemma Cplus_0_r (a : complex) : (a + 0 = a)%C.
Proof. complex_eq. Qed.

Lemma Cplus_assoc (a b c : complex) : (a + b + c = a + (b + c))%C.
Proof. complex_eq. Qed.

Lemma Cmult_1_r (a : complex) : (a * 1 = a)%C.
Proof. complex_eq. Qed.

Lemma Cmult_0_r (a : complex) : (a * 0 = 0)%C.
Proof. complex_eq. Qed.

Lemma Cplus_0_l (a : complex) : (0 + a = a)%C.
Proof. complex_eq. Qed.

Lemma sqrt2_sqr : (sqrt 2 * sqrt 2 = 2)%R.
Proof. apply sqrt_sqrt. lra. Qed.

Lemma inv_sqrt2 : (/ sqrt 2 = sqrt 2 / 2)%R.
Proof.
  pose proof sqrt2_sqr as H. pose proof sqrt2_neq_0 as Hn.
  apply (Rmult_eq_reg_l (sqrt 2)); [|exact Hn].
  rewrite Rinv_r by exact Hn. lra.
Qed.

(** ** Kets and basis indices *)

Lemma fold_definite_state (l : list bool) (ds n : nat) :
  fst (fold_left (fun '(ds, n) it => (ds + n * Nat.b2n it, n * 2)) l (ds, n))
  = ds + n * bits_value l.
Proof.
  revert ds n. induction l as [|b l IH]; intros ds n; simpl; [lia|].
  rewrite IH. lia.
Qed.

Lemma definite_state_bits_value (q : ket) :
  definite_state q = bits_value (rev q).
Proof. unfold definite_state. rewrite fold_definite_state. lia. Qed.

Lemma bits_value_lt (l : list bool) : bits_value l < 2 ^ length l.
Proof.
  induction l as [|b l IH]; simpl; [lia|]. destruct b; simpl; lia.
Qed.

Lemma definite_state_lt (q : ket) : definite_state q < 2 ^ length q.
Proof.
  rewrite definite_state_bits_value. rewrite <- length_rev. apply bits_value_lt.
Qed.

Lemma testbit_bits_value (l : list bool) :
  map (Nat.testbit (bits_value l)) (seq 0 (length l)) = l.
Proof.
  induction l as [|b l IH]; [reflexivity|].
  cbn [length seq map bits_value]. f_equal.
  - rewrite (Nat.add_comm (Nat.b2n b)). apply Nat.testbit_0_r.
  - rewrite <- seq_shift, map_map. rewrite <- IH at 2.
    apply map_ext. intros k.
    rewrite (Nat.add_comm (Nat.b2n b)). apply Nat.testbit_succ_r.
Qed.

Lemma bits_value_testbit (n i : nat) :
  bits_value (map (Nat.testbit i) (seq 0 n)) = i mod 2 ^ n.
Proof.
  revert i. induction n as [|n IH]; intros i.
  - cbn [seq map bits_value]. change (2 ^ 0) with 1.
    rewrite Nat.mod_1_r. reflexivity.
  - cbn [seq map bits_value]. rewrite <- seq_shift, map_map.
    rewrite (map_ext _ (Nat.testbit (i / 2))).
    2:{ intros k. rewrite <- Nat.div2_div. reflexivity. }
    rewrite IH. rewrite Nat.pow_succ_r', Nat.Div0.mod_mul_r.
    f_equal. rewrite Nat.bit0_mod. reflexivity.
Qed.

(** The basis index of a ket is [i] exactly when its bit pattern is [i]. *)
Lemma definite_state_ket_of_index (n i : nat) (q : ket) :
  length q = n -> i < 2 ^ n ->
  definite_state q = i <-> q = ket_of_index n i.
Proof.
  intros Hlen Hi. rewrite definite_state_bits_value. unfold ket_of_index. split.
  - intros <-. rewrite <- Hlen, <- length_rev, testbit_bits_value.
    symmetry. apply rev_involutive.
  - intros ->. rewrite rev_involutive, bits_value_testbit.
    apply Nat.mod_small, Hi.
Qed.

(** Qubit [b] of the ket of index [i] holds bit [b] of [i]. *)
Lemma qubit_at_ket_of_index (n i b : nat) :
  b < n -> qubit_at (ket_of_index n i) b = Nat.testbit i b.
Proof.
  intros Hb. unfold qubit_at, ket_of_index.
  rewrite length_rev, length_map, length_seq.
  rewrite rev_nth by (rewrite length_map, length_seq; lia).
  rewrite length_map, length_seq.
  replace (n - S (n - b - 1)) with b by lia.
  rewrite (nth_indep _ false (Nat.testbit i 0)) by (rewrite length_map, length_seq; lia).
  rewrite map_nth, seq_nth by lia. reflexivity.
Qed.

(** ** Gate application keeps the register size *)

Lemma length_flip (q : ket) (b : nat) : length (flip q b) = length q.
Proof. apply length_alter. Qed.

Lemma length_place (q : ket) (ts : list nat) (i : nat) :
  length (place q ts i) = length q.
Proof.
  unfold place. generalize (zip (seq 0 (length ts)) ts). intros l.
  revert q. induction l as [|[bit target] l IH]; intros q; simpl; [reflexivity|].
  rewrite IH. destruct (Bool.eqb _ _); [reflexivity | apply length_flip].
Qed.

Lemma Forall_imap_ket (n : nat) (f : nat -> ket) (col : list complex) :
  (forall i, length (f i) = n) ->
  Forall (fun t : complex * ket => length t.2 = n) (imap (fun i c => (c, f i)) col).
Proof.
  revert f. induction col as [|c col IH]; intros f Hf; simpl; constructor.
  - apply Hf.
  - apply (IH (fun i => f (S i))). intros i. apply Hf.
Qed.

Lemma apply_operator_Qubit_length (g : gate) (q : ket) (r : qexpr) :
  apply_operator_Qubit g q = Returns r ->
  Forall (fun t : complex * ket => length t.2 = length q) r.
Proof.
  unfold apply_operator_Qubit.
  destruct (min_qubits g) as [mq|]; simpl; [|discriminate].
  destruct (length q <? mq)%nat; [discriminate|].
  destruct (if is_CGate g then _ else _) as [[]|]; simpl; try discriminate.
  - destruct (targets g) as [ts|]; simpl; [|discriminate].
    destruct (get_target_matrix g) as [m|]; [|discriminate].
    destruct (matrix_column m _) as [col|]; simpl; [|discriminate].
    intros H. inversion H. apply Forall_imap_ket. intros i. apply length_place.
  - intros H. inversion H. repeat constructor.
Qed.

Lemma qapply_length (g : gate) (n : nat) (e e' : qexpr) :
  Forall (fun t : complex * ket => length t.2 = n) e ->
  qapply g e = Returns e' ->
  Forall (fun t : complex * ket => length t.2 = n) e'.
Proof.
  revert e'. induction e as [|[c q] e IH]; intros e' He; simpl.
  - intros H. inversion H. constructor.
  - destruct (apply_operator_Qubit g q) as [r|] eqn:Hr; simpl; [|discriminate].
    destruct (qapply g e) as [rs|]; simpl; [|discriminate].
    intros [= <-]. apply Forall_cons in He as [Hq He'].
    apply Forall_app. split.
    + apply apply_operator_Qubit_length in Hr. simpl in Hq. rewrite Hq in Hr.
      apply Forall_map. simpl. exact Hr.
    + apply IH; [exact He' | reflexivity].
Qed.

Lemma qapply_cached_length (c : product_cache) (g : gate) (n : nat) (e e' : qexpr) :
  Forall (fun t : complex * ket => length t.2 = n) e ->
  qapply_cached c g e = Returns e' ->
  Forall (fun t : complex * ket => length t.2 = n) e'.
Proof.
  revert e'. induction e as [|[a q] e IH]; intros e' He; simpl.
  - intros H. inversion H. constructor.
  - destruct (apply_operator_Qubit (cached_gate c g q) q) as [r|] eqn:Hr; simpl;
      [|discriminate].
    destruct (qapply_cached c g e) as [rs|]; simpl; [|discriminate].
    intros [= <-]. apply Forall_cons in He as [Hq He'].
    apply Forall_app. split.
    + apply apply_operator_Qubit_length in Hr. simpl in Hq. rewrite Hq in Hr.
      apply Forall_map. simpl. exact Hr.
    + apply IH; [exact He' | reflexivity].
Qed.

Lemma apply_to_length (g : gate) (n : nat) (e e' : qexpr) (w w' : world) :
  Forall (fun t : complex * ket => length t.2 = n) e ->
  apply_to g (Some e) w = (Returns e', w') ->
  Forall (fun t : complex * ket => length t.2 = n) e'.
Proof.
  intros He. unfold apply_to.
  destruct g as [[| | | | | | | | |m] label|label|cs g]; run_monad;
    try (destruct (qapply _ e) as [r|] eqn:Hr; [|discriminate];
         intros [= <- <-]; eapply qapply_length; eassumption).
  destruct (qapply_cached _ _ e) as [r|] eqn:Hr; [|discriminate].
  intros [= <- <-]. eapply qapply_cached_length; eassumption.
Qed.

(** An instruction that completes keeps a register state whose kets all
    have [n] values. *)
Lemma run_operation_register_size (n : nat) (operation : QobjInstruction)
      (w w' : world) :
  (exists e, _statevector w = Some e
             /\ Forall (fun t : complex * ket => length t.2 = n) e) ->
  run_operation operation w = (Returns tt, w') ->
  exists e, _statevector w' = Some e
            /\ Forall (fun t : complex * ket => length t.2 = n) e.
Proof.
  intros (e & Hsv & He).
  assert (Hgate : forall nm qs,
    (_sym_op <- with_objects (get_sym_op nm qs (params operation)) ;;
     sv <- gets _statevector ;;
     applied <- apply_to _sym_op sv ;;
     set_statevector (Some applied)) w = (Returns tt, w') ->
    exists e, _statevector w' = Some e
              /\ Forall (fun t : complex * ket => length t.2 = n) e).
  { intros nm qs. unfold bind at 1. unfold with_objects.
    destruct (get_sym_op nm qs (params operation) (objects w)) as [[g|] h'];
      [|discriminate].
    unfold bind at 1. unfold gets. cbn [set_objects _statevector].
    rewrite Hsv. unfold bind, set_statevector, modify.
    destruct (apply_to g (Some e) _) as [[e'|] w1] eqn:Ha; [|discriminate].
    intros [= <-]. exists e'. split; [reflexivity|].
    eapply apply_to_length; eassumption. }
  unfold run_operation.
  destruct (conditional operation); [discriminate|].
  destruct (str_in (name operation) ["measure"; "reset"]); [discriminate|].
  destruct (str_in (name operation) ["U"; "u1"; "u2"; "u3"]).
  { unfold bind at 1. unfold lift at 1.
    destruct (index (qubits operation) 0); [|discriminate]. apply Hgate. }
  destruct (name operation =? "id")%string.
  { intros [= <-]. eauto. }
  destruct (name operation =? "barrier")%string.
  { intros [= <-]. eauto. }
  destruct (str_in (name operation) ["CX"; "cx"]); [|discriminate].
  unfold bind at 1. unfold lift at 1.
  destruct (index (qubits operation) 0); [|discriminate].
  unfold bind at 1. unfold lift at 1.
  destruct (index (qubits operation) 1); [|discriminate]. apply Hgate.
Qed.

(** The loop keeps a register state whose kets all have [n] values. *)
Lemma for_each_register_size (n : nat) (ops : list QobjInstruction) (w w' : world) :
  (exists e, _statevector w = Some e
             /\ Forall (fun t : complex * ket => length t.2 = n) e) ->
  for_each ops run_operation w = (Returns tt, w') ->
  exists e, _statevector w' = Some e
            /\ Forall (fun t : complex * ket => length t.2 = n) e.
Proof.
  revert w. induction ops as [|o ops IH]; intros w Hw; simpl.
  - intros H. inversion H. subst. exact Hw.
  - unfold bind. destruct (run_operation o w) as [[[]|] w1] eqn:Ho; [|discriminate].
    apply IH. eapply run_operation_register_size; eassumption.
Qed.

(** ** Extraction of the amplitudes *)

Lemma lookup_map {A B} (f : A -> B) (l : list A) (i : nat) :
  map f l !! i = f <$> (l !! i).
Proof.
  revert i. induction l as [|x l IH]; intros [|i]; simpl; auto.
Qed.

Lemma represent_Qubit_column (q : ket) :
  represent_Qubit q
  = column (fun i => if (i =? definite_state q)%nat then 1%C else 0%C)
           (2 ^ length q).
Proof.
  unfold represent_Qubit, column.
  rewrite <- (map_map (fun i => if (i =? definite_state q)%nat then 1%C else 0%C)
                      (fun x => [x])).
  f_equal. pose proof (definite_state_lt q) as Hlt.
  apply list_eq. intros i. rewrite lookup_map.
  destruct (decide (i < 2 ^ length q)) as [Hi|Hi].
  - rewrite lookup_seq_lt by exact Hi. simpl.
    destruct (Nat.eqb_spec i (definite_state q)) as [->|Hne].
    + apply list_lookup_insert_eq. rewrite length_replicate. exact Hlt.
    + rewrite list_lookup_insert_ne by congruence.
      apply lookup_replicate_2, Hi.
  - rewrite lookup_seq_ge by lia. simpl.
    apply lookup_ge_None_2. rewrite length_insert, length_replicate. lia.
Qed.

Lemma scale_matrix_column (c : complex) (f : nat -> complex) (n : nat) :
  scale_matrix c (column f n) = column (fun i => (c * f i)%C) n.
Proof. unfold scale_matrix, column. rewrite map_map. reflexivity. Qed.

Lemma matrix_add_column (f g : nat -> complex) (n : nat) :
  matrix_add (column f n) (column g n)
  = Returns (column (fun i => (f i + g i)%C) n).
Proof.
  unfold matrix_add, column. rewrite !length_map, Nat.eqb_refl. simpl.
  generalize (seq 0 n). intros l.
  assert (Hshape : forallb (fun rs : list complex * list complex =>
                              (length rs.1 =? length rs.2)%nat)
                     (zip (map (fun i => [f i]) l) (map (fun i => [g i]) l)) = true).
  { induction l as [|i l IH]; simpl; [reflexivity | exact IH]. }
  rewrite Hshape. f_equal. clear Hshape.
  induction l as [|i l IH]; simpl; [reflexivity|]. f_equal. exact IH.
Qed.

Lemma represent_fold (n : nat) (e : qexpr) (f0 : nat -> complex) :
  Forall (fun t : complex * ket => length t.2 = n) e ->
  exists f,
    fold_left
      (fun result t =>
         r <~ result ;; matrix_add r (scale_matrix t.1 (represent_Qubit t.2)))
      e (Returns (column f0 (2 ^ n)))
    = Returns (column f (2 ^ n))
    /\ forall i, i < 2 ^ n -> f i = (f0 i + amplitude e (ket_of_index n i))%C.
Proof.
  revert f0. induction e as [|[c q] e IH]; intros f0 He.
  - exists f0. split; [reflexivity|]. intros i _. simpl.
    symmetry. apply Cplus_0_r.
  - apply Forall_cons in He as [Hq He]. simpl in Hq.
    cbn [fold_left obind fst snd].
    rewrite represent_Qubit_column, scale_matrix_column, Hq, matrix_add_column.
    destruct (IH (fun i => (f0 i + c * (if (i =? definite_state q)%nat
                                        then 1 else 0))%C) He)
      as (f & Hf & Hamp).
    exists f. split; [exact Hf|].
    intros i Hi. rewrite (Hamp i Hi). cbn [amplitude fold_right fst snd].
    fold (amplitude e (ket_of_index n i)).
    destruct (Nat.eqb_spec i (definite_state q)) as [Heq|Hne].
    + symmetry in Heq. apply (definite_state_ket_of_index n i q Hq Hi) in Heq.
      destruct (decide (q = ket_of_index n i)); [|contradiction].
      rewrite Cmult_1_r. apply Cplus_assoc.
    + destruct (decide (q = ket_of_index n i)) as [Heq|_].
      * apply (definite_state_ket_of_index n i q Hq Hi) in Heq. congruence.
      * rewrite Cmult_0_r, Cplus_0_r. reflexivity.
Qed.

Lemma represent_column (n : nat) (e : qexpr) (m : Matrix) :
  Forall (fun t : complex * ket => length t.2 = n) e ->
  represent e = Returns m ->
  exists f, m = column f (2 ^ n)
            /\ forall i, i < 2 ^ n -> f i = amplitude e (ket_of_index n i).
Proof.
  destruct e as [|[c q] e]; intros He; [discriminate|].
  apply Forall_cons in He as [Hq He]. simpl in Hq.
  unfold represent.
  rewrite represent_Qubit_column, scale_matrix_column, Hq.
  destruct (represent_fold n e
              (fun i => (c * (if (i =? definite_state q)%nat then 1 else 0))%C) He)
    as (f & Hf & Hamp).
  rewrite Hf. intros [= <-]. exists f. split; [reflexivity|].
  intros i Hi. rewrite (Hamp i Hi). cbn [amplitude fold_right fst snd].
  fold (amplitude e (ket_of_index n i)).
  destruct (Nat.eqb_spec i (definite_state q)) as [Heq|Hne].
  - symmetry in Heq. apply (definite_state_ket_of_index n i q Hq Hi) in Heq.
    destruct (decide (q = ket_of_index n i)); [|contradiction].
    rewrite Cmult_1_r. reflexivity.
  - destruct (decide (q = ket_of_index n i)) as [Heq|_].
    + apply (definite_state_ket_of_index n i q Hq Hi) in Heq. congruence.
    + rewrite Cmult_0_r. apply Cplus_0_l.
Qed.

Lemma omap_list_returns {A B} (g : A -> outcome B) (f : A -> B) (l : list A) :
  Forall (fun x => g x = Returns (f x)) l ->
  omap_list g l = Returns (map f l).
Proof.
  induction 1 as [|x l Hx _ IH]; simpl; [reflexivity|].
  rewrite Hx, IH. reflexivity.
Qed.

Lemma list_form_column (f : nat -> complex) (n : nat) :
  list_form (column f n) = Returns (map f (seq 0 n)).
Proof.
  unfold list_form, column. rewrite length_map, length_seq.
  apply omap_list_returns. apply Forall_forall. intros i Hi.
  apply list_elem_of_In, in_seq in Hi. unfold index.
  rewrite lookup_map, lookup_seq_lt by lia. reflexivity.
Qed.

(** C8: a circuit over [n] qubits that completes started from the all-zero
    ket over [n] qubits, and its amplitude vector has 2^n entries, entry
    [i] being the amplitude, in the final register state, of the ket whose
    bit pattern is [i] (qubit [b] holding bit [b] of [i]), for [i] from 0
    upwards. *)
Theorem amplitude_vector_of_completed_circuit
        (circuit : QobjExperiment) (w w' : world) (res : ExperimentResult) :
  run_circuit circuit w = (Returns res, w') ->
  let n := header_number_of_qubits circuit in
  _statevector (ground circuit w) = Some (Qubit (replicate n false))
  /\ for_each (instructions circuit) run_operation (ground circuit w)
     = (Returns tt, w')
  /\ exists final,
      _statevector w' = Some final
      /\ length (statevector res) = 2 ^ n
      /\ statevector res
         = map (fun i => amplitude final (ket_of_index n i)) (seq 0 (2 ^ n))
      /\ (forall i, i < 2 ^ n ->
            statevector res !! i = Some (amplitude final (ket_of_index n i)))
      /\ (forall i b, b < n -> qubit_at (ket_of_index n i) b = Nat.testbit i b).
Proof.
  intros Hrun n. split; [reflexivity|].
  assert (Hn : header_number_of_qubits circuit <> 0).
  { intros H0. rewrite (run_circuit_no_qubits _ _ H0) in Hrun. discriminate. }
  rewrite (run_circuit_loop _ _ Hn) in Hrun.
  destruct (for_each _ _ _) as [[[]|] w1] eqn:Hloop; [|discriminate].
  assert (Hinv : exists e, _statevector w1 = Some e
                   /\ Forall (fun t : complex * ket => length t.2 = n) e).
  { eapply for_each_register_size; [|exact Hloop].
    eexists. split; [reflexivity|]. repeat constructor.
    simpl. apply length_replicate. }
  destruct Hinv as (final & Hsv & Hall). rewrite Hsv in Hrun.
  destruct (represent final) as [m|] eqn:Hm; [|discriminate].
  destruct (represent_column n final m Hall Hm) as (f & -> & Hf).
  rewrite list_form_column in Hrun. inversion Hrun. subst. clear Hrun.
  split; [reflexivity|]. exists final. split; [exact Hsv|]. simpl.
  assert (Hmap : map f (seq 0 (2 ^ n))
                 = map (fun i => amplitude final (ket_of_index n i)) (seq 0 (2 ^ n))).
  { apply map_ext_in. intros i Hi. apply in_seq in Hi. apply Hf. lia. }
  split; [rewrite length_map, length_seq; reflexivity|].
  split; [exact Hmap|]. split.
  - intros i Hi. rewrite Hmap, lookup_map, lookup_seq_lt by exact Hi. reflexivity.
  - intros i b Hb. apply qubit_at_ket_of_index, Hb.
Qed.

Lemma amplitude_vector_of_completed_circuit_witness :
  exists res w',
    run_circuit circuit_cx w0 = (Returns res, w')
    /\ length (statevector res) = 2 ^ 2.
Proof.
  eexists. eexists. split.
  - reflexivity.
  - destruct (amplitude_vector_of_completed_circuit circuit_cx w0 _ _ eq_refl)
      as (_ & _ & final & _ & Hlen & _).
    exact Hlen.
Defined.

(** ** Fixed gates *)

Lemma Cexp_minus_quarter_turn :
  Cexp (- Ci * RtoC PI * RtoC (/ 4))%C = ((sqrt 2 / 2)%R, (- (sqrt 2 / 2))%R).
Proof.
  unfold Cexp, Cmult, Copp, Ci, RtoC. simpl.
  match goal with |- context [exp ?a] => replace a with 0%R by lra end.
  match goal with |- context [cos ?b] => replace b with (- (PI / 4))%R by lra end.
  rewrite exp_0, cos_neg, sin_neg, cos_PI4, sin_PI4.
  pose proof inv_sqrt2 as H. f_equal; lra.
Qed.

(** C6: the gate factory maps SDG and TDG to the one-qubit gates of the
    classes [SDGGate] and [TDGGate], whose matrices are diag(1, -i) and
    diag(1, e^(-i pi/4)), the latter entry being sqrt(2)/2 - i sqrt(2)/2. *)
Theorem sdg_tdg_matrices (q : nat) (ps : option loc) (h : gmap loc (list R)) :
  get_sym_op "SDG" [q] ps h = (Returns (OneQubitGate SDGGate [q]), h)
  /\ get_target_matrix (OneQubitGate SDGGate [q])
     = Some [[1; 0]; [0; - Ci]]%C
  /\ (- Ci)%C = (0%R, (-1)%R)
  /\ get_sym_op "TDG" [q] ps h = (Returns (OneQubitGate TDGGate [q]), h)
  /\ get_target_matrix (OneQubitGate TDGGate [q])
     = Some [[1; 0]; [0; Cexp (- Ci * RtoC PI * RtoC (/ 4))]]%C
  /\ Cexp (- Ci * RtoC PI * RtoC (/ 4))%C
     = ((sqrt 2 / 2)%R, (- (sqrt 2 / 2))%R)
  /\ Cexp (- Ci * RtoC PI * RtoC (/ 4))%C
     = Cconj (Cexp (Ci * RtoC PI * RtoC (/ 4))%C).
Proof.
  assert (Hq : forall cls, new_gate cls [q] = Returns (OneQubitGate cls [q])).
  { intros cls. apply new_gate_NoDup, NoDup_singleton. }
  split.
  { unfold get_sym_op, the_gate. cbn [String.eqb Ascii.eqb Bool.eqb].
    rewrite Hq. reflexivity. }
  split; [reflexivity|]. split; [complex_eq|]. split.
  { unfold get_sym_op, the_gate. cbn [String.eqb Ascii.eqb Bool.eqb].
    rewrite Hq. reflexivity. }
  split; [reflexivity|]. split; [apply Cexp_minus_quarter_turn|].
  unfold Cexp, Cconj, Cmult, Copp, Ci, RtoC. simpl.
  match goal with |- context [sin ?b] => replace b with (- (PI / 4))%R by lra end.
  match goal with |- (_, _) = (exp ?a * cos ?b, _)%R =>
    replace b with (PI / 4)%R by lra; replace a with 0%R by lra end.
  match goal with |- context [exp ?a] => replace a with 0%R by lra end.
  rewrite cos_neg, sin_neg. f_equal. lra.
Qed.

(** ** The Bell state *)

(** C1 (as stated) fails: the engine does not know an instruction named H
    (nor h); the run of the circuit H, CX stops at its first instruction
    with the unrecognized-operation error. *)
Lemma engine_rejects_H_instruction :
  _validate [circuit_H_CX] = Returns tt
  /\ run_circuit circuit_H_CX w0
  = (Raises (SympySimulatorError
               (unrecognized_operation (self_name w0) "H")),
     ground circuit_H_CX w0)
  /\ run_circuit circuit_h_cx w0
     = (Raises (SympySimulatorError
                  (unrecognized_operation (self_name w0) "h")),
        ground circuit_h_cx w0).
Proof. repeat split. Qed.

(** C1 (as amended): the gate factory builds the Hadamard gate for H on
    qubit 0 and the controlled-NOT for CX on qubits (0, 1); these two
    operators applied in this order to the all-zero ket of two qubits give
    the amplitude vector [sqrt(2)/2, 0, 0, sqrt(2)/2].  The engine itself
    refuses an instruction named H. *)
Theorem bell_state_from_factory_gates (h : gmap loc (list R)) :
  get_sym_op "H" [0] None h = (Returns (OneQubitGate HadamardGate [0]), h)
  /\ get_sym_op "CX" [0; 1] None h = (Returns (CNotGate [0; 1]), h)
  /\ (e1 <~ qapply (OneQubitGate HadamardGate [0]) (Qubit (replicate 2 false)) ;;
      e2 <~ qapply (CNotGate [0; 1]) e1 ;;
      m <~ represent e2 ;;
      list_form m)
     = Returns [RtoC (sqrt 2 / 2); 0%C; 0%C; RtoC (sqrt 2 / 2)]
  /\ forall w,
      (run_circuit circuit_H_CX w).1
      = Raises (SympySimulatorError (unrecognized_operation (self_name w) "H")).
Proof.
  split; [reflexivity|]. split; [reflexivity|]. split; [|reflexivity].
  pose proof inv_sqrt2 as Hs.
  cbv - [Rplus Rmult Rminus Ropp Rinv Rdiv sqrt IZR].
  amplitudes.
Qed.

(** The documented example, in the basis gates the backend declares: the
    circuit u2(0, pi) on qubit 0, cx on qubits (0, 1) runs through the
    engine to the Bell amplitudes, when no product comes from the cache. *)
Lemma bell_state_in_basis_gates :
  (run_circuit circuit_u2_cx w_u2).1
  = Returns {| statevector := [RtoC (sqrt 2 / 2); 0%C; 0%C; RtoC (sqrt 2 / 2)];
               success := true; shots := 1; status := "DONE";
               result_header_name := "bell" |}.
Proof.
  rewrite run_circuit_loop by (simpl; lia).
  change (instructions circuit_u2_cx)
    with [instr "u2" [0] (Some 7) false; instr "cx" [0; 1] None false].
  cbn [for_each]. unfold bind.
  rewrite (run_operation_u (instr "u2" [0] (Some 7) false) _ 0 [] eq_refl eq_refl eq_refl).
  change (get_sym_op _ [0] _ _)
    with (get_sym_op "U2" [0] (Some 7) ({[ 7 := [0%R; PI] ]} : gmap loc (list R))).
  rewrite (u_family_gate_eq "U2" [0] 7 {[ 7 := [0%R; PI] ]} [0%R; PI] eq_refl
             (lookup_singleton_eq _ _)).
  destruct (decide (1 <= length [0%R; PI] <= 3)) as [_|Hn]; [|simpl in Hn; lia].
  change (u_family_gate "U2" [0] (spec_parameters [0%R; PI]))
    with (Returns (OneQubitGate
                     (UGateGeneric (Some (compute_ugate_matrix [(PI / 2)%R; 0%R; PI])))
                     [0])).
  change (_statevector (ground circuit_u2_cx w_u2))
    with (Some (Qubit (replicate 2 false))).
  cbv iota beta.
  rewrite apply_to_UGate.
  cbn [mul_cache set_objects ground w_u2 hd tl objects self_name
       _number_of_qubits _statevector].
  match goal with
  | |- context [qapply_cached ?c ?g ?s] =>
      let r := eval cbv - [Rplus Rmult Rminus Ropp Rinv Rdiv sqrt IZR cos sin exp PI]
               in (qapply_cached c g s) in
      change (qapply_cached c g s) with r
  end.
  cbv iota beta.
  rewrite (run_operation_cx (instr "cx" [0; 1] None false) _ 0 1 [] eq_refl eq_refl eq_refl).
  rewrite get_sym_op_CX by lia.
  cbv iota beta. cbn [_statevector]. rewrite apply_to_CNOT.
  match goal with
  | |- context [qapply ?g ?s] =>
      let r := eval cbv - [Rplus Rmult Rminus Ropp Rinv Rdiv sqrt IZR cos sin exp PI]
               in (qapply g s) in
      change (qapply g s) with r
  end.
  cbv iota beta. unfold ret. cbn [_statevector].
  match goal with
  | |- context [represent ?s] =>
      let r := eval cbv - [Rplus Rmult Rminus Ropp Rinv Rdiv sqrt IZR cos sin exp PI]
               in (represent s) in
      change (represent s) with r
  end.
  cbv iota beta.
  match goal with
  | |- context [list_form ?s] =>
      let r := eval cbv - [Rplus Rmult Rminus Ropp Rinv Rdiv sqrt IZR cos sin exp PI]
               in (list_form s) in
      change (list_form s) with r
  end.
  cbv iota beta. cbn [fst].
  assert (Hx : cos (PI / 2 / 2) = (sqrt 2 / 2)%R).
  { replace (PI / 2 / 2)%R with (PI / 4)%R by lra. rewrite cos_PI4.
    unfold Rdiv. rewrite Rmult_1_l. exact inv_sqrt2. }
  assert (Hy : sin (PI / 2 / 2) = (sqrt 2 / 2)%R).
  { replace (PI / 2 / 2)%R with (PI / 4)%R by lra. rewrite sin_PI4.
    unfold Rdiv. rewrite Rmult_1_l. exact inv_sqrt2. }
  assert (HE : exp (0 * 0 - 1 * 0) = 1%R).
  { replace (0 * 0 - 1 * 0)%R with 0%R by lra. apply exp_0. }
  assert (Hc : cos (0 * 0 + 1 * 0) = 1%R).
  { replace (0 * 0 + 1 * 0)%R with 0%R by lra. apply cos_0. }
  assert (Hs : sin (0 * 0 + 1 * 0) = 0%R).
  { replace (0 * 0 + 1 * 0)%R with 0%R by lra. apply sin_0. }
  rewrite Hx, Hy, HE, Hc, Hs.
  apply f_equal. apply (f_equal (fun v => {| statevector := v; success := true;
                                             shots := 1; status := "DONE";
                                             result_header_name := "bell" |})).
  unfold RtoC. amplitudes.
Qed.

(** ** More on the gate factory *)

Lemma the_gate_fixed (name : string) (qid_tuple : list nat) :
  str_in name fixed_gate_names = true ->
  (exists g, the_gate name qid_tuple = Returns (Some g))
  \/ (exists e, the_gate name qid_tuple = Raises e /\ kind_of e = None).
Proof.
  intros H. apply str_in_In in H. unfold fixed_gate_names in H. simpl in H.
  repeat (destruct H as [<-|H]); try contradiction;
    unfold the_gate, new_gate, CNOT, new_CGate, validate_targets_controls;
    simpl;
    repeat match goal with
           | |- context [index ?l ?i] =>
               let Hi := fresh "Hi" in
               destruct (index l i) eqn:Hi; simpl;
               [| apply index_raises in Hi; subst; right; eauto]
           | |- context [decide ?P] => destruct (decide P); simpl
           end;
    eauto.
Qed.

Lemma the_gate_unknown (name : string) (qid_tuple : list nat) :
  str_in name fixed_gate_names = false ->
  the_gate name qid_tuple = Returns None.
Proof.
  unfold str_in, fixed_gate_names. cbn [existsb]. intros H.
  repeat (apply orb_false_iff in H as [? H]).
  unfold the_gate.
  repeat match goal with Heq : (_ =? _)%string = false |- _ => rewrite Heq; clear Heq end.
  reflexivity.
Qed.

Lemma get_sym_op_dangling (name : string) (qid_tuple : list nat) (l : loc)
      (h : gmap loc (list R)) :
  startswith name "U" || startswith name "CU" = true ->
  h !! l = None ->
  get_sym_op name qid_tuple (Some l) h
  = (Raises (SympySimulatorError u_gate_parameter_count), h).
Proof.
  intros Hn Hl. unfold get_sym_op. run_monad.
  rewrite (the_gate_u_family _ _ Hn), Hn. unfold read. rewrite Hl. reflexivity.
Qed.

(** The store after a call of the gate factory: as before, or with the list
    passed as parameters normalised. *)
Lemma get_sym_op_store (name : string) (qid_tuple : list nat) (params : option loc)
      (h : gmap loc (list R)) :
  (get_sym_op name qid_tuple params h).2 = h
  \/ exists l ps, params = Some l /\ h !! l = Some ps
                  /\ (get_sym_op name qid_tuple params h).2
                     = <[l := spec_parameters ps]> h.
Proof.
  destruct (startswith name "U" || startswith name "CU") eqn:Hn.
  - destruct params as [l|].
    + destruct (h !! l) as [ps|] eqn:Hl.
      * rewrite (u_family_gate_eq _ _ _ _ _ Hn Hl).
        destruct (decide _); simpl; [|auto]. right. exists l, ps. auto.
      * rewrite (get_sym_op_dangling _ _ _ _ Hn Hl). auto.
    + rewrite (get_sym_op_no_params _ _ _ Hn). auto.
  - left. unfold get_sym_op. run_monad.
    destruct (the_gate name qid_tuple) as [[g|]|e]; try reflexivity.
    rewrite Hn. reflexivity.
Qed.



(** X2: a name that is none of the fixed names and begins neither with U
    nor with CU is refused with the error 'Not supported', whatever the
    qubits and parameters, and the store is left as it is. *)
Theorem unknown_gate_not_supported
        (name : string) (qid_tuple : list nat) (params : option loc)
        (h : gmap loc (list R)) :
  str_in name fixed_gate_names = false ->
  startswith name "U" = false ->
  startswith name "CU" = false ->
  get_sym_op name qid_tuple params h
  = (Raises (SympySimulatorError not_supported), h).
Proof.
  intros Hf HU HCU. unfold get_sym_op. run_monad.
  rewrite (the_gate_unknown _ _ Hf), HU, HCU. reflexivity.
Qed.

Lemma unknown_gate_not_supported_witness :
  str_in "SWAP" fixed_gate_names = false
  /\ startswith "SWAP" "U" = false
  /\ startswith "SWAP" "CU" = false
  /\ get_sym_op "SWAP" [0; 1] None ∅
     = (Raises (SympySimulatorError not_supported), ∅).
Proof.
  repeat (split; [reflexivity|]).
  apply (unknown_gate_not_supported "SWAP" [0; 1] None ∅); reflexivity.
Defined.

Lemma lower_case_first (c d : ascii) :
  97 <= nat_of_ascii c <= 122 -> nat_of_ascii d < 97 -> Ascii.eqb c d = false.
Proof.
  intros Hc Hd. destruct (Ascii.eqb_spec c d) as [->|]; [exfalso; lia | reflexivity].
Qed.

(** X3: the gate factory matches names as they are written: a name that
    begins with a lower-case letter is refused with 'Not supported', so the
    lower-case names of instructions reach a gate only through the
    upper-casing done by the loop of [run_circuit]. *)
Theorem gate_names_are_case_sensitive
        (c : ascii) (s : string) (qid_tuple : list nat) (params : option loc)
        (h : gmap loc (list R)) :
  97 <= nat_of_ascii c <= 122 ->
  get_sym_op (String c s) qid_tuple params h
  = (Raises (SympySimulatorError not_supported), h).
Proof.
  intros Hc.
  assert (Hne : forall d, nat_of_ascii d < 97 -> Ascii.eqb c d = false).
  { intros d Hd. apply lower_case_first; assumption. }
  assert (Hne' : forall d, nat_of_ascii d < 97 -> Ascii.eqb d c = false).
  { intros d Hd. rewrite Ascii.eqb_sym. apply Hne, Hd. }
  assert (Hf : str_in (String c s) fixed_gate_names = false).
  { unfold str_in, fixed_gate_names. cbn [existsb String.eqb].
    rewrite !Hne by (cbv; lia). reflexivity. }
  assert (HU : startswith (String c s) "U" = false).
  { cbn [startswith]. rewrite Hne' by (cbv; lia). reflexivity. }
  assert (HCU : startswith (String c s) "CU" = false).
  { cbn [startswith]. rewrite Hne' by (cbv; lia). reflexivity. }
  revert Hf HU HCU. generalize (String c s). intros nm Hf HU HCU.
  unfold get_sym_op. run_monad.
  rewrite (the_gate_unknown _ _ Hf), HU, HCU. reflexivity.
Qed.

Lemma gate_names_are_case_sensitive_witness :
  97 <= nat_of_ascii "h" <= 122
  /\ get_sym_op "h" [0] None ∅ = (Raises (SympySimulatorError not_supported), ∅).
Proof.
  assert (Hc : 97 <= nat_of_ascii "h" <= 122) by (vm_compute; lia).
  split; [exact Hc|].
  apply (gate_names_are_case_sensitive "h" EmptyString [0] None ∅ Hc).
Defined.

(** What a call of the gate factory writes. *)
Lemma get_sym_op_writes
      (name : string) (qid_tuple : list nat) (params : option loc)
      (h : gmap loc (list R)) :
  (forall l, params <> Some l ->
             (get_sym_op name qid_tuple params h).2 !! l = h !! l)
  /\ same_parameters (get_sym_op name qid_tuple params h).2 h.
Proof.
  destruct (get_sym_op_store name qid_tuple params h)
    as [->|(l & ps & -> & Hl & ->)].
  - split; [reflexivity | intros l; reflexivity].
  - split.
    + intros l' Hne. apply lookup_insert_ne. congruence.
    + intros l'. destruct (decide (l = l')) as [<-|Hne].
      * rewrite lookup_insert_eq, Hl. simpl. rewrite spec_parameters_idem.
        reflexivity.
      * rewrite lookup_insert_ne by exact Hne. reflexivity.
Qed.

(** X4: a call of the gate factory writes to no list object but the one
    passed as parameters, and leaves every list with the same parameters up
    to normalisation. *)
Theorem get_sym_op_frame
        (name : string) (qid_tuple : list nat) (params : option loc)
        (h : gmap loc (list R)) :
  (forall l, params <> Some l ->
             (get_sym_op name qid_tuple params h).2 !! l = h !! l)
  /\ same_parameters (get_sym_op name qid_tuple params h).2 h.
Proof. apply get_sym_op_writes. Qed.

Lemma get_sym_op_frame_witness :
  Some 7 <> Some 8
  /\ (get_sym_op "U2" [0] (Some 7) (objects w_u2)).2 !! 8 = objects w_u2 !! 8.
Proof.
  assert (H : @Some loc 7 <> Some 8) by discriminate.
  split; [exact H|].
  destruct (get_sym_op_frame "U2" [0] (Some 7) (objects w_u2)) as [Hf _].
  exact (Hf 8 H).
Defined.

(** X5: the controlled fixed gates take their qubits by position: CY and
    CZ need two and CCX, CCNOT, TOFFOLI three, and raise an index error on
    a shorter tuple; given enough distinct qubits they return the controlled
    gate on the first positions, whatever follows in the tuple. *)
Theorem controlled_fixed_gates_take_qubits_by_position
        (name : string) (qid_tuple : list nat) (params : option loc)
        (h : gmap loc (list R)) :
  (str_in name ["CY"; "CZ"] = true ->
   (length qid_tuple < 2 ->
    get_sym_op name qid_tuple params h = (Raises IndexError, h))
   /\ (forall c t rest, qid_tuple = c :: t :: rest -> c <> t ->
       get_sym_op name qid_tuple params h
       = (Returns (CGate [c] (OneQubitGate
                                (if (name =? "CY")%string then YGate else ZGate)
                                [t])), h)))
  /\ (str_in name ["CCX"; "CCNOT"; "TOFFOLI"] = true ->
      (length qid_tuple < 3 ->
       get_sym_op name qid_tuple params h = (Raises IndexError, h))
      /\ (forall c0 c1 t rest, qid_tuple = c0 :: c1 :: t :: rest ->
          NoDup [c0; c1; t] ->
          get_sym_op name qid_tuple params h
          = (Returns (CGate [c0; c1] (OneQubitGate XGate [t])), h))).
Proof.
  split; intros Hn; apply str_in_In in Hn; simpl in Hn.
  - destruct Hn as [<-|[<-|[]]]; split.
    + intros Hlen. destruct qid_tuple as [|c [|t rest]]; simpl in Hlen;
        try lia; reflexivity.
    + intros c t rest -> Hct. unfold get_sym_op, the_gate. run_monad.
      unfold new_gate, new_CGate, validate_targets_controls. simpl.
      destruct (decide (NoDup [t])) as [|Hd]; simpl;
        [|exfalso; apply Hd, NoDup_singleton].
      destruct (decide (NoDup [c; t])) as [|Hd]; simpl; [reflexivity|].
      exfalso. apply Hd, NoDup_cons. split; [|apply NoDup_singleton].
      intros Hin. apply list_elem_of_singleton in Hin. contradiction.
    + intros Hlen. destruct qid_tuple as [|c [|t rest]]; simpl in Hlen;
        try lia; reflexivity.
    + intros c t rest -> Hct. unfold get_sym_op, the_gate. run_monad.
      unfold new_gate, new_CGate, validate_targets_controls. simpl.
      destruct (decide (NoDup [t])) as [|Hd]; simpl;
        [|exfalso; apply Hd, NoDup_singleton].
      destruct (decide (NoDup [c; t])) as [|Hd]; simpl; [reflexivity|].
      exfalso. apply Hd, NoDup_cons. split; [|apply NoDup_singleton].
      intros Hin. apply list_elem_of_singleton in Hin. contradiction.
  - assert (Hshort : forall n, In n ["CCX"; "CCNOT"; "TOFFOLI"] ->
              length qid_tuple < 3 ->
              get_sym_op n qid_tuple params h = (Raises IndexError, h)).
    { intros n Hin Hlen. simpl in Hin.
      destruct Hin as [<-|[<-|[<-|[]]]];
        destruct qid_tuple as [|c0 [|c1 [|t rest]]]; simpl in Hlen;
        try lia; reflexivity. }
    assert (Hlong : forall n c0 c1 t rest, In n ["CCX"; "CCNOT"; "TOFFOLI"] ->
              NoDup [c0; c1; t] ->
              get_sym_op n (c0 :: c1 :: t :: rest) params h
              = (Returns (CGate [c0; c1] (OneQubitGate XGate [t])), h)).
    { intros n c0 c1 t rest Hin Hd. simpl in Hin.
      destruct Hin as [<-|[<-|[<-|[]]]];
        unfold get_sym_op, the_gate; run_monad;
        unfold new_gate, new_CGate, validate_targets_controls; simpl;
        (destruct (decide (NoDup [t])) as [|Hd1]; simpl;
         [|exfalso; apply Hd1, NoDup_singleton]);
        (destruct (decide (NoDup [c0; c1; t])); simpl;
         [reflexivity | contradiction]). }
    split.
    + apply Hshort. simpl. tauto.
    + intros c0 c1 t rest -> Hd. apply Hlong; [simpl; tauto | exact Hd].
Qed.

Lemma controlled_fixed_gates_take_qubits_by_position_witness :
  str_in "CCX" ["CCX"; "CCNOT"; "TOFFOLI"] = true
  /\ length [0; 1] < 3
  /\ get_sym_op "CCX" [0; 1] None ∅ = (Raises IndexError, ∅)
  /\ str_in "CZ" ["CY"; "CZ"] = true
  /\ 0 <> 1
  /\ get_sym_op "CZ" [0; 1; 2] None ∅
     = (Returns (CGate [0] (OneQubitGate ZGate [1])), ∅).
Proof.
  assert (H3 : length [0; 1] < 3) by (simpl; lia).
  assert (H01 : 0 <> 1) by lia.
  split; [reflexivity|]. split; [exact H3|]. split.
  - destruct (controlled_fixed_gates_take_qubits_by_position "CCX" [0; 1] None ∅)
      as (_ & Hccx).
    destruct (Hccx eq_refl) as (Hshort & _). exact (Hshort H3).
  - split; [reflexivity|]. split; [exact H01|].
    destruct (controlled_fixed_gates_take_qubits_by_position "CZ" [0; 1; 2] None ∅)
      as (Hcz & _).
    destruct (Hcz eq_refl) as (_ & Hlong). exact (Hlong 0 1 [2] eq_refl H01).
Defined.

(** ** Edge cases of the loop *)

(** X6: an instruction of the U family without any qubit, or a CX
    instruction with fewer than two, raises an index error before the gate
    factory is called; the store, parameter lists included, is left as it
    is. *)
Theorem instruction_with_too_few_qubits (operation : QobjInstruction) (w : world) :
  refused operation = false ->
  (str_in (name operation) ["U"; "u1"; "u2"; "u3"] = true ->
   qubits operation = [] ->
   run_operation operation w = (Raises IndexError, w))
  /\ (str_in (name operation) ["CX"; "cx"] = true ->
      length (qubits operation) < 2 ->
      run_operation operation w = (Raises IndexError, w)).
Proof.
  unfold refused. intros Hr. apply orb_false_iff in Hr as [Hc Hm]. split.
  - intros Hu Hq. unfold run_operation. rewrite Hc, Hm, Hu, Hq. reflexivity.
  - intros Hu Hlen.
    assert (Hn : str_in (name operation) ["U"; "u1"; "u2"; "u3"] = false
                 /\ (name operation =? "id")%string = false
                 /\ (name operation =? "barrier")%string = false).
    { apply str_in_In in Hu. simpl in Hu.
      destruct Hu as [<-|[<-|[]]]; repeat split; reflexivity. }
    destruct Hn as (Hn1 & Hn2 & Hn3).
    unfold run_operation. rewrite Hc, Hm, Hn1, Hn2, Hn3, Hu.
    destruct (qubits operation) as [|q0 [|q1 rest]]; simpl in Hlen;
      try lia; reflexivity.
Qed.

Lemma instruction_with_too_few_qubits_witness :
  refused (instr "cx" [0] None false) = false
  /\ str_in (name (instr "cx" [0] None false)) ["CX"; "cx"] = true
  /\ length (qubits (instr "cx" [0] None false)) < 2
  /\ run_operation (instr "cx" [0] None false) w0 = (Raises IndexError, w0).
Proof.
  assert (Hlen : length (qubits (instr "cx" [0] None false)) < 2) by (simpl; lia).
  split; [reflexivity|]. split; [reflexivity|]. split; [exact Hlen|].
  destruct (instruction_with_too_few_qubits (instr "cx" [0] None false) w0 eq_refl)
    as (_ & Hcx).
  exact (Hcx eq_refl Hlen).
Defined.

(** X7: a CX instruction whose control and target are the same qubit is
    refused when its gate is built (sympy's duplicate-qubit error), and one
    that names a qubit outside the register is refused when the gate is
    applied (sympy's minimum-qubits error); in both cases the store is left
    as it is. *)
Theorem cx_on_bad_qubits (operation : QobjInstruction) (w : world)
        (q0 q1 : nat) (rest : list nat) :
  refused operation = false ->
  str_in (name operation) ["CX"; "cx"] = true ->
  qubits operation = q0 :: q1 :: rest ->
  (q0 = q1 ->
   run_operation operation w
   = (Raises (QuantumError "Target/control qubits in a gate cannot be duplicated"), w))
  /\ (q0 <> q1 ->
      forall c q e,
        _statevector w = Some ((c, q) :: e) ->
        length q <= Nat.max q0 q1 ->
        exists msg, run_operation operation w = (Raises (QuantumError msg), w)).
Proof.
  intros Hr Hu Hq. rewrite (run_operation_cx _ _ _ _ _ Hr Hu Hq). split.
  - intros <-. unfold get_sym_op, the_gate, CNOT, validate_targets_controls.
    run_monad. destruct (decide (NoDup [q0; q0])) as [Hd|].
    + apply NoDup_cons in Hd as [Hd _]. exfalso. apply Hd. left.
    + simpl. rewrite set_objects_id. reflexivity.
  - intros Hne c q e Hsv Hlen. rewrite (get_sym_op_CX _ _ _ _ Hne), Hsv.
    unfold apply_to, qapply, apply_operator_Qubit. simpl.
    assert (Hlt : (length q <? S (Nat.max q0 (Nat.max q1 0)))%nat = true).
    { apply Nat.ltb_lt. lia. }
    rewrite Hlt. simpl. rewrite set_objects_id. eauto.
Qed.

Lemma cx_on_bad_qubits_witness :
  refused (instr "cx" [0; 0] None false) = false
  /\ str_in (name (instr "cx" [0; 0] None false)) ["CX"; "cx"] = true
  /\ run_operation (instr "cx" [0; 0] None false) (ground circuit_cx w0)
     = (Raises (QuantumError "Target/control qubits in a gate cannot be duplicated"),
        ground circuit_cx w0)
  /\ refused (instr "cx" [0; 2] None false) = false
  /\ 0 <> 2
  /\ length (replicate 2 false) <= Nat.max 0 2
  /\ exists msg,
      run_operation (instr "cx" [0; 2] None false) (ground circuit_cx w0)
      = (Raises (QuantumError msg), ground circuit_cx w0).
Proof.
  assert (H02 : 0 <> 2) by lia.
  assert (Hlen : length (replicate 2 false) <= Nat.max 0 2) by (simpl; lia).
  split; [reflexivity|]. split; [reflexivity|]. split.
  - destruct (cx_on_bad_qubits (instr "cx" [0; 0] None false) (ground circuit_cx w0)
                0 0 [] eq_refl eq_refl eq_refl) as (Hdup & _).
    exact (Hdup eq_refl).
  - split; [reflexivity|]. split; [exact H02|]. split; [exact Hlen|].
    destruct (cx_on_bad_qubits (instr "cx" [0; 2] None false) (ground circuit_cx w0)
                0 2 [] eq_refl eq_refl eq_refl) as (_ & Hout).
    exact (Hout H02 1%C (replicate 2 false) [] eq_refl Hlen).
Defined.

Lemma cached_gate_UGate (c : product_cache) (m : option Matrix) (label : list nat)
      (q : ket) :
  exists m', cached_gate c (OneQubitGate (UGateGeneric m) label) q
             = OneQubitGate (UGateGeneric m') label.
Proof. unfold cached_gate. destruct (c label q); eauto. Qed.

(** X8: an instruction of the U family on a qubit outside the register
    fails when its gate is applied, after the gate factory has already
    rewritten its parameter list: the register state is as before, the
    list is normalised. *)
Theorem u_gate_outside_register (operation : QobjInstruction) (w : world)
        (q0 : nat) (rest : list nat) (l : loc) (ps : list R)
        (c : complex) (q : ket) (e : qexpr) :
  refused operation = false ->
  str_in (name operation) ["U"; "u1"; "u2"; "u3"] = true ->
  qubits operation = q0 :: rest ->
  params operation = Some l ->
  objects w !! l = Some ps ->
  1 <= length ps <= 3 ->
  _statevector w = Some ((c, q) :: e) ->
  length q <= q0 ->
  exists msg,
    run_operation operation w
    = (Raises (QuantumError msg),
       {| objects := <[l := spec_parameters ps]> (objects w);
          self_name := self_name w;
          _number_of_qubits := _number_of_qubits w;
          _statevector := _statevector w;
          mul_cache := tl (mul_cache w) |}).
Proof.
  intros Hr Hu Hq Hp Hl Hlen Hsv Hout.
  rewrite (run_operation_u _ _ _ _ Hr Hu Hq), Hp.
  rewrite (u_family_gate_eq (upper (name operation)) [q0] l (objects w) ps);
    [| rewrite (u_names_upper _ Hu); reflexivity | exact Hl].
  destruct (decide (1 <= length ps <= 3)); [|contradiction].
  unfold u_family_gate. rewrite (new_gate_NoDup _ [q0]) by apply NoDup_singleton.
  cbn [obind set_target_matrix]. rewrite (u_names_upper _ Hu), Hsv.
  rewrite apply_to_UGate. cbn [qapply_cached].
  destruct (cached_gate_UGate (hd nothing_cached (mul_cache (set_objects w
              (<[l := spec_parameters ps]> (objects w)))))
              (Some (compute_ugate_matrix (spec_parameters ps))) [q0] q)
    as (m' & ->).
  unfold apply_operator_Qubit. cbn [min_qubits list_max fold_right obind].
  assert (Hlt : (length q <? S (Nat.max q0 0))%nat = true).
  { apply Nat.ltb_lt. lia. }
  rewrite Hlt. cbn [obind set_objects objects self_name _number_of_qubits
                    _statevector mul_cache].
  rewrite Hsv. eauto.
Qed.

(** ** What a run depends on and what it writes *)

Lemma spec_parameters_valid (ps : list R) :
  1 <= length ps <= 3 <-> length (spec_parameters ps) = 3.
Proof.
  destruct ps as [|a [|b [|c [|d ps]]]]; simpl; lia.
Qed.

Lemma same_parameters_refl (h : gmap loc (list R)) : same_parameters h h.
Proof. intros l. reflexivity. Qed.

Lemma same_parameters_sym (h1 h2 : gmap loc (list R)) :
  same_parameters h1 h2 -> same_parameters h2 h1.
Proof. intros H l. symmetry. apply H. Qed.

Lemma same_parameters_trans (h1 h2 h3 : gmap loc (list R)) :
  same_parameters h1 h2 -> same_parameters h2 h3 -> same_parameters h1 h3.
Proof. intros H12 H23 l. rewrite H12. apply H23. Qed.

(** The outcome of the gate factory depends on the store only through the
    normalised parameters. *)
Lemma get_sym_op_same_parameters (name : string) (qid_tuple : list nat)
      (params : option loc) (h1 h2 : gmap loc (list R)) :
  same_parameters h1 h2 ->
  (get_sym_op name qid_tuple params h1).1 = (get_sym_op name qid_tuple params h2).1
  /\ same_parameters (get_sym_op name qid_tuple params h1).2
                     (get_sym_op name qid_tuple params h2).2.
Proof.
  intros Hs. split.
  2:{ eapply same_parameters_trans; [apply get_sym_op_writes|].
      eapply same_parameters_trans; [exact Hs|].
      apply same_parameters_sym, get_sym_op_writes. }
  destruct (startswith name "U" || startswith name "CU") eqn:Hn.
  - destruct params as [l|].
    + specialize (Hs l).
      destruct (h1 !! l) as [ps1|] eqn:H1, (h2 !! l) as [ps2|] eqn:H2;
        simpl in Hs; try discriminate.
      * inversion Hs as [Hps].
        rewrite (u_family_gate_eq _ _ _ _ _ Hn H1), (u_family_gate_eq _ _ _ _ _ Hn H2).
        destruct (decide (1 <= length ps1 <= 3)) as [V1|V1],
                 (decide (1 <= length ps2 <= 3)) as [V2|V2]; simpl.
        -- rewrite Hps. reflexivity.
        -- exfalso. apply V2. apply spec_parameters_valid. rewrite <- Hps.
           apply spec_parameters_valid, V1.
        -- exfalso. apply V1. apply spec_parameters_valid. rewrite Hps.
           apply spec_parameters_valid, V2.
        -- reflexivity.
      * rewrite !get_sym_op_dangling by assumption. reflexivity.
    + rewrite !get_sym_op_no_params by assumption. reflexivity.
  - unfold get_sym_op. run_monad.
    destruct (the_gate name qid_tuple) as [[g|]|e]; try reflexivity.
    rewrite Hn. reflexivity.
Qed.

(** What forming and applying a product reads and writes of the store. *)
Lemma apply_to_world (g : gate) (sv : option qexpr) (w : world) :
  objects (apply_to g sv w).2 = objects w
  /\ self_name (apply_to g sv w).2 = self_name w
  /\ _number_of_qubits (apply_to g sv w).2 = _number_of_qubits w
  /\ _statevector (apply_to g sv w).2 = _statevector w.
Proof.
  unfold apply_to. destruct sv as [e|]; [|repeat split].
  destruct g as [[| | | | | | | | |m] label|label|cs g];
    unfold next_product_cache; run_monad; try (repeat split; fail);
    destruct (qapply_cached _ _ _); repeat split.
Qed.

Lemma apply_to_same_cache (g : gate) (sv : option qexpr) (w1 w2 : world) :
  mul_cache w1 = mul_cache w2 ->
  (apply_to g sv w1).1 = (apply_to g sv w2).1
  /\ mul_cache (apply_to g sv w1).2 = mul_cache (apply_to g sv w2).2.
Proof.
  intros Hc. unfold apply_to. destruct sv as [e|]; [|split; [reflexivity|exact Hc]].
  destruct g as [[| | | | | | | | |m] label|label|cs g];
    unfold next_product_cache; run_monad; try (split; [reflexivity|exact Hc]);
    rewrite Hc; destruct (qapply_cached _ _ _); split; reflexivity.
Qed.

(** One instruction, run in two stores that agree on the name of the
    backend, the register state, the normalised parameters and the cache. *)
Lemma run_operation_same_parameters (operation : QobjInstruction) (w1 w2 : world) :
  self_name w1 = self_name w2 ->
  _statevector w1 = _statevector w2 ->
  same_parameters (objects w1) (objects w2) ->
  mul_cache w1 = mul_cache w2 ->
  (run_operation operation w1).1 = (run_operation operation w2).1
  /\ self_name (run_operation operation w1).2 = self_name (run_operation operation w2).2
  /\ _statevector (run_operation operation w1).2
     = _statevector (run_operation operation w2).2
  /\ same_parameters (objects (run_operation operation w1).2)
                     (objects (run_operation operation w2).2)
  /\ mul_cache (run_operation operation w1).2 = mul_cache (run_operation operation w2).2.
Proof.
  intros Hname Hsv Hobj Hc. unfold run_operation.
  destruct (conditional operation); [simpl; auto|].
  destruct (str_in (name operation) ["measure"; "reset"]); [simpl; auto|].
  assert (Hgate : forall n qs,
    let m := (_sym_op <- with_objects (get_sym_op n qs (params operation)) ;;
              sv <- gets _statevector ;;
              applied <- apply_to _sym_op sv ;;
              set_statevector (Some applied)) in
    (m w1).1 = (m w2).1
    /\ self_name (m w1).2 = self_name (m w2).2
    /\ _statevector (m w1).2 = _statevector (m w2).2
    /\ same_parameters (objects (m w1).2) (objects (m w2).2)
    /\ mul_cache (m w1).2 = mul_cache (m w2).2).
  { intros n qs. cbv zeta. rewrite !gate_step.
    destruct (get_sym_op_same_parameters n qs (params operation) _ _ Hobj)
      as [Ho Hh].
    destruct (get_sym_op n qs (params operation) (objects w1)) as [r1 h1'].
    destruct (get_sym_op n qs (params operation) (objects w2)) as [r2 h2'].
    simpl in Ho, Hh. subst r2. destruct r1 as [g|e]; [|simpl; auto].
    rewrite Hsv.
    destruct (apply_to_same_cache g (_statevector w2) (set_objects w1 h1')
                (set_objects w2 h2') Hc) as [Ha Hc'].
    destruct (apply_to_world g (_statevector w2) (set_objects w1 h1'))
      as (A1 & A2 & A3 & A4).
    destruct (apply_to_world g (_statevector w2) (set_objects w2 h2'))
      as (B1 & B2 & B3 & B4).
    destruct (apply_to g (_statevector w2) (set_objects w1 h1')) as [r1 v1].
    destruct (apply_to g (_statevector w2) (set_objects w2 h2')) as [r2 v2].
    simpl in *. subst r2. destruct r1 as [e'|e]; simpl.
    - split; [reflexivity|]. split; [congruence|]. split; [reflexivity|].
      split; [congruence|exact Hc'].
    - split; [reflexivity|]. split; [congruence|]. split; [congruence|].
      split; [congruence|exact Hc']. }
  destruct (str_in (name operation) ["U"; "u1"; "u2"; "u3"]).
  { unfold bind at 1. unfold lift at 1.
    destruct (index (qubits operation) 0) as [q|]; [|simpl; auto].
    apply Hgate. }
  destruct (name operation =? "id")%string; [simpl; auto|].
  destruct (name operation =? "barrier")%string; [simpl; auto|].
  destruct (str_in (name operation) ["CX"; "cx"]).
  { unfold bind at 1. unfold lift at 1.
    destruct (index (qubits operation) 0) as [q0|]; [|simpl; auto].
    unfold bind at 1. unfold lift at 1.
    destruct (index (qubits operation) 1) as [q1|]; [|simpl; auto].
    apply Hgate. }
  run_monad. rewrite Hname. auto.
Qed.

Lemma for_each_same_parameters (ops : list QobjInstruction) (w1 w2 : world) :
  self_name w1 = self_name w2 ->
  _statevector w1 = _statevector w2 ->
  same_parameters (objects w1) (objects w2) ->
  mul_cache w1 = mul_cache w2 ->
  (for_each ops run_operation w1).1 = (for_each ops run_operation w2).1
  /\ self_name (for_each ops run_operation w1).2
     = self_name (for_each ops run_operation w2).2
  /\ _statevector (for_each ops run_operation w1).2
     = _statevector (for_each ops run_operation w2).2
  /\ same_parameters (objects (for_each ops run_operation w1).2)
                     (objects (for_each ops run_operation w2).2)
  /\ mul_cache (for_each ops run_operation w1).2
     = mul_cache (for_each ops run_operation w2).2.
Proof.
  revert w1 w2. induction ops as [|o ops IH]; intros w1 w2 Hn Hsv Hobj Hc.
  - simpl. auto.
  - cbn [for_each]. unfold bind.
    destruct (run_operation_same_parameters o w1 w2 Hn Hsv Hobj Hc)
      as (Ho & Hn' & Hsv' & Hobj' & Hc').
    destruct (run_operation o w1) as [r1 w1'], (run_operation o w2) as [r2 w2'].
    simpl in Ho, Hn', Hsv', Hobj', Hc'. subst r2.
    destruct r1 as [[]|e]; [apply IH; assumption | simpl; auto].
Qed.

(** What one instruction leaves of the store. *)
Lemma run_operation_keeps (operation : QobjInstruction) (w : world) :
  self_name (run_operation operation w).2 = self_name w
  /\ _number_of_qubits (run_operation operation w).2 = _number_of_qubits w
  /\ same_parameters (objects (run_operation operation w).2) (objects w)
  /\ forall l, params operation <> Some l ->
               objects (run_operation operation w).2 !! l = objects w !! l.
Proof.
  unfold run_operation.
  assert (Hid : self_name w = self_name w /\ _number_of_qubits w = _number_of_qubits w
                /\ same_parameters (objects w) (objects w)
                /\ forall l, params operation <> Some l ->
                             objects w !! l = objects w !! l).
  { repeat split. }
  destruct (conditional operation); [exact Hid|].
  destruct (str_in (name operation) ["measure"; "reset"]); [exact Hid|].
  assert (Hgate : forall n qs,
    let m := (_sym_op <- with_objects (get_sym_op n qs (params operation)) ;;
              sv <- gets _statevector ;;
              applied <- apply_to _sym_op sv ;;
              set_statevector (Some applied)) in
    self_name (m w).2 = self_name w
    /\ _number_of_qubits (m w).2 = _number_of_qubits w
    /\ same_parameters (objects (m w).2) (objects w)
    /\ forall l, params operation <> Some l ->
                 objects (m w).2 !! l = objects w !! l).
  { intros n qs. cbv zeta. rewrite gate_step.
    destruct (get_sym_op_writes n qs (params operation) (objects w)) as [Hf Hs].
    destruct (get_sym_op n qs (params operation) (objects w)) as [r h'].
    simpl in Hf, Hs. destruct r as [g|e]; simpl; [|auto].
    destruct (apply_to_world g (_statevector w) (set_objects w h'))
      as (A1 & A2 & A3 & A4).
    destruct (apply_to g (_statevector w) (set_objects w h')) as [r1 v1].
    simpl in *. destruct r1 as [e'|e]; simpl; rewrite A1, A2, A3; auto. }
  destruct (str_in (name operation) ["U"; "u1"; "u2"; "u3"]).
  { unfold bind at 1. unfold lift at 1.
    destruct (index (qubits operation) 0) as [q|]; [|exact Hid].
    apply Hgate. }
  destruct (name operation =? "id")%string; [exact Hid|].
  destruct (name operation =? "barrier")%string; [exact Hid|].
  destruct (str_in (name operation) ["CX"; "cx"]).
  { unfold bind at 1. unfold lift at 1.
    destruct (index (qubits operation) 0) as [q0|]; [|exact Hid].
    unfold bind at 1. unfold lift at 1.
    destruct (index (qubits operation) 1) as [q1|]; [|exact Hid].
    apply Hgate. }
  exact Hid.
Qed.

Lemma for_each_keeps (ops : list QobjInstruction) (w : world) :
  self_name (for_each ops run_operation w).2 = self_name w
  /\ _number_of_qubits (for_each ops run_operation w).2 = _number_of_qubits w
  /\ same_parameters (objects (for_each ops run_operation w).2) (objects w)
  /\ forall l, ~ In l (parameter_locations ops) ->
               objects (for_each ops run_operation w).2 !! l = objects w !! l.
Proof.
  revert w. induction ops as [|o ops IH]; intros w.
  - simpl. repeat split.
  - cbn [for_each]. unfold bind.
    destruct (run_operation_keeps o w) as (Hn & Hq & Hs & Hf).
    assert (Hloc : forall l, ~ In l (parameter_locations (o :: ops)) ->
                             params o <> Some l /\ ~ In l (parameter_locations ops)).
    { intros l Hl. unfold parameter_locations in *. cbn [omap list_omap] in Hl.
      destruct (params o) as [l'|]; simpl in Hl.
      - split; [intros [= ->]; apply Hl; left; reflexivity | tauto].
      - split; [discriminate | exact Hl]. }
    destruct (run_operation o w) as [[[]|e] w1]; simpl in Hn, Hq, Hs, Hf.
    + destruct (IH w1) as (Hn' & Hq' & Hs' & Hf').
      split; [congruence|]. split; [congruence|].
      split; [eapply same_parameters_trans; eassumption|].
      intros l Hl. destruct (Hloc l Hl) as [H1 H2].
      rewrite (Hf' l H2). apply Hf, H1.
    + simpl. split; [exact Hn|]. split; [exact Hq|]. split; [exact Hs|].
      intros l Hl. apply Hf. apply (Hloc l Hl).
Qed.

(** The store a run leaves is the store its loop leaves. *)
Lemma run_circuit_store (circuit : QobjExperiment) (w : world) :
  header_number_of_qubits circuit <> 0 ->
  (run_circuit circuit w).2
  = (for_each (instructions circuit) run_operation (ground circuit w)).2.
Proof.
  intros Hn. rewrite (run_circuit_loop _ _ Hn).
  destruct (for_each _ _ _) as [[[]|e] w']; [|reflexivity].
  destruct (_statevector w') as [sv|]; [|reflexivity].
  destruct (represent sv) as [m|]; [|reflexivity].
  destruct (list_form m); reflexivity.
Qed.

(** What a run leaves of the store, whatever its outcome. *)
Lemma run_circuit_keeps (circuit : QobjExperiment) (w : world) :
  self_name (run_circuit circuit w).2 = self_name w
  /\ _number_of_qubits (run_circuit circuit w).2
     = Some (header_number_of_qubits circuit)
  /\ same_parameters (objects (run_circuit circuit w).2) (objects w)
  /\ forall l, ~ In l (parameter_locations (instructions circuit)) ->
               objects (run_circuit circuit w).2 !! l = objects w !! l.
Proof.
  destruct (Nat.eq_dec (header_number_of_qubits circuit) 0) as [Hn|Hn].
  - rewrite (run_circuit_no_qubits _ _ Hn), Hn. simpl.
    split; [reflexivity|]. split; [reflexivity|].
    split; [apply same_parameters_refl | reflexivity].
  - rewrite (run_circuit_store _ _ Hn).
    apply (for_each_keeps (instructions circuit) (ground circuit w)).
Qed.

Lemma run_circuit_same_parameters
      (circuit : QobjExperiment) (w1 w2 : world) :
  self_name w1 = self_name w2 ->
  same_parameters (objects w1) (objects w2) ->
  mul_cache w1 = mul_cache w2 ->
  (run_circuit circuit w1).1 = (run_circuit circuit w2).1.
Proof.
  intros Hname Hobj Hc.
  destruct (Nat.eq_dec (header_number_of_qubits circuit) 0) as [Hn|Hn].
  { rewrite !run_circuit_no_qubits by exact Hn. reflexivity. }
  destruct (for_each_same_parameters (instructions circuit)
              (ground circuit w1) (ground circuit w2) Hname eq_refl Hobj Hc)
    as (Ho & _ & Hsv & _).
  rewrite !run_circuit_loop by exact Hn.
  destruct (for_each _ _ (ground circuit w1)) as [r1 w1'].
  destruct (for_each _ _ (ground circuit w2)) as [r2 w2'].
  simpl in Ho, Hsv. subst r2. destruct r1 as [[]|e]; [|reflexivity].
  rewrite Hsv. destruct (_statevector w2') as [sv|]; [|reflexivity].
  destruct (represent sv) as [m|]; [|reflexivity].
  destruct (list_form m); reflexivity.
Qed.

(** X9: the outcome of [run_circuit] depends on the simulator object and
    the store only through the text rendered for the backend's name, the
    normalised parameter lists and what sympy's cache returns: the
    register state and qubit count left by an earlier run play no part,
    and neither does the form (one, two or three parameters) in which a
    list is stored. *)
Theorem run_circuit_depends_on_parameters_only
        (circuit : QobjExperiment) (w1 w2 : world) :
  self_name w1 = self_name w2 ->
  same_parameters (objects w1) (objects w2) ->
  mul_cache w1 = mul_cache w2 ->
  (run_circuit circuit w1).1 = (run_circuit circuit w2).1.
Proof. apply run_circuit_same_parameters. Qed.

(** X11: whatever its outcome, [run_circuit] records the qubit count of the
    circuit in the simulator object, keeps the name of the backend, and
    writes to no list object other than the parameter lists of the
    circuit's own instructions. *)
Theorem run_circuit_frame (circuit : QobjExperiment) (w : world) :
  _number_of_qubits (run_circuit circuit w).2
  = Some (header_number_of_qubits circuit)
  /\ self_name (run_circuit circuit w).2 = self_name w
  /\ forall l, ~ In l (parameter_locations (instructions circuit)) ->
               objects (run_circuit circuit w).2 !! l = objects w !! l.
Proof.
  destruct (run_circuit_keeps circuit w) as (Hn & Hq & _ & Hf).
  split; [exact Hq|]. split; [exact Hn|]. exact Hf.
Qed.

Lemma run_circuit_frame_witness :
  ~ In 8 (parameter_locations (instructions circuit_u2_cx))
  /\ objects (run_circuit circuit_u2_cx w_u2).2 !! 8 = objects w_u2 !! 8.
Proof.
  assert (H : ~ In 8 (parameter_locations (instructions circuit_u2_cx))).
  { simpl. intros [H|[]]. discriminate. }
  split; [exact H|].
  destruct (run_circuit_frame circuit_u2_cx w_u2) as (_ & _ & Hf).
  exact (Hf 8 H).
Defined.

Lemma run_circuit_depends_on_parameters_only_witness :
  self_name w_u2 = self_name (ground circuit_cx w_u2)
  /\ same_parameters (objects w_u2) (objects (ground circuit_cx w_u2))
  /\ mul_cache w_u2 = mul_cache (ground circuit_cx w_u2)
  /\ (run_circuit circuit_u2_cx w_u2).1
     = (run_circuit circuit_u2_cx (ground circuit_cx w_u2)).1.
Proof.
  assert (Hs : same_parameters (objects w_u2) (objects (ground circuit_cx w_u2))).
  { intros l. reflexivity. }
  split; [reflexivity|]. split; [exact Hs|]. split; [reflexivity|].
  apply (run_circuit_depends_on_parameters_only circuit_u2_cx w_u2
           (ground circuit_cx w_u2) eq_refl Hs eq_refl).
Defined.

Lemma u_gate_outside_register_witness :
  refused (instr "u2" [2] (Some 7) false) = false
  /\ objects (ground circuit_u2_cx w_u2) !! 7 = Some [0%R; PI]
  /\ 1 <= length [0%R; PI] <= 3
  /\ length (replicate 2 false) <= 2
  /\ exists msg,
      run_operation (instr "u2" [2] (Some 7) false) (ground circuit_u2_cx w_u2)
      = (Raises (QuantumError msg),
         {| objects := <[7 := spec_parameters [0%R; PI]]>
                         (objects (ground circuit_u2_cx w_u2));
            self_name := self_name (ground circuit_u2_cx w_u2);
            _number_of_qubits := _number_of_qubits (ground circuit_u2_cx w_u2);
            _statevector := _statevector (ground circuit_u2_cx w_u2);
            mul_cache := tl (mul_cache (ground circuit_u2_cx w_u2)) |}).
Proof.
  assert (Hl : objects (ground circuit_u2_cx w_u2) !! 7 = Some [0%R; PI])
    by reflexivity.
  assert (Hlen : 1 <= length [0%R; PI] <= 3) by (simpl; lia).
  assert (Hout : length (replicate 2 false) <= 2) by (simpl; lia).
  split; [reflexivity|]. split; [exact Hl|]. split; [exact Hlen|].
  split; [exact Hout|].
  apply (u_gate_outside_register (instr "u2" [2] (Some 7) false)
           (ground circuit_u2_cx w_u2) 2 [] 7 [0%R; PI] 1%C (replicate 2 false) []
           eq_refl eq_refl eq_refl eq_refl Hl Hlen eq_refl Hout).
Defined.

(** ** The ground state *)

Lemma bits_value_all_false (l : list bool) :
  Forall (fun b => b = false) l -> bits_value l = 0.
Proof.
  induction 1 as [|b l Hb _ IH]; simpl; [reflexivity|]. subst. simpl. lia.
Qed.

Lemma definite_state_zeros (n : nat) : definite_state (replicate n false) = 0.
Proof.
  rewrite definite_state_bits_value. apply bits_value_all_false.
  apply Forall_forall. intros b Hb. apply list_elem_of_In, in_rev in Hb.
  apply list_elem_of_In, elem_of_replicate in Hb. tauto.
Qed.

Lemma for_each_id_barrier (ops : list QobjInstruction) (w : world) :
  Forall (fun o => conditional o = false
                   /\ (name o = "id" \/ name o = "barrier")) ops ->
  for_each ops run_operation w = (Returns tt, w).
Proof.
  induction 1 as [|o ops [Hc Hn] _ IH]; simpl; [reflexivity|].
  unfold bind.
  assert (Ho : run_operation o w = (Returns tt, w)).
  { unfold run_operation. rewrite Hc. destruct Hn as [-> | ->]; reflexivity. }
  rewrite Ho. exact IH.
Qed.

(** X12: a circuit over [n] qubits, [n] at least 1, that has no
    instruction, or only [id] and [barrier] instructions not flagged
    conditional, completes with the amplitude vector of the ground state: 1
    at index 0 and 0 at the other 2^n - 1 indices.  Over no qubit the run
    raises a value error before the loop, whatever the instructions. *)
Theorem circuit_without_gates_returns_ground_state
        (circuit : QobjExperiment) (w : world) :
  (header_number_of_qubits circuit = 0 ->
   run_circuit circuit w = (Raises ValueError, no_register w))
  /\ (0 < header_number_of_qubits circuit ->
      Forall (fun o => conditional o = false
                       /\ (name o = "id" \/ name o = "barrier"))
             (instructions circuit) ->
      run_circuit circuit w
      = (Returns {| statevector :=
                      map (fun i => if (i =? 0)%nat then 1%C else 0%C)
                          (seq 0 (2 ^ header_number_of_qubits circuit));
                    success := true; shots := 1; status := "DONE";
                    result_header_name := header_name circuit |},
         ground circuit w)).
Proof.
  split; [apply run_circuit_no_qubits|].
  intros Hn Hops. rewrite run_circuit_loop, (for_each_id_barrier _ _ Hops) by lia.
  cbn [ground _statevector]. unfold Qubit, represent. cbn [fold_left].
  rewrite represent_Qubit_column, scale_matrix_column, list_form_column.
  rewrite length_replicate, definite_state_zeros.
  do 3 f_equal. apply map_ext. intros i.
  destruct (i =? 0)%nat; complex_eq.
Qed.

Lemma circuit_without_gates_returns_ground_state_witness :
  0 < 2
  /\ Forall (fun o => conditional o = false
                      /\ (name o = "id" \/ name o = "barrier"))
            [instr "barrier" [0; 1] None false]
  /\ (run_circuit {| header_name := "b"; header_number_of_qubits := 2;
                     instructions := [instr "barrier" [0; 1] None false] |} w0).1
     = Returns {| statevector := [1%C; 0%C; 0%C; 0%C];
                  success := true; shots := 1; status := "DONE";
                  result_header_name := "b" |}
  /\ run_circuit {| header_name := "b"; header_number_of_qubits := 0;
                    instructions := [instr "barrier" [0; 1] None false] |} w0
     = (Raises ValueError, no_register w0).
Proof.
  assert (Hn : 0 < 2) by lia.
  assert (H : Forall (fun o => conditional o = false
                               /\ (name o = "id" \/ name o = "barrier"))
                     [instr "barrier" [0; 1] None false]).
  { constructor; [|constructor]. split; [reflexivity | right; reflexivity]. }
  split; [exact Hn|]. split; [exact H|]. split.
  - destruct (circuit_without_gates_returns_ground_state
                {| header_name := "b"; header_number_of_qubits := 2;
                   instructions := [instr "barrier" [0; 1] None false] |} w0)
      as (_ & Hrun).
    rewrite (Hrun Hn H). reflexivity.
  - destruct (circuit_without_gates_returns_ground_state
                {| header_name := "b"; header_number_of_qubits := 0;
                   instructions := [instr "barrier" [0; 1] None false] |} w0)
      as (Hzero & _).
    exact (Hzero eq_refl).
Defined.

(** ** The errors a run can raise *)

Lemma targets_raises (g : gate) (e : exception) :
  targets g = Raises e -> kind_of e = None.
Proof.
  induction g as [cls label|label|cs g IH]; simpl; try discriminate; auto.
  destruct (index label 1) eqn:Hi; simpl; [discriminate|].
  intros [= <-]. apply index_raises in Hi as ->. reflexivity.
Qed.

Lemma omap_list_index_raises (m : Matrix) (j : nat) (e : exception) :
  matrix_column m j = Raises e -> kind_of e = None.
Proof.
  unfold matrix_column. induction m as [|row m IH]; simpl; [discriminate|].
  destruct (index row j) eqn:Hi; simpl.
  - destruct (omap_list _ m); simpl; [discriminate|]. intros [= <-]. auto.
  - intros [= <-]. apply index_raises in Hi as ->. reflexivity.
Qed.

Lemma apply_operator_Qubit_raises (g : gate) (q : ket) (e : exception) :
  apply_operator_Qubit g q = Raises e -> kind_of e = None.
Proof.
  unfold apply_operator_Qubit.
  destruct (min_qubits g) as [mq|e0] eqn:Hmq; simpl.
  2:{ intros [= <-]. destruct g as [| |cs g]; simpl in Hmq; try discriminate.
      destruct (targets g) eqn:Ht; simpl in Hmq; [discriminate|].
      inversion Hmq. subst. eapply targets_raises, Ht. }
  destruct (length q <? mq)%nat; [intros [= <-]; reflexivity|].
  destruct (if is_CGate g then _ else _) as [met|e0] eqn:Hmet; simpl.
  2:{ intros [= <-]. destruct g as [|label|cs g]; simpl in Hmet; try discriminate.
      destruct (index label 0) eqn:Hi; simpl in Hmet; [discriminate|].
      inversion Hmet. subst. apply index_raises in Hi as ->. reflexivity. }
  destruct met; simpl; [|discriminate].
  destruct (targets g) as [ts|e0] eqn:Ht; simpl.
  2:{ intros [= <-]. eapply targets_raises, Ht. }
  destruct (get_target_matrix g) as [m|]; [|intros [= <-]; reflexivity].
  destruct (matrix_column m _) as [col|e0] eqn:Hcol; simpl; [discriminate|].
  intros [= <-]. eapply omap_list_index_raises, Hcol.
Qed.

Lemma qapply_raises (g : gate) (s : qexpr) (e : exception) :
  qapply g s = Raises e -> kind_of e = None.
Proof.
  induction s as [|[c q] s IH]; simpl; [discriminate|].
  destruct (apply_operator_Qubit g q) as [r|e0] eqn:Hr; simpl.
  - destruct (qapply g s) as [rs|e0]; simpl; [discriminate|].
    intros [= <-]. apply IH. reflexivity.
  - intros [= <-]. eapply apply_operator_Qubit_raises, Hr.
Qed.

Lemma qapply_cached_raises (c : product_cache) (g : gate) (s : qexpr)
      (e : exception) :
  qapply_cached c g s = Raises e -> kind_of e = None.
Proof.
  induction s as [|[a q] s IH]; simpl; [discriminate|].
  destruct (apply_operator_Qubit (cached_gate c g q) q) as [r|e0] eqn:Hr; simpl.
  - destruct (qapply_cached c g s) as [rs|e0]; simpl; [discriminate|].
    intros [= <-]. apply IH. reflexivity.
  - intros [= <-]. eapply apply_operator_Qubit_raises, Hr.
Qed.

Lemma apply_to_raises (g : gate) (sv : option qexpr) (w w' : world)
      (e : exception) :
  apply_to g sv w = (Raises e, w') -> kind_of e = None.
Proof.
  unfold apply_to. destruct sv as [s|]; [|intros [= <- <-]; reflexivity].
  destruct g as [[| | | | | | | | |m] label|label|cs g];
    unfold next_product_cache; run_monad;
    try (destruct (qapply _ s) as [r|e0] eqn:Hr; intros [= <- <-];
         eapply qapply_raises, Hr).
  destruct (qapply_cached _ _ s) as [r|e0] eqn:Hr; intros [= <- <-].
  eapply qapply_cached_raises, Hr.
Qed.

(** The failures of the gate factory on the names the loop passes to it. *)
Lemma get_sym_op_engine_raises (n : string) (qs : list nat) (p : option loc)
      (h h' : gmap loc (list R)) (e : exception) :
  startswith n "U" = true \/ n = "CX" ->
  get_sym_op n qs p h = (Raises e, h') ->
  (e = SympySimulatorError u_gate_parameter_count /\ startswith n "U" = true)
  \/ kind_of e = None.
Proof.
  intros [HU | ->].
  - assert (Hn : startswith n "U" || startswith n "CU" = true)
      by (rewrite HU; reflexivity).
    destruct p as [l|].
    + destruct (h !! l) as [ps|] eqn:Hl.
      * rewrite (u_family_gate_eq _ _ _ _ _ Hn Hl).
        destruct (decide _); intros [= Hr <-].
        -- right. eapply u_family_gate_raises, Hr.
        -- subst. auto.
      * rewrite (get_sym_op_dangling _ _ _ _ Hn Hl). intros [= <- <-]. auto.
    + rewrite (get_sym_op_no_params _ _ _ Hn). intros [= <- <-]. auto.
  - unfold get_sym_op. run_monad.
    destruct (the_gate_fixed "CX" qs eq_refl) as [(g & ->)|(e0 & -> & Hk)];
      intros [= <- <-]. auto.
Qed.

(** The failures of one instruction. *)
Lemma run_operation_raises (operation : QobjInstruction) (w w' : world)
      (e : exception) :
  run_operation operation w = (Raises e, w') ->
  (e = SympySimulatorError conditional_not_supported
   /\ conditional operation = true)
  \/ (e = SympySimulatorError (operation_not_supported (name operation))
      /\ str_in (name operation) ["measure"; "reset"] = true)
  \/ (e = SympySimulatorError
            (unrecognized_operation (self_name w) (name operation))
      /\ str_in (name operation)
           ["U"; "u1"; "u2"; "u3"; "id"; "barrier"; "CX"; "cx"] = false)
  \/ (e = SympySimulatorError u_gate_parameter_count
      /\ str_in (name operation) ["U"; "u1"; "u2"; "u3"] = true)
  \/ kind_of e = None.
Proof.
  unfold run_operation.
  destruct (conditional operation) eqn:Hc; [intros [= <- <-]; auto|].
  destruct (str_in (name operation) ["measure"; "reset"]) eqn:Hm;
    [intros [= <- <-]; auto|].
  assert (Hgate : forall n qs,
    startswith n "U" = true \/ n = "CX" ->
    (_sym_op <- with_objects (get_sym_op n qs (params operation)) ;;
     sv <- gets _statevector ;;
     applied <- apply_to _sym_op sv ;;
     set_statevector (Some applied)) w = (Raises e, w') ->
    (e = SympySimulatorError u_gate_parameter_count /\ startswith n "U" = true)
    \/ kind_of e = None).
  { intros n qs Hn. rewrite gate_step.
    destruct (get_sym_op n qs (params operation) (objects w)) as [[g|e0] h'] eqn:Hg.
    - destruct (apply_to g (_statevector w) _) as [[s|e0] w1] eqn:Ha;
        [discriminate|].
      intros [= <- <-]. right. eapply apply_to_raises, Ha.
    - intros [= <- <-]. eapply get_sym_op_engine_raises; eassumption. }
  destruct (str_in (name operation) ["U"; "u1"; "u2"; "u3"]) eqn:Hu.
  { unfold bind at 1. unfold lift at 1.
    destruct (index (qubits operation) 0) as [q|e0] eqn:Hi.
    - intros H. apply Hgate in H; [|left; apply u_names_upper, Hu].
      destruct H as [[-> _]|Hk]; auto 6.
    - intros [= <- <-]. apply index_raises in Hi as ->. auto 6. }
  destruct (name operation =? "id")%string eqn:Hid; [discriminate|].
  destruct (name operation =? "barrier")%string eqn:Hbar; [discriminate|].
  destruct (str_in (name operation) ["CX"; "cx"]) eqn:Hcx.
  { unfold bind at 1. unfold lift at 1.
    destruct (index (qubits operation) 0) as [q0|e0] eqn:Hi0;
      [|intros [= <- <-]; apply index_raises in Hi0 as ->; auto 6].
    unfold bind at 1. unfold lift at 1.
    destruct (index (qubits operation) 1) as [q1|e0] eqn:Hi1;
      [|intros [= <- <-]; apply index_raises in Hi1 as ->; auto 6].
    intros H. apply Hgate in H; [|right; apply cx_names_upper, Hcx].
    destruct H as [[_ HU]|Hk]; [|auto 6].
    rewrite (cx_names_upper _ Hcx) in HU. discriminate. }
  unfold bind, gets, raise. intros [= <- <-]. right. right. left.
  split; [reflexivity|].
  change ["U"; "u1"; "u2"; "u3"; "id"; "barrier"; "CX"; "cx"]
    with (["U"; "u1"; "u2"; "u3"] ++ ["id"] ++ ["barrier"] ++ ["CX"; "cx"])%list.
  rewrite !str_in_app, Hu, Hcx. unfold str_in. simpl. rewrite Hid, Hbar. reflexivity.
Qed.







(** ** The job layer *)

Lemma validate_instructions (circuit : QobjExperiment)
      (ops : list QobjInstruction) (acc : outcome unit) :
  fold_left
    (fun acc' operator =>
       _ <~ acc' ;;
       if str_in (name operator) ["measure"; "reset"]
       then Raises (SympySimulatorError (validate_measure_reset (header_name circuit)))
       else Returns tt)
    ops acc
  = match acc with
    | Raises e => Raises e
    | Returns _ =>
        if existsb (fun operator => str_in (name operator) ["measure"; "reset"]) ops
        then Raises (SympySimulatorError (validate_measure_reset (header_name circuit)))
        else Returns tt
    end.
Proof.
  revert acc. induction ops as [|o ops IH]; intros acc; cbn [fold_left existsb].
  - destruct acc as [[]|]; reflexivity.
  - rewrite IH. destruct acc as [[]|]; cbn [obind]; [|reflexivity].
    destruct (str_in (name o) ["measure"; "reset"]); reflexivity.
Qed.

Lemma validate_circuits (cs : list QobjExperiment) (acc : outcome unit) :
  fold_left
    (fun acc circuit =>
       _ <~ acc ;;
       fold_left
         (fun acc' operator =>
            _ <~ acc' ;;
            if str_in (name operator) ["measure"; "reset"]
            then Raises (SympySimulatorError (validate_measure_reset (header_name circuit)))
            else Returns tt)
         (instructions circuit) (Returns tt))
    cs acc
  = match acc with
    | Raises e => Raises e
    | Returns _ =>
        match find has_measure_or_reset cs with
        | Some circuit =>
            Raises (SympySimulatorError (validate_measure_reset (header_name circuit)))
        | None => Returns tt
        end
    end.
Proof.
  revert acc. induction cs as [|c cs IH]; intros acc; cbn [fold_left find].
  - destruct acc as [[]|]; reflexivity.
  - rewrite IH. destruct acc as [[]|]; cbn [obind]; [|reflexivity].
    rewrite validate_instructions. unfold has_measure_or_reset.
    destruct (existsb _ (instructions c)); reflexivity.
Qed.

(** X14: [_validate] fails exactly when some circuit of the job holds a
    measure or reset instruction, and then its error names the first such
    circuit; instructions flagged conditional and unknown gates pass it. *)
Theorem validate_finds_first_measure_or_reset (circuits : list QobjExperiment) :
  _validate circuits
  = match find has_measure_or_reset circuits with
    | Some circuit =>
        Raises (SympySimulatorError (validate_measure_reset (header_name circuit)))
    | None => Returns tt
    end.
Proof. unfold _validate. rewrite validate_circuits. reflexivity. Qed.

Lemma run_experiments_returns (cs : list QobjExperiment)
      (acc rs : list ExperimentResult) (w w' : world) :
  run_experiments cs acc w = (Returns rs, w') ->
  exists new,
    rs = (acc ++ new)%list
    /\ Forall2 (fun c r => exists wa wb, run_circuit c wa = (Returns r, wb)) cs new.
Proof.
  revert acc w. induction cs as [|c cs IH]; intros acc w; simpl.
  - intros [= <- <-]. exists []. rewrite app_nil_r. split; [reflexivity|constructor].
  - unfold bind. destruct (run_circuit c w) as [[r|e] w1] eqn:Hc; [|discriminate].
    intros H. destruct (IH _ _ H) as (new & -> & Hall).
    exists (r :: new). rewrite <- app_assoc. split; [reflexivity|].
    constructor; [eauto | exact Hall].
Qed.


(** The size and the name of what a completed circuit returns. *)
Lemma run_circuit_returns (circuit : QobjExperiment) (w w' : world)
      (res : ExperimentResult) :
  run_circuit circuit w = (Returns res, w') ->
  length (statevector res) = 2 ^ header_number_of_qubits circuit
  /\ result_header_name res = header_name circuit
  /\ success res = true.
Proof.
  intros Hrun.
  assert (Hq : header_number_of_qubits circuit <> 0).
  { intros H0. rewrite (run_circuit_no_qubits _ _ H0) in Hrun. discriminate. }
  revert Hrun. rewrite (run_circuit_loop _ _ Hq).
  destruct (for_each _ _ _) as [[[]|] w1] eqn:Hloop; [|discriminate].
  assert (Hinv : exists e, _statevector w1 = Some e
                   /\ Forall (fun t : complex * ket =>
                                length t.2 = header_number_of_qubits circuit) e).
  { eapply for_each_register_size; [|exact Hloop].
    eexists. split; [reflexivity|]. repeat constructor.
    simpl. apply length_replicate. }
  destruct Hinv as (final & Hsv & Hall). rewrite Hsv.
  destruct (represent final) as [m|] eqn:Hm; [|discriminate].
  destruct (represent_column _ final m Hall Hm) as (f & -> & Hf).
  rewrite list_form_column. intros [= <- <-]. simpl.
  rewrite length_map, length_seq. auto.
Qed.

(** X15: when a circuit of the job holds a measure or reset instruction,
    [_run_job] raises the error of [_validate], naming the first such
    circuit, before any circuit is run: the simulator object and the store
    are left as they were. *)
Theorem run_job_validates_first
        (env : job_environment) (job_id : string) (qobj : Qobj) (w : world)
        (circuit : QobjExperiment) :
  find has_measure_or_reset (experiments qobj) = Some circuit ->
  _run_job env job_id qobj w
  = (Raises (SympySimulatorError (validate_measure_reset (header_name circuit))), w).
Proof.
  intros Hf. unfold _run_job, bind, lift.
  unfold _validate. rewrite validate_circuits, Hf. reflexivity.
Qed.

Lemma dict_of_snoc {V} (items : list (string * V)) (k : string) (v : V) :
  dict_of (items ++ [(k, v)]) = <[k := v]> (dict_of items).
Proof. unfold dict_of. rewrite fold_left_app. reflexivity. Qed.

(** The dictionary of the results of a list of circuits, each result under
    the name of its circuit. *)
Lemma results_by_name (P : QobjExperiment -> ExperimentResult -> Prop)
      (exps : list QobjExperiment) (rs : list ExperimentResult) :
  Forall2 (fun c r => result_header_name r = header_name c /\ P c r) exps rs ->
  let d := dict_of (map (fun r => (result_header_name r, r)) rs) in
  (forall name, is_Some (d !! name) <-> In name (map header_name exps))
  /\ (forall name r, d !! name = Some r ->
        exists pre c post,
          exps = (pre ++ c :: post)%list /\ header_name c = name
          /\ Forall (fun c' => header_name c' <> name) post /\ P c r)
  /\ size d <= length exps
  /\ (NoDup (map header_name exps) -> size d = length exps)
  /\ (~ NoDup (map header_name exps) -> size d < length exps).
Proof.
  revert rs. induction exps as [|c exps IH] using rev_ind; intros rs Hall.
  - apply Forall2_nil_inv_l in Hall as ->. cbn [map]. unfold dict_of. cbn [fold_left].
    split; [|split; [|split; [|split]]].
    + intros name. rewrite lookup_empty. split; [intros [x [=]] | intros []].
    + intros name r. rewrite lookup_empty. discriminate.
    + rewrite map_size_empty. simpl. lia.
    + intros _. rewrite map_size_empty. reflexivity.
    + intros Hnd. exfalso. apply Hnd. constructor.
  - apply Forall2_app_inv_l in Hall as (rs1 & rs2 & H1 & H2 & ->).
    apply Forall2_cons_inv_l in H2 as (r & rs3 & [Hname HP] & H3 & ->).
    apply Forall2_nil_inv_l in H3 as ->.
    destruct (IH rs1 H1) as (Hkeys & Hlast & Hsize & Hdistinct & Hshared). clear IH.
    rewrite map_app. cbn [map]. cbv zeta. rewrite dict_of_snoc. cbn [fst snd].
    rewrite Hname.
    set (d := dict_of (map (fun r0 => (result_header_name r0, r0)) rs1)) in *.
    split; [|split; [|split; [|split]]].
    + intros name. rewrite lookup_insert_is_Some', Hkeys, map_app, in_app_iff.
      simpl. tauto.
    + intros name r0 Hl. apply lookup_insert_Some in Hl as [[<- <-]|[Hne Hl]].
      * exists exps, c, []. repeat split; [constructor | exact HP].
      * destruct (Hlast name r0 Hl) as (pre & c0 & post & -> & Hc0 & Hpost & HP0).
        exists pre, c0, (post ++ [c])%list. rewrite <- app_assoc. simpl.
        split; [reflexivity|]. split; [exact Hc0|]. split; [|exact HP0].
        apply Forall_app. split; [exact Hpost|]. constructor; [exact Hne|constructor].
    + rewrite map_size_insert, length_app. simpl.
      destruct (d !! header_name c); simpl; lia.
    + rewrite map_app. cbn [map]. intros Hnd.
      apply NoDup_app in Hnd as (Hnd & Hnew & _).
      rewrite map_size_insert_None, length_app; [rewrite (Hdistinct Hnd); simpl; lia|].
      destruct (d !! header_name c) as [r0|] eqn:Hl; [|reflexivity].
      exfalso. apply (Hnew (header_name c)); [|left].
      apply list_elem_of_In, Hkeys. rewrite Hl. eauto.
    + rewrite map_app. cbn [map]. intros Hnd.
      rewrite map_size_insert, length_app. simpl.
      destruct (decide (NoDup (map header_name exps))) as [Hxs|Hxs].
      * destruct (d !! header_name c) as [r0|] eqn:Hl; simpl; [lia|].
        exfalso. apply Hnd. apply NoDup_app. split; [exact Hxs|].
        split; [|apply NoDup_singleton].
        intros x Hx Hc. apply list_elem_of_singleton in Hc as ->.
        apply list_elem_of_In, Hkeys in Hx. rewrite Hl in Hx.
        destruct Hx as [y [=]].
      * specialize (Hshared Hxs). destruct (d !! header_name c); simpl; lia.
Qed.

(** X16: a job that completes returns its results under the names of its
    circuits, and no circuit of the job holds a measure or reset
    instruction.  Under each name stands the result of the last circuit
    of that name, its amplitude vector having 2^n entries for that
    circuit's qubit count n; so circuits with pairwise different names
    have one result each, and when two circuits share a name there are
    fewer results than circuits. *)
Theorem run_job_results
        (env : job_environment) (job_id : string) (qobj : Qobj) (w w' : world)
        (res : Result) :
  _run_job env job_id qobj w = (Returns res, w') ->
  Forall (fun c => has_measure_or_reset c = false) (experiments qobj)
  /\ (forall name, is_Some (Result_results res !! name)
                   <-> In name (map header_name (experiments qobj)))
  /\ (forall name r, Result_results res !! name = Some r ->
        exists pre circuit post wa wb,
          experiments qobj = (pre ++ circuit :: post)%list
          /\ header_name circuit = name
          /\ Forall (fun c => header_name c <> name) post
          /\ run_circuit circuit wa = (Returns r, wb)
          /\ length (statevector r) = 2 ^ header_number_of_qubits circuit)
  /\ (NoDup (map header_name (experiments qobj)) ->
      size (Result_results res) = length (experiments qobj))
  /\ (~ NoDup (map header_name (experiments qobj)) ->
      size (Result_results res) < length (experiments qobj))
  /\ Result_job_id res = job_id.
Proof.
  unfold _run_job, bind, lift. unfold _validate. rewrite validate_circuits.
  destruct (find has_measure_or_reset (experiments qobj)) eqn:Hf; [discriminate|].
  destruct (run_experiments (experiments qobj) [] w) as [[rs|] w1] eqn:Hr;
    [|discriminate].
  unfold ret. intros [= <- <-]. cbn [new_Result Result_results Result_job_id results
                                     result_job_id].
  destruct (run_experiments_returns _ _ _ _ _ Hr) as (new & -> & Hall). simpl.
  assert (Hnone : Forall (fun c => has_measure_or_reset c = false) (experiments qobj)).
  { apply Forall_forall. intros c Hc. apply list_elem_of_In in Hc.
    destruct (has_measure_or_reset c) eqn:Hm; [|reflexivity].
    eapply find_none in Hf; [|exact Hc]. congruence. }
  split; [exact Hnone|].
  assert (Hall' : Forall2
            (fun c r => result_header_name r = header_name c
                        /\ exists wa wb,
                            run_circuit c wa = (Returns r, wb)
                            /\ length (statevector r)
                               = 2 ^ header_number_of_qubits c)
            (experiments qobj) new).
  { eapply Forall2_impl; [exact Hall|]. intros c r (wa & wb & Hc).
    destruct (run_circuit_returns _ _ _ _ Hc) as (Hl & Hn & _). eauto. }
  destruct (results_by_name _ _ _ Hall')
    as (Hkeys & Hlast & _ & Hdistinct & Hshared).
  split; [exact Hkeys|].
  split; [|split; [exact Hdistinct|split; [exact Hshared|reflexivity]]].
  intros name r Hl.
  destruct (Hlast name r Hl) as (pre & c & post & He & Hc & Hpost & wa & wb & Hrun & Hlen).
  exists pre, c, post, wa, wb. auto.
Qed.


Lemma run_job_validates_first_witness :
  find has_measure_or_reset (experiments qobj_with_measure) = Some circuit_measure
  /\ _run_job env0 "job" qobj_with_measure w0
     = (Raises (SympySimulatorError (validate_measure_reset "m")), w0).
Proof.
  split; [reflexivity|].
  apply (run_job_validates_first env0 "job" qobj_with_measure w0
           circuit_measure eq_refl).
Defined.

Lemma run_job_results_witness :
  ~ NoDup (map header_name (experiments qobj_cx_twice))
  /\ exists res w',
      _run_job env0 "job" qobj_cx_twice w0 = (Returns res, w')
      /\ size (Result_results res) < 2
      /\ is_Some (Result_results res !! "cx").
Proof.
  assert (Hnd : ~ NoDup (map header_name (experiments qobj_cx_twice))).
  { intros H. apply NoDup_cons in H as [H _]. apply H. left. }
  split; [exact Hnd|].
  eexists. eexists. split; [reflexivity|].
  destruct (run_job_results env0 "job" qobj_cx_twice w0 _ _ eq_refl)
    as (_ & Hkeys & _ & _ & Hshared & _).
  split; [exact (Hshared Hnd)|]. apply Hkeys. left. reflexivity.
Defined.


(** ** The gate classes of the source *)

(** X19: the matrices of [SDGGate] and [TDGGate] are unitary, and the
    square of the TDG matrix is the SDG matrix. *)
Theorem sdg_tdg_unitary (q : nat) :
  exists sdg tdg,
    get_target_matrix (OneQubitGate SDGGate [q]) = Some sdg
    /\ get_target_matrix (OneQubitGate TDGGate [q]) = Some tdg
    /\ matrix_mul sdg (dagger sdg) = eye2
    /\ matrix_mul tdg (dagger tdg) = eye2
    /\ matrix_mul tdg tdg = sdg.
Proof.
  eexists. eexists. split; [reflexivity|]. split; [reflexivity|].
  rewrite Cexp_minus_quarter_turn. pose proof sqrt2_sqr as Hs.
  split; [|split];
    cbv - [Rplus Rmult Rminus Ropp Rinv Rdiv sqrt IZR];
    repeat (apply f_equal2; try reflexivity); nra.
Qed.

(** X20: a [UGateGeneric] carries no matrix until [set_target_matrix] is
    called, and applying it in that state to a ket it fits is a type error;
    after [set_target_matrix] it carries the matrix given last, on the same
    qubits. *)
Theorem ugate_generic_target_matrix (label : list nat) :
  get_target_matrix (OneQubitGate (UGateGeneric None) label) = None
  /\ (forall q, list_max label < length q ->
        apply_operator_Qubit (OneQubitGate (UGateGeneric None) label) q
        = Raises TypeError)
  /\ forall old m m',
      let g := set_target_matrix (OneQubitGate (UGateGeneric old) label) m in
      get_target_matrix g = Some m
      /\ targets g = Returns label
      /\ get_target_matrix (set_target_matrix g m') = Some m'.
Proof.
  split; [reflexivity|]. split.
  - intros q Hq. unfold apply_operator_Qubit. simpl.
    assert (Hlt : (length q <? S (list_max label))%nat = false).
    { apply Nat.ltb_ge. lia. }
    rewrite Hlt. reflexivity.
  - intros old m m'. simpl. auto.
Qed.

Lemma ugate_generic_target_matrix_witness :
  list_max [0] < length [false; false]
  /\ apply_operator_Qubit (OneQubitGate (UGateGeneric None) [0]) [false; false]
     = Raises TypeError.
Proof.
  assert (H : list_max [0] < length [false; false]) by (simpl; lia).
  split; [exact H|].
  destruct (ugate_generic_target_matrix [0]) as (_ & Hq & _).
  exact (Hq [false; false] H).
Defined.

(** ** The declared basis gates *)

(** X21: every gate name that [DEFAULT_CONFIGURATION] declares as a basis
    gate is known to the loop of [run_circuit]: an instruction with such a
    name never fails as an unrecognized operation. *)
Theorem declared_basis_gates_are_recognized
        (operation : QobjInstruction) (w w' : world) (e : exception) :
  In (name operation) (split_on "," (basis_gates DEFAULT_CONFIGURATION)) ->
  str_in (name operation)
    ["U"; "u1"; "u2"; "u3"; "id"; "barrier"; "CX"; "cx"] = true
  /\ (run_operation operation w = (Raises e, w') ->
      forall backend n, e <> SympySimulatorError (unrecognized_operation backend n)).
Proof.
  intros Hin.
  assert (Hk : str_in (name operation)
                 ["U"; "u1"; "u2"; "u3"; "id"; "barrier"; "CX"; "cx"] = true).
  { simpl in Hin. destruct Hin as [<-|[<-|[<-|[<-|[<-|[]]]]]]; reflexivity. }
  split; [exact Hk|].
  intros Hr backend n ->. apply run_operation_raises in Hr.
  destruct Hr as [[[=] _]|[[[=] _]|[[_ Hu]|[[[=] _]|[=]]]]]. congruence.
Qed.

Lemma declared_basis_gates_are_recognized_witness :
  In (name (instr "u3" [0] None false))
     (split_on "," (basis_gates DEFAULT_CONFIGURATION))
  /\ str_in (name (instr "u3" [0] None false))
       ["U"; "u1"; "u2"; "u3"; "id"; "barrier"; "CX"; "cx"] = true.
Proof.
  assert (Hin : In (name (instr "u3" [0] None false))
                   (split_on "," (basis_gates DEFAULT_CONFIGURATION))).
  { simpl. tauto. }
  split; [exact Hin|].
  apply (declared_basis_gates_are_recognized (instr "u3" [0] None false)
           w0 w0 TypeError Hin).
Defined.

(** ** The action of CX on the amplitudes *)

Lemma Cmult_plus_distr_l (a b c : complex) : (a * (b + c) = a * b + a * c)%C.
Proof. complex_eq. Qed.

Lemma amplitude_app (a b : qexpr) (k : ket) :
  amplitude (a ++ b)%list k = (amplitude a k + amplitude b k)%C.
Proof.
  induction a as [|[c q] a IH]; simpl.
  - symmetry. apply Cplus_0_l.
  - fold (amplitude (a ++ b)%list k). fold (amplitude a k). rewrite IH.
    destruct (decide (q = k)); [symmetry; apply Cplus_assoc | reflexivity].
Qed.

Lemma amplitude_scale (c : complex) (r : qexpr) (k : ket) :
  amplitude (map (fun t : complex * ket => ((c * t.1)%C, t.2)) r) k
  = (c * amplitude r k)%C.
Proof.
  induction r as [|[a q] r IH]; simpl.
  - symmetry. apply Cmult_0_r.
  - fold (amplitude r k).
    fold (amplitude (map (fun t : complex * ket => ((c * t.1)%C, t.2)) r) k).
    rewrite IH. destruct (decide (q = k)); [|reflexivity].
    symmetry. apply Cmult_plus_distr_l.
Qed.

Lemma qubit_at_flip_other (q : ket) (c t : nat) :
  c <> t -> c < length q -> t < length q ->
  qubit_at (flip q t) c = qubit_at q c.
Proof.
  intros Hne Hc Ht. unfold qubit_at. rewrite length_flip, !nth_lookup.
  unfold flip, ket. rewrite list_lookup_alter_ne by lia. reflexivity.
Qed.

Lemma flip_flip (q : ket) (t : nat) : flip (flip q t) t = q.
Proof.
  unfold flip at 1. rewrite length_flip. unfold flip, ket.
  rewrite list_alter_alter_eq.
  apply list_alter_id. intros b. apply negb_involutive.
Qed.

Lemma controlled_flip_involutive (c t : nat) (q : ket) :
  c <> t -> c < length q -> t < length q ->
  controlled_flip c t (controlled_flip c t q) = q.
Proof.
  intros Hne Hc Ht. unfold controlled_flip.
  destruct (qubit_at q c) eqn:Hq.
  - rewrite (qubit_at_flip_other q c t Hne Hc Ht), Hq. apply flip_flip.
  - rewrite Hq. reflexivity.
Qed.

Lemma length_controlled_flip (c t : nat) (q : ket) :
  length (controlled_flip c t q) = length q.
Proof. unfold controlled_flip. destruct (qubit_at q c); [apply length_flip|reflexivity]. Qed.

(** The controlled-NOT on one ket. *)
Lemma apply_cnot (c t : nat) (q : ket) :
  c < length q -> t < length q ->
  exists r,
    apply_operator_Qubit (CNotGate [c; t]) q = Returns r
    /\ forall k, amplitude r k
                 = if decide (controlled_flip c t q = k) then 1%C else 0%C.
Proof.
  intros Hc Ht. unfold apply_operator_Qubit, controlled_flip.
  cbn [min_qubits list_max fold_right obind is_CGate controls targets index
       lookup list_lookup get_target_matrix class_target_matrix].
  assert (Hlt : (length q <? S (Nat.max c (Nat.max t 0)))%nat = false).
  { apply Nat.ltb_ge. lia. }
  rewrite Hlt. unfold eval_controls. cbn [forallb]. rewrite andb_true_r.
  destruct (qubit_at q c) eqn:Hqc; cbn [negb].
  - unfold column_index, place. cbn [fold_left fst length seq zip zip_with].
    destruct (qubit_at q t) eqn:Hqt; cbn - [flip];
      (eexists; split; [reflexivity|]); intros k; cbn - [flip];
      destruct (decide (flip q t = k)), (decide (q = k)); complex_eq.
  - eexists. split; [reflexivity|]. intros k. cbn.
    destruct (decide (q = k)); complex_eq.
Qed.

Lemma qapply_cnot (n c t : nat) (e : qexpr) :
  c <> t -> c < n -> t < n ->
  Forall (fun s : complex * ket => length s.2 = n) e ->
  exists e',
    qapply (CNotGate [c; t]) e = Returns e'
    /\ forall k, length k = n ->
                 amplitude e' k = amplitude e (controlled_flip c t k).
Proof.
  intros Hne Hc Ht. induction e as [|[a q] e IH]; intros He.
  - exists []. split; [reflexivity|]. reflexivity.
  - apply Forall_cons in He as [Hq He]. simpl in Hq.
    destruct (IH He) as (e' & He' & Hamp). cbn [qapply].
    destruct (apply_cnot c t q) as (r & Hr & Hramp); [lia | lia |].
    rewrite Hr, He'. cbn [obind]. eexists. split; [reflexivity|].
    intros k Hk. rewrite amplitude_app, amplitude_scale, Hramp, (Hamp k Hk).
    cbn [amplitude fold_right fst snd].
    fold (amplitude e (controlled_flip c t k)).
    destruct (decide (controlled_flip c t q = k)) as [Heq|Hneq].
    + destruct (decide (q = controlled_flip c t k)) as [|Hn].
      * rewrite Cmult_1_r. reflexivity.
      * exfalso. apply Hn. rewrite <- Heq.
        symmetry. apply controlled_flip_involutive; lia.
    + destruct (decide (q = controlled_flip c t k)) as [Heq|].
      * exfalso. apply Hneq. rewrite Heq.
        apply controlled_flip_involutive; lia.
      * rewrite Cmult_0_r. apply Cplus_0_l.
Qed.

(** X22: a CX instruction on two different qubits of the register takes the
    first as control and the second as target: it completes, keeps the size
    of the register, and the new amplitude of every ket is the old
    amplitude of the ket obtained by flipping the target qubit where the
    control qubit is 1.  The parameter lists are not touched. *)
Theorem cx_permutes_amplitudes
        (operation : QobjInstruction) (w : world) (q0 q1 : nat) (rest : list nat)
        (n : nat) (e : qexpr) :
  refused operation = false ->
  str_in (name operation) ["CX"; "cx"] = true ->
  qubits operation = q0 :: q1 :: rest ->
  q0 <> q1 -> q0 < n -> q1 < n ->
  _statevector w = Some e ->
  Forall (fun s : complex * ket => length s.2 = n) e ->
  exists e',
    run_operation operation w
    = (Returns tt,
       {| objects := objects w; self_name := self_name w;
          _number_of_qubits := _number_of_qubits w;
          _statevector := Some e';
          mul_cache := mul_cache w |})
    /\ Forall (fun s : complex * ket => length s.2 = n) e'
    /\ forall k, length k = n ->
                 amplitude e' k = amplitude e (controlled_flip q0 q1 k).
Proof.
  intros Hr Hu Hq Hne H0 H1 Hsv He.
  destruct (qapply_cnot n q0 q1 e Hne H0 H1 He) as (e' & He' & Hamp).
  exists e'. split; [|split; [|exact Hamp]].
  - rewrite (run_operation_cx _ _ _ _ _ Hr Hu Hq), (get_sym_op_CX _ _ _ _ Hne), Hsv.
    rewrite apply_to_CNOT, He'. reflexivity.
  - eapply qapply_length; eassumption.
Qed.

(** X23: two CX instructions on the same control and target, one after the
    other, restore the amplitude of every ket. *)
Theorem cx_twice_restores_amplitudes
        (operation : QobjInstruction) (w : world) (q0 q1 : nat) (rest : list nat)
        (n : nat) (e : qexpr) :
  refused operation = false ->
  str_in (name operation) ["CX"; "cx"] = true ->
  qubits operation = q0 :: q1 :: rest ->
  q0 <> q1 -> q0 < n -> q1 < n ->
  _statevector w = Some e ->
  Forall (fun s : complex * ket => length s.2 = n) e ->
  exists e'' w'',
    for_each [operation; operation] run_operation w = (Returns tt, w'')
    /\ _statevector w'' = Some e''
    /\ objects w'' = objects w
    /\ forall k, length k = n -> amplitude e'' k = amplitude e k.
Proof.
  intros Hr Hu Hq Hne H0 H1 Hsv He.
  destruct (qapply_cnot n q0 q1 e Hne H0 H1 He) as (e' & He' & Hamp).
  assert (He1 : Forall (fun s : complex * ket => length s.2 = n) e').
  { eapply qapply_length; eassumption. }
  destruct (qapply_cnot n q0 q1 e' Hne H0 H1 He1) as (e'' & He'' & Hamp').
  exists e''. eexists. cbn [for_each]. unfold bind.
  rewrite (run_operation_cx _ _ _ _ _ Hr Hu Hq), (get_sym_op_CX _ _ _ _ Hne), Hsv.
  rewrite apply_to_CNOT, He'.
  rewrite (run_operation_cx _ _ _ _ _ Hr Hu Hq), (get_sym_op_CX _ _ _ _ Hne).
  cbn [_statevector objects set_objects]. rewrite apply_to_CNOT, He''.
  split; [reflexivity|]. split; [reflexivity|]. split; [reflexivity|].
  intros k Hk. rewrite (Hamp' k Hk).
  rewrite Hamp by (rewrite length_controlled_flip; exact Hk).
  rewrite controlled_flip_involutive by lia. reflexivity.
Qed.

(** ** The action of a gate of the U family on the amplitudes *)

Lemma qubit_at_flip (q : ket) (t : nat) :
  t < length q -> qubit_at (flip q t) t = negb (qubit_at q t).
Proof.
  intros Ht. unfold qubit_at. rewrite length_flip, !nth_lookup.
  unfold flip, ket in *. rewrite list_lookup_alter_eq.
  destruct (lookup_lt_is_Some_2 q (length q - t - 1)) as [b Hb]; [lia|].
  rewrite Hb. reflexivity.
Qed.

Lemma length_set_qubit (q : ket) (t : nat) (b : bool) :
  length (set_qubit q t b) = length q.
Proof.
  unfold set_qubit. destruct (Bool.eqb _ _); [reflexivity | apply length_flip].
Qed.

Lemma qubit_at_set_qubit (q : ket) (t : nat) (b : bool) :
  t < length q -> qubit_at (set_qubit q t b) t = b.
Proof.
  intros Ht. unfold set_qubit. destruct (Bool.eqb (qubit_at q t) b) eqn:Hb.
  - apply Bool.eqb_prop in Hb. exact Hb.
  - rewrite qubit_at_flip by exact Ht.
    destruct (qubit_at q t), b; simpl in *; congruence.
Qed.

Lemma set_qubit_set_qubit (q : ket) (t : nat) (b b' : bool) :
  t < length q -> set_qubit (set_qubit q t b) t b' = set_qubit q t b'.
Proof.
  intros Ht. unfold set_qubit at 1.
  rewrite qubit_at_set_qubit by exact Ht. unfold set_qubit.
  destruct (qubit_at q t) eqn:Hq, b, b'; simpl; try reflexivity;
    try (rewrite flip_flip; reflexivity).
Qed.

Lemma set_qubit_same (q : ket) (t : nat) : set_qubit q t (qubit_at q t) = q.
Proof. unfold set_qubit. rewrite Bool.eqb_reflx. reflexivity. Qed.

(** A ket is [k] with qubit [t] rewritten exactly when [k] is that ket with
    qubit [t] rewritten back. *)
Lemma set_qubit_swap (q k : ket) (t : nat) (b : bool) :
  t < length q -> t < length k ->
  set_qubit q t b = k <-> (qubit_at k t = b /\ q = set_qubit k t (qubit_at q t)).
Proof.
  intros Hq Hk. split.
  - intros <-. split; [apply qubit_at_set_qubit, Hq|].
    rewrite set_qubit_set_qubit by exact Hq. symmetry. apply set_qubit_same.
  - intros [<- Heq]. rewrite Heq at 1.
    rewrite set_qubit_set_qubit by exact Hk. apply set_qubit_same.
Qed.

(** A one-qubit gate with a 2x2 matrix on one ket. *)
Lemma apply_one_qubit (cls : one_qubit_class) (t : nat) (q : ket)
      (m00 m01 m10 m11 : complex) :
  class_target_matrix cls = Some [[m00; m01]; [m10; m11]] ->
  t < length q ->
  apply_operator_Qubit (OneQubitGate cls [t]) q
  = Returns [((if qubit_at q t then m01 else m00), set_qubit q t false);
             ((if qubit_at q t then m11 else m10), set_qubit q t true)].
Proof.
  intros Hm Ht. unfold apply_operator_Qubit.
  cbn [min_qubits list_max fold_right obind is_CGate targets get_target_matrix].
  assert (Hlt : (length q <? S (Nat.max t 0))%nat = false).
  { apply Nat.ltb_ge. lia. }
  rewrite Hlt, Hm. cbn [negb].
  unfold column_index, place, set_qubit.
  cbn [fold_left fst length seq zip zip_with].
  destruct (qubit_at q t) eqn:Hqt; cbn - [flip]; rewrite ?Hqt; reflexivity.
Qed.

Lemma qapply_one_qubit (n : nat) (cls : one_qubit_class) (t : nat) (e : qexpr)
      (m00 m01 m10 m11 : complex) :
  class_target_matrix cls = Some [[m00; m01]; [m10; m11]] ->
  t < n ->
  Forall (fun s : complex * ket => length s.2 = n) e ->
  exists e',
    qapply (OneQubitGate cls [t]) e = Returns e'
    /\ forall k, length k = n ->
         amplitude e' k
         = ((if qubit_at k t then m10 else m00) * amplitude e (set_qubit k t false)
            + (if qubit_at k t then m11 else m01) * amplitude e (set_qubit k t true))%C.
Proof.
  intros Hm Ht. induction e as [|[a q] e IH]; intros He.
  - exists []. split; [reflexivity|]. intros k _. simpl.
    destruct (qubit_at k t); complex_eq.
  - apply Forall_cons in He as [Hq He]. simpl in Hq.
    destruct (IH He) as (e' & He' & Hamp). cbn [qapply].
    rewrite (apply_one_qubit cls t q _ _ _ _ Hm) by lia.
    rewrite He'. cbn [obind]. eexists. split; [reflexivity|].
    intros k Hk. rewrite amplitude_app, amplitude_scale, (Hamp k Hk).
    cbn [amplitude fold_right fst snd].
    fold (amplitude e (set_qubit k t false)).
    fold (amplitude e (set_qubit k t true)).
    assert (H0 : set_qubit q t false = k
                 <-> (qubit_at k t = false /\ q = set_qubit k t (qubit_at q t)))
      by (apply set_qubit_swap; lia).
    assert (H1 : set_qubit q t true = k
                 <-> (qubit_at k t = true /\ q = set_qubit k t (qubit_at q t)))
      by (apply set_qubit_swap; lia).
    assert (Hqf : q = set_qubit k t false -> qubit_at q t = false).
    { intros ->. apply qubit_at_set_qubit. lia. }
    assert (Hqt : q = set_qubit k t true -> qubit_at q t = true).
    { intros ->. apply qubit_at_set_qubit. lia. }
    destruct (qubit_at k t) eqn:Hkt, (qubit_at q t) eqn:Hqt';
      destruct (decide (set_qubit q t false = k)) as [E0|E0];
      destruct (decide (set_qubit q t true = k)) as [E1|E1];
      destruct (decide (q = set_qubit k t false)) as [F0|F0];
      destruct (decide (q = set_qubit k t true)) as [F1|F1];
      try (apply H0 in E0; destruct E0; congruence);
      try (apply H1 in E1; destruct E1; congruence);
      try (specialize (Hqf F0); congruence);
      try (specialize (Hqt F1); congruence);
      try (exfalso; apply E0, H0; split; congruence);
      try (exfalso; apply E1, H1; split; congruence);
      generalize (amplitude e (set_qubit k t false));
      generalize (amplitude e (set_qubit k t true));
      intros; complex_eq.
Qed.

(** The gate found in the cache for a gate of the U family is a gate of the
    U family on the same qubits. *)
Lemma cached_gate_acting (c : product_cache) (label : list nat) (ps : list R)
      (q : ket) :
  cached_gate c (OneQubitGate (UGateGeneric (Some (compute_ugate_matrix ps))) label) q
  = OneQubitGate
      (UGateGeneric (Some (compute_ugate_matrix (acting_parameters c label ps q))))
      label.
Proof.
  unfold cached_gate, acting_parameters. destruct (c label q); reflexivity.
Qed.

(** A gate on one qubit whose product, for each ket, holds a 2x2 matrix of
    its own. *)
Lemma qapply_cached_one_qubit (c : product_cache) (op : gate) (n t : nat)
      (m00 m01 m10 m11 : ket -> complex) (e : qexpr) :
  t < n ->
  (forall q, length q = n ->
     apply_operator_Qubit (cached_gate c op q) q
     = Returns [((if qubit_at q t then m01 q else m00 q), set_qubit q t false);
                ((if qubit_at q t then m11 q else m10 q), set_qubit q t true)]) ->
  Forall (fun s : complex * ket => length s.2 = n) e ->
  exists e',
    qapply_cached c op e = Returns e'
    /\ forall k, length k = n ->
         amplitude e' k
         = ((if qubit_at k t then m10 (set_qubit k t false)
             else m00 (set_qubit k t false))
              * amplitude e (set_qubit k t false)
            + (if qubit_at k t then m11 (set_qubit k t true)
               else m01 (set_qubit k t true))
              * amplitude e (set_qubit k t true))%C.
Proof.
  intros Ht Hop. induction e as [|[a q] e IH]; intros He.
  - exists []. split; [reflexivity|]. intros k _. simpl.
    generalize (m00 (set_qubit k t false)) (m10 (set_qubit k t false))
               (m01 (set_qubit k t true)) (m11 (set_qubit k t true)).
    intros. destruct (qubit_at k t); complex_eq.
  - apply Forall_cons in He as [Hq He]. simpl in Hq.
    destruct (IH He) as (e' & He' & Hamp). cbn [qapply_cached].
    rewrite (Hop q Hq), He'. cbn [obind]. eexists. split; [reflexivity|].
    intros k Hk. rewrite amplitude_app, amplitude_scale, (Hamp k Hk).
    cbn [amplitude fold_right fst snd].
    fold (amplitude e (set_qubit k t false)).
    fold (amplitude e (set_qubit k t true)).
    assert (H0 : set_qubit q t false = k
                 <-> (qubit_at k t = false /\ q = set_qubit k t (qubit_at q t)))
      by (apply set_qubit_swap; lia).
    assert (H1 : set_qubit q t true = k
                 <-> (qubit_at k t = true /\ q = set_qubit k t (qubit_at q t)))
      by (apply set_qubit_swap; lia).
    assert (Hqf : q = set_qubit k t false -> qubit_at q t = false).
    { intros ->. apply qubit_at_set_qubit. lia. }
    assert (Hqt : q = set_qubit k t true -> qubit_at q t = true).
    { intros ->. apply qubit_at_set_qubit. lia. }
    destruct (qubit_at k t) eqn:Hkt, (qubit_at q t) eqn:Hqt';
      destruct (decide (set_qubit q t false = k)) as [E0|E0];
      destruct (decide (set_qubit q t true = k)) as [E1|E1];
      destruct (decide (q = set_qubit k t false)) as [F0|F0];
      destruct (decide (q = set_qubit k t true)) as [F1|F1];
      try (apply H0 in E0; destruct E0; congruence);
      try (apply H1 in E1; destruct E1; congruence);
      try (specialize (Hqf F0); congruence);
      try (specialize (Hqt F1); congruence);
      try (exfalso; apply E0, H0; split; congruence);
      try (exfalso; apply E1, H1; split; congruence);
      try rewrite <- F0; try rewrite <- F1;
      repeat match goal with
             | |- context [amplitude ?x ?y] => generalize (amplitude x y); intro
             end;
      repeat match goal with
             | |- context [m00 ?x] => generalize (m00 x); intro
             | |- context [m01 ?x] => generalize (m01 x); intro
             | |- context [m10 ?x] => generalize (m10 x); intro
             | |- context [m11 ?x] => generalize (m11 x); intro
             end;
      complex_eq.
Qed.

(** A gate of the U family applied to a register state: on each ket acts
    the matrix of the parameters of the product formed for that ket. *)
Lemma qapply_cached_u_gate (c : product_cache) (n t : nat) (ps : list R)
      (e : qexpr) :
  t < n ->
  Forall (fun s : complex * ket => length s.2 = n) e ->
  exists e',
    qapply_cached c
      (OneQubitGate (UGateGeneric (Some (compute_ugate_matrix ps))) [t]) e
    = Returns e'
    /\ Forall (fun s : complex * ket => length s.2 = n) e'
    /\ forall k, length k = n ->
         amplitude e' k
         = (matrix_entry
              (compute_ugate_matrix
                 (acting_parameters c [t] ps (set_qubit k t false)))
              (Nat.b2n (qubit_at k t)) 0
              * amplitude e (set_qubit k t false)
            + matrix_entry
                (compute_ugate_matrix
                   (acting_parameters c [t] ps (set_qubit k t true)))
                (Nat.b2n (qubit_at k t)) 1
              * amplitude e (set_qubit k t true))%C.
Proof.
  intros Ht He.
  destruct (qapply_cached_one_qubit c
              (OneQubitGate (UGateGeneric (Some (compute_ugate_matrix ps))) [t]) n t
              (fun q => matrix_entry
                          (compute_ugate_matrix (acting_parameters c [t] ps q)) 0 0)
              (fun q => matrix_entry
                          (compute_ugate_matrix (acting_parameters c [t] ps q)) 0 1)
              (fun q => matrix_entry
                          (compute_ugate_matrix (acting_parameters c [t] ps q)) 1 0)
              (fun q => matrix_entry
                          (compute_ugate_matrix (acting_parameters c [t] ps q)) 1 1)
              e Ht) as (e' & He' & Hamp).
  - intros q Hq. rewrite cached_gate_acting.
    apply apply_one_qubit; [reflexivity | lia].
  - exact He.
  - exists e'. split; [exact He'|]. split.
    + eapply qapply_cached_length; eassumption.
    + intros k Hk. rewrite (Hamp k Hk). destruct (qubit_at k t); reflexivity.
Qed.

(** An instruction of the U family on a qubit of the register, with one to
    three parameters. *)
Lemma run_operation_u_gate
      (operation : QobjInstruction) (w : world) (q0 : nat) (rest : list nat)
      (l : loc) (ps : list R) (e : qexpr) :
  refused operation = false ->
  str_in (name operation) ["U"; "u1"; "u2"; "u3"] = true ->
  qubits operation = q0 :: rest ->
  params operation = Some l ->
  objects w !! l = Some ps ->
  1 <= length ps <= 3 ->
  _statevector w = Some e ->
  get_sym_op (upper (name operation)) [q0] (params operation) (objects w)
  = (Returns (OneQubitGate
                (UGateGeneric (Some (compute_ugate_matrix (spec_parameters ps))))
                [q0]),
     <[l := spec_parameters ps]> (objects w))
  /\ run_operation operation w
     = match qapply_cached (hd nothing_cached (mul_cache w))
               (OneQubitGate
                  (UGateGeneric (Some (compute_ugate_matrix (spec_parameters ps))))
                  [q0]) e with
       | Returns e' =>
           (Returns tt,
            {| objects := <[l := spec_parameters ps]> (objects w);
               self_name := self_name w;
               _number_of_qubits := _number_of_qubits w;
               _statevector := Some e';
               mul_cache := tl (mul_cache w) |})
       | Raises err =>
           (Raises err,
            {| objects := <[l := spec_parameters ps]> (objects w);
               self_name := self_name w;
               _number_of_qubits := _number_of_qubits w;
               _statevector := Some e;
               mul_cache := tl (mul_cache w) |})
       end.
Proof.
  intros Hr Hu Hq Hp Hl Hlen Hsv.
  assert (Hg : get_sym_op (upper (name operation)) [q0] (params operation) (objects w)
               = (Returns (OneQubitGate
                             (UGateGeneric
                                (Some (compute_ugate_matrix (spec_parameters ps))))
                             [q0]),
                  <[l := spec_parameters ps]> (objects w))).
  { rewrite Hp.
    rewrite (u_family_gate_eq (upper (name operation)) [q0] l (objects w) ps);
      [| rewrite (u_names_upper _ Hu); reflexivity | exact Hl].
    destruct (decide (1 <= length ps <= 3)); [|contradiction].
    unfold u_family_gate. rewrite (new_gate_NoDup _ [q0]) by apply NoDup_singleton.
    cbn [obind set_target_matrix]. rewrite (u_names_upper _ Hu). reflexivity. }
  split; [exact Hg|].
  rewrite (run_operation_u _ _ _ _ Hr Hu Hq), Hg, Hsv, apply_to_UGate.
  cbn [set_objects mul_cache objects self_name _number_of_qubits _statevector].
  rewrite Hsv. destruct (qapply_cached _ _ e); reflexivity.
Qed.

(** X24: an instruction of the U family on a qubit of the register, with one
    to three parameters, completes: its parameter list is normalised and
    the size of the register is kept.  When sympy's cache returns no
    earlier product for a gate on that qubit, the matrix that
    [compute_ugate_matrix] gives for the normalised parameters acts on the
    named qubit alone: the new amplitude of a ket whose qubit holds [b] is
    row [b] of the matrix applied to the old amplitudes of the two kets
    that differ from it at most in that qubit. *)
Theorem u_gate_acts_on_its_qubit
        (operation : QobjInstruction) (w : world) (q0 : nat) (rest : list nat)
        (l : loc) (ps : list R) (n : nat) (e : qexpr) :
  refused operation = false ->
  str_in (name operation) ["U"; "u1"; "u2"; "u3"] = true ->
  qubits operation = q0 :: rest ->
  params operation = Some l ->
  objects w !! l = Some ps ->
  1 <= length ps <= 3 ->
  q0 < n ->
  _statevector w = Some e ->
  Forall (fun s : complex * ket => length s.2 = n) e ->
  let m := compute_ugate_matrix (spec_parameters ps) in
  exists e',
    run_operation operation w
    = (Returns tt,
       {| objects := <[l := spec_parameters ps]> (objects w);
          self_name := self_name w;
          _number_of_qubits := _number_of_qubits w;
          _statevector := Some e';
          mul_cache := tl (mul_cache w) |})
    /\ Forall (fun s : complex * ket => length s.2 = n) e'
    /\ ((forall k, length k = n ->
           hd nothing_cached (mul_cache w) [q0] k = None) ->
        forall k, length k = n ->
          amplitude e' k
          = (matrix_entry m (Nat.b2n (qubit_at k q0)) 0
               * amplitude e (set_qubit k q0 false)
             + matrix_entry m (Nat.b2n (qubit_at k q0)) 1
               * amplitude e (set_qubit k q0 true))%C).
Proof.
  intros Hr Hu Hq Hp Hl Hlen H0 Hsv He m.
  destruct (run_operation_u_gate operation w q0 rest l ps e Hr Hu Hq Hp Hl Hlen Hsv)
    as (_ & Hrun).
  destruct (qapply_cached_u_gate (hd nothing_cached (mul_cache w)) n q0
              (spec_parameters ps) e H0 He) as (e' & He' & Hlen' & Hamp).
  exists e'. rewrite Hrun, He'. split; [reflexivity|]. split; [exact Hlen'|].
  intros Hnone k Hk. rewrite (Hamp k Hk). unfold acting_parameters.
  rewrite !Hnone by (rewrite length_set_qubit; exact Hk). reflexivity.
Qed.

Lemma u_gate_acts_on_its_qubit_witness :
  refused (instr "u2" [0] (Some 7) false) = false
  /\ objects (ground circuit_u2_cx w_u2) !! 7 = Some [0%R; PI]
  /\ 1 <= length [0%R; PI] <= 3
  /\ 0 < 2
  /\ Forall (fun s : complex * ket => length s.2 = 2) (Qubit (replicate 2 false))
  /\ (forall k : ket, length k = 2 ->
        hd nothing_cached (mul_cache (ground circuit_u2_cx w_u2)) [0] k = None)
  /\ exists e',
      (run_operation (instr "u2" [0] (Some 7) false) (ground circuit_u2_cx w_u2)).1
      = Returns tt
      /\ _statevector
           (run_operation (instr "u2" [0] (Some 7) false)
                          (ground circuit_u2_cx w_u2)).2 = Some e'
      /\ amplitude e' [false; false]
         = (matrix_entry (compute_ugate_matrix (spec_parameters [0%R; PI])) 0 0
              * amplitude (Qubit (replicate 2 false)) (set_qubit [false; false] 0 false)
            + matrix_entry (compute_ugate_matrix (spec_parameters [0%R; PI])) 0 1
              * amplitude (Qubit (replicate 2 false)) (set_qubit [false; false] 0 true))%C.
Proof.
  assert (Hl : objects (ground circuit_u2_cx w_u2) !! 7 = Some [0%R; PI])
    by reflexivity.
  assert (Hlen : 1 <= length [0%R; PI] <= 3) by (simpl; lia).
  assert (H0 : 0 < 2) by lia.
  assert (He : Forall (fun s : complex * ket => length s.2 = 2)
                      (Qubit (replicate 2 false))).
  { repeat constructor. }
  assert (Hnone : forall k : ket, length k = 2 ->
            hd nothing_cached (mul_cache (ground circuit_u2_cx w_u2)) [0] k = None).
  { intros k _. reflexivity. }
  split; [reflexivity|]. split; [exact Hl|]. split; [exact Hlen|].
  split; [exact H0|]. split; [exact He|]. split; [exact Hnone|].
  destruct (u_gate_acts_on_its_qubit (instr "u2" [0] (Some 7) false)
              (ground circuit_u2_cx w_u2) 0 [] 7 [0%R; PI] 2
              (Qubit (replicate 2 false))
              eq_refl eq_refl eq_refl eq_refl Hl Hlen H0 eq_refl He)
    as (e' & Hrun & _ & Hamp).
  exists e'. rewrite Hrun. split; [reflexivity|]. split; [reflexivity|].
  exact (Hamp Hnone [false; false] eq_refl).
Defined.

(** ** The dispatch of the loop *)

(** C2: an instruction that is not refused (not conditional, not measure or
    reset) and whose name is none of U, u1, u2, u3, CX, cx, id, barrier
    fails with the unrecognized-operation error, whose message quotes the
    name.  For U, u1, u2, u3 the operator comes from the gate factory,
    called with the upper-cased name, the first qubit and the instruction's
    parameters; for CX and cx from the gate factory called with the first
    two qubits.  The CX operator is composed onto the register state: the
    target is flipped where the control holds 1.  For a U gate, on each ket
    acts the matrix of the product that sympy forms for that ket: the matrix
    of the instruction's normalised parameters where the product is new,
    the matrix of an earlier U gate on the same qubit where the cache
    returns an earlier product. *)
Theorem engine_dispatch (operation : QobjInstruction) (w : world) :
  refused operation = false ->
  (str_in (name operation) ["U"; "u1"; "u2"; "u3"; "id"; "barrier"; "CX"; "cx"]
   = false ->
   run_operation operation w =
     (Raises (SympySimulatorError
                (unrecognized_operation (self_name w) (name operation))), w)
   /\ kind_of (SympySimulatorError
                 (unrecognized_operation (self_name w) (name operation)))
      = Some UnsupportedGateError
   /\ message (unrecognized_operation (self_name w) (name operation))
      = self_name w ++ " encountered unrecognized operation "
          ++ dquote ++ name operation ++ dquote)
  /\ (str_in (name operation) ["U"; "u1"; "u2"; "u3"] = true ->
      forall q rest l ps n e,
        qubits operation = q :: rest ->
        params operation = Some l ->
        objects w !! l = Some ps ->
        1 <= length ps <= 3 ->
        q < n ->
        _statevector w = Some e ->
        Forall (fun s : complex * ket => length s.2 = n) e ->
        let c := hd nothing_cached (mul_cache w) in
        startswith (upper (name operation)) "U" = true
        /\ get_sym_op (upper (name operation)) [q] (params operation) (objects w)
           = (Returns (OneQubitGate
                         (UGateGeneric
                            (Some (compute_ugate_matrix (spec_parameters ps))))
                         [q]),
              <[l := spec_parameters ps]> (objects w))
        /\ exists e',
            run_operation operation w
            = (Returns tt,
               {| objects := <[l := spec_parameters ps]> (objects w);
                  self_name := self_name w;
                  _number_of_qubits := _number_of_qubits w;
                  _statevector := Some e';
                  mul_cache := tl (mul_cache w) |})
            /\ forall k, length k = n ->
                 amplitude e' k
                 = (matrix_entry
                      (compute_ugate_matrix
                         (acting_parameters c [q] (spec_parameters ps)
                                            (set_qubit k q false)))
                      (Nat.b2n (qubit_at k q)) 0
                      * amplitude e (set_qubit k q false)
                    + matrix_entry
                        (compute_ugate_matrix
                           (acting_parameters c [q] (spec_parameters ps)
                                              (set_qubit k q true)))
                        (Nat.b2n (qubit_at k q)) 1
                      * amplitude e (set_qubit k q true))%C)
  /\ (str_in (name operation) ["CX"; "cx"] = true ->
      forall q0 q1 rest n e,
        qubits operation = q0 :: q1 :: rest ->
        q0 <> q1 -> q0 < n -> q1 < n ->
        _statevector w = Some e ->
        Forall (fun s : complex * ket => length s.2 = n) e ->
        upper (name operation) = "CX"
        /\ get_sym_op (upper (name operation)) [q0; q1] (params operation) (objects w)
           = (Returns (CNotGate [q0; q1]), objects w)
        /\ exists e',
            run_operation operation w
            = (Returns tt,
               {| objects := objects w; self_name := self_name w;
                  _number_of_qubits := _number_of_qubits w;
                  _statevector := Some e';
                  mul_cache := mul_cache w |})
            /\ forall k, length k = n ->
                 amplitude e' k = amplitude e (controlled_flip q0 q1 k)).
Proof.
  intros Hr. split; [|split].
  - intros Hn. split; [|split; reflexivity].
    unfold refused in Hr. apply orb_false_iff in Hr as [Hc Hm].
    unfold run_operation. rewrite Hc, Hm.
    change ["U"; "u1"; "u2"; "u3"; "id"; "barrier"; "CX"; "cx"]
      with (["U"; "u1"; "u2"; "u3"] ++ ["id"] ++ ["barrier"] ++ ["CX"; "cx"])%list in Hn.
    rewrite !str_in_app in Hn.
    apply orb_false_iff in Hn as [-> Hn].
    apply orb_false_iff in Hn as [Hid Hn].
    apply orb_false_iff in Hn as [Hbar ->].
    unfold str_in in Hid, Hbar. simpl in Hid, Hbar.
    rewrite orb_false_r in Hid, Hbar. rewrite Hid, Hbar. reflexivity.
  - intros Hu q rest l ps n e Hq Hp Hl Hlen Hqn Hsv He c.
    split; [apply u_names_upper, Hu|].
    destruct (run_operation_u_gate operation w q rest l ps e Hr Hu Hq Hp Hl Hlen Hsv)
      as (Hg & Hrun).
    split; [exact Hg|].
    destruct (qapply_cached_u_gate c n q (spec_parameters ps) e Hqn He)
      as (e' & He' & _ & Hamp).
    exists e'. split; [|exact Hamp].
    rewrite Hrun. fold c. rewrite He'. reflexivity.
  - intros Hu q0 q1 rest n e Hq Hne H0 H1 Hsv He.
    split; [apply cx_names_upper, Hu|].
    assert (Hg : get_sym_op (upper (name operation)) [q0; q1] (params operation)
                            (objects w)
                 = (Returns (CNotGate [q0; q1]), objects w)).
    { rewrite (cx_names_upper _ Hu). apply get_sym_op_CX, Hne. }
    split; [exact Hg|].
    destruct (qapply_cnot n q0 q1 e Hne H0 H1 He) as (e' & He' & Hamp).
    exists e'. split; [|exact Hamp].
    rewrite (run_operation_cx _ _ _ _ _ Hr Hu Hq), (get_sym_op_CX _ _ _ _ Hne), Hsv.
    rewrite apply_to_CNOT, He'. reflexivity.
Qed.

(** The three branches at concrete instructions.  The U instruction is the
    second one of [circuit_u1_u3]: the cache returns the product of the
    first, the phase flip acts again and the register stays at |0>, where
    the matrix of the instruction's own parameters, whose entry in row 1 and
    column 0 is 1, would take it to |1>. *)
Lemma engine_dispatch_witness :
  (refused (instr "h" [0] None false) = false
   /\ str_in (name (instr "h" [0] None false))
        ["U"; "u1"; "u2"; "u3"; "id"; "barrier"; "CX"; "cx"] = false
   /\ run_operation (instr "h" [0] None false) w0 =
        (Raises (SympySimulatorError
                   (unrecognized_operation (self_name w0) "h")), w0))
  /\ (refused (instr "u3" [0] (Some 3) false) = false
      /\ str_in (name (instr "u3" [0] (Some 3) false)) ["U"; "u1"; "u2"; "u3"] = true
      /\ objects w_u3_second !! 3 = Some [PI; 0%R; PI]
      /\ 1 <= length [PI; 0%R; PI] <= 3
      /\ 0 < 1
      /\ Forall (fun s : complex * ket => length s.2 = 1) (Qubit [false])
      /\ exists e',
          _statevector (run_operation (instr "u3" [0] (Some 3) false) w_u3_second).2
          = Some e'
          /\ amplitude e' [false] = 1%C
          /\ amplitude e' [true] = 0%C
          /\ matrix_entry (compute_ugate_matrix [PI; 0%R; PI]) 1 0 = 1%C)
  /\ (refused (instr "cx" [0; 1] None false) = false
      /\ str_in (name (instr "cx" [0; 1] None false)) ["CX"; "cx"] = true
      /\ 0 <> 1 /\ 0 < 2 /\ 1 < 2
      /\ Forall (fun s : complex * ket => length s.2 = 2) (Qubit (replicate 2 false))
      /\ exists w',
          run_operation (instr "cx" [0; 1] None false) (ground circuit_cx w0)
          = (Returns tt, w')).
Proof.
  assert (Hlen : 1 <= length [PI; 0%R; PI] <= 3) by (simpl; lia).
  assert (H01 : 0 < 1) by lia.
  assert (He1 : Forall (fun s : complex * ket => length s.2 = 1) (Qubit [false])).
  { repeat constructor. }
  assert (Hne : 0 <> 1) by lia.
  assert (H02 : 0 < 2) by lia.
  assert (H12 : 1 < 2) by lia.
  assert (He2 : Forall (fun s : complex * ket => length s.2 = 2)
                       (Qubit (replicate 2 false))).
  { repeat constructor. }
  split; [|split].
  - split; [reflexivity|]. split; [reflexivity|].
    apply (engine_dispatch (instr "h" [0] None false) w0); reflexivity.
  - split; [reflexivity|]. split; [reflexivity|]. split; [reflexivity|].
    split; [exact Hlen|]. split; [exact H01|]. split; [exact He1|].
    destruct (engine_dispatch (instr "u3" [0] (Some 3) false) w_u3_second eq_refl)
      as (_ & Hu & _).
    destruct (Hu eq_refl 0 [] 3 [PI; 0%R; PI] 1 (Qubit [false])
                 eq_refl eq_refl eq_refl Hlen H01 eq_refl He1)
      as (_ & _ & e' & Hrun & Hamp).
    exists e'. rewrite Hrun. split; [reflexivity|].
    assert (Hc0 : cos (0 / 2) = 1%R).
    { replace (0 / 2)%R with 0%R by lra. apply cos_0. }
    assert (Hs0 : sin (0 / 2) = 0%R).
    { replace (0 / 2)%R with 0%R by lra. apply sin_0. }
    split; [|split].
    + rewrite (Hamp [false] eq_refl).
      cbv - [Rplus Rmult Rminus Ropp Rinv Rdiv IZR cos sin exp PI].
      rewrite ?Hc0, ?Hs0. f_equal; lra.
    + rewrite (Hamp [true] eq_refl).
      cbv - [Rplus Rmult Rminus Ropp Rinv Rdiv IZR cos sin exp PI].
      rewrite ?Hc0, ?Hs0. f_equal; lra.
    + cbv - [Rplus Rmult Rminus Ropp Rinv Rdiv IZR cos sin exp PI].
      replace (0 * 0 - 1 * 0)%R with 0%R by lra.
      replace (0 * 0 + 1 * 0)%R with 0%R by lra.
      rewrite exp_0, cos_0, sin_0, sin_PI2. f_equal; lra.
  - split; [reflexivity|]. split; [reflexivity|]. split; [exact Hne|].
    split; [exact H02|]. split; [exact H12|]. split; [exact He2|].
    destruct (engine_dispatch (instr "cx" [0; 1] None false)
                (ground circuit_cx w0) eq_refl) as (_ & _ & Hcx).
    destruct (Hcx eq_refl 0 1 [] 2 (Qubit (replicate 2 false))
                  eq_refl Hne H02 H12 eq_refl He2) as (_ & _ & e' & Hrun & _).
    eexists. exact Hrun.
Defined.

(** The circuit u1(pi), u3(pi, 0, pi) on one qubit, run in a fresh process.
    The second product is that of a U gate on qubit 0 and the ket |0>, as
    the first was, so the cache returns the first product and the phase
    flip acts a second time: the run returns the amplitudes [1, 0].  Were
    the second product formed anew, the NOT gate would act and the run
    would return [0, 1]. *)
Lemma earlier_gate_in_second_product :
  (run_circuit circuit_u1_u3 w_u1_u3).1
  = Returns {| statevector := [1%C; 0%C]; success := true; shots := 1;
               status := "DONE"; result_header_name := "u1u3" |}
  /\ (run_circuit circuit_u1_u3
        {| objects := objects w_u1_u3; self_name := self_name w_u1_u3;
           _number_of_qubits := None; _statevector := None;
           mul_cache := [nothing_cached; nothing_cached] |}).1
     = Returns {| statevector := [0%C; 1%C]; success := true; shots := 1;
                  status := "DONE"; result_header_name := "u1u3" |}.
Proof.
  assert (Hc0 : cos (0 / 2) = 1%R).
  { replace (0 / 2)%R with 0%R by lra. apply cos_0. }
  assert (Hs0 : sin (0 / 2) = 0%R).
  { replace (0 / 2)%R with 0%R by lra. apply sin_0. }
  assert (He0 : exp (0 * 0 - 1 * 0) = 1%R).
  { replace (0 * 0 - 1 * 0)%R with 0%R by lra. apply exp_0. }
  assert (Hc1 : cos (0 * 0 + 1 * 0) = 1%R).
  { replace (0 * 0 + 1 * 0)%R with 0%R by lra. apply cos_0. }
  assert (Hs1 : sin (0 * 0 + 1 * 0) = 0%R).
  { replace (0 * 0 + 1 * 0)%R with 0%R by lra. apply sin_0. }
  split.
  - rewrite run_circuit_loop by (simpl; lia).
    change (instructions circuit_u1_u3)
      with [instr "u1" [0] (Some 1) false; instr "u3" [0] (Some 3) false].
    cbn [for_each]. unfold bind.
    match goal with
    | |- context [run_operation ?op ?w] =>
        destruct (run_operation_u_gate op w 0 [] 1 [PI] _
                    eq_refl eq_refl eq_refl eq_refl eq_refl
                    (conj (le_n 1) (le_S _ _ (le_S _ _ (le_n 1)))) eq_refl) as (_ & ->)
    end.
    match goal with
    | |- context [qapply_cached ?c ?g ?s] =>
        let r := eval cbv - [Rplus Rmult Rminus Ropp Rinv Rdiv sqrt IZR cos sin exp PI]
                 in (qapply_cached c g s) in
        change (qapply_cached c g s) with r
    end.
    cbv iota beta. rewrite Hc0, Hs0.
    match goal with
    | |- context [run_operation ?op ?w] =>
        destruct (run_operation_u_gate op w 0 [] 3 [PI; 0%R; PI] _
                    eq_refl eq_refl eq_refl eq_refl eq_refl
                    (conj (le_S _ _ (le_S _ _ (le_n 1))) (le_n 3)) eq_refl) as (_ & ->)
    end.
    match goal with
    | |- context [qapply_cached ?c ?g ?s] =>
        let r := eval cbv - [Rplus Rmult Rminus Ropp Rinv Rdiv sqrt IZR cos sin exp PI]
                 in (qapply_cached c g s) in
        change (qapply_cached c g s) with r
    end.
    cbv iota beta. unfold ret. cbn [_statevector fst snd].
    match goal with
    | |- context [represent ?s] =>
        let r := eval cbv - [Rplus Rmult Rminus Ropp Rinv Rdiv sqrt IZR cos sin exp PI]
                 in (represent s) in
        change (represent s) with r
    end.
    cbv iota beta.
    match goal with
    | |- context [list_form ?s] =>
        let r := eval cbv - [Rplus Rmult Rminus Ropp Rinv Rdiv sqrt IZR cos sin exp PI]
                 in (list_form s) in
        change (list_form s) with r
    end.
    cbv iota beta. cbn [fst].
    rewrite ?Hc0, ?Hs0, ?He0, ?Hc1, ?Hs1, ?sin_PI2, ?cos_PI2.
    apply f_equal. apply (f_equal (fun v => {| statevector := v; success := true;
                                               shots := 1; status := "DONE";
                                               result_header_name := "u1u3" |})).
    unfold RtoC.
    repeat match goal with
           | |- _ :: _ = _ :: _ => apply f_equal2
           | |- (_, _) = (_, _) => apply f_equal2
           | |- @eq (list _) [] [] => reflexivity
           | |- @eq R _ _ => ring
           end.
  - rewrite run_circuit_loop by (simpl; lia).
    change (instructions circuit_u1_u3)
      with [instr "u1" [0] (Some 1) false; instr "u3" [0] (Some 3) false].
    cbn [for_each]. unfold bind.
    match goal with
    | |- context [run_operation ?op ?w] =>
        destruct (run_operation_u_gate op w 0 [] 1 [PI] _
                    eq_refl eq_refl eq_refl eq_refl eq_refl
                    (conj (le_n 1) (le_S _ _ (le_S _ _ (le_n 1)))) eq_refl) as (_ & ->)
    end.
    match goal with
    | |- context [qapply_cached ?c ?g ?s] =>
        let r := eval cbv - [Rplus Rmult Rminus Ropp Rinv Rdiv sqrt IZR cos sin exp PI]
                 in (qapply_cached c g s) in
        change (qapply_cached c g s) with r
    end.
    cbv iota beta. rewrite Hc0, Hs0.
    match goal with
    | |- context [run_operation ?op ?w] =>
        destruct (run_operation_u_gate op w 0 [] 3 [PI; 0%R; PI] _
                    eq_refl eq_refl eq_refl eq_refl eq_refl
                    (conj (le_S _ _ (le_S _ _ (le_n 1))) (le_n 3)) eq_refl) as (_ & ->)
    end.
    match goal with
    | |- context [qapply_cached ?c ?g ?s] =>
        let r := eval cbv - [Rplus Rmult Rminus Ropp Rinv Rdiv sqrt IZR cos sin exp PI]
                 in (qapply_cached c g s) in
        change (qapply_cached c g s) with r
    end.
    cbv iota beta. unfold ret. cbn [_statevector fst snd].
    match goal with
    | |- context [represent ?s] =>
        let r := eval cbv - [Rplus Rmult Rminus Ropp Rinv Rdiv sqrt IZR cos sin exp PI]
                 in (represent s) in
        change (represent s) with r
    end.
    cbv iota beta.
    match goal with
    | |- context [list_form ?s] =>
        let r := eval cbv - [Rplus Rmult Rminus Ropp Rinv Rdiv sqrt IZR cos sin exp PI]
                 in (list_form s) in
        change (list_form s) with r
    end.
    cbv iota beta. cbn [fst].
    rewrite ?Hc0, ?Hs0, ?He0, ?Hc1, ?Hs1, ?sin_PI2, ?cos_PI2.
    apply f_equal. apply (f_equal (fun v => {| statevector := v; success := true;
                                               shots := 1; status := "DONE";
                                               result_header_name := "u1u3" |})).
    unfold RtoC.
    repeat match goal with
           | |- _ :: _ = _ :: _ => apply f_equal2
           | |- (_, _) = (_, _) => apply f_equal2
           | |- @eq (list _) [] [] => reflexivity
           | |- @eq R _ _ => ring
           end.
Qed.

Lemma cx_example_state :
  Forall (fun s : complex * ket => length s.2 = 2) (Qubit (replicate 2 false)).
Proof. repeat constructor. Qed.

Lemma cx_permutes_amplitudes_witness :
  refused (instr "cx" [0; 1] None false) = false
  /\ 0 <> 1 /\ 0 < 2 /\ 1 < 2
  /\ Forall (fun s : complex * ket => length s.2 = 2) (Qubit (replicate 2 false))
  /\ exists w',
      run_operation (instr "cx" [0; 1] None false) (ground circuit_cx w0)
      = (Returns tt, w').
Proof.
  assert (H01 : 0 <> 1) by lia.
  assert (H0 : 0 < 2) by lia.
  assert (H1 : 1 < 2) by lia.
  split; [reflexivity|]. split; [exact H01|]. split; [exact H0|].
  split; [exact H1|]. split; [exact cx_example_state|].
  destruct (cx_permutes_amplitudes (instr "cx" [0; 1] None false)
              (ground circuit_cx w0) 0 1 [] 2 (Qubit (replicate 2 false))
              eq_refl eq_refl eq_refl H01 H0 H1 eq_refl cx_example_state)
    as (e' & Hrun & _).
  eexists. exact Hrun.
Defined.

Lemma cx_twice_restores_amplitudes_witness :
  refused (instr "cx" [0; 1] None false) = false
  /\ 0 <> 1 /\ 0 < 2 /\ 1 < 2
  /\ exists e'' w'',
      for_each [instr "cx" [0; 1] None false; instr "cx" [0; 1] None false]
               run_operation (ground circuit_cx w0) = (Returns tt, w'')
      /\ _statevector w'' = Some e''.
Proof.
  assert (H01 : 0 <> 1) by lia.
  assert (H0 : 0 < 2) by lia.
  assert (H1 : 1 < 2) by lia.
  split; [reflexivity|]. split; [exact H01|]. split; [exact H0|].
  split; [exact H1|].
  destruct (cx_twice_restores_amplitudes (instr "cx" [0; 1] None false)
              (ground circuit_cx w0) 0 1 [] 2 (Qubit (replicate 2 false))
              eq_refl eq_refl eq_refl H01 H0 H1 eq_refl cx_example_state)
    as (e'' & w'' & Hrun & Hsv & _).
  exists e'', w''. split; assumption.
Defined.

(** ** Gates that undo each other *)

Lemma Clinear_combination (a b c d f g x y : complex) :
  (a * (b * x + c * y) + d * (f * x + g * y)
   = (a * b + (d * f + 0)) * x + (a * c + (d * g + 0)) * y)%C.
Proof.
  destruct a, b, c, d, f, g, x, y. unfold Cplus, Cmult, RtoC. simpl.
  f_equal; ring.
Qed.

Lemma Cunit_combination_l (x y : complex) : (1 * x + 0 * y = x)%C.
Proof. complex_eq. Qed.

Lemma Cunit_combination_r (x y : complex) : (0 * x + 1 * y = y)%C.
Proof. complex_eq. Qed.

(** Two one-qubit gates on the same qubit whose matrices multiply to the
    identity. *)
Lemma qapply_inverse_pair (n : nat) (c1 c2 : one_qubit_class) (t : nat) (e : qexpr)
      (a00 a01 a10 a11 b00 b01 b10 b11 : complex) :
  class_target_matrix c1 = Some [[a00; a01]; [a10; a11]] ->
  class_target_matrix c2 = Some [[b00; b01]; [b10; b11]] ->
  matrix_mul [[b00; b01]; [b10; b11]] [[a00; a01]; [a10; a11]] = eye2 ->
  t < n ->
  Forall (fun s : complex * ket => length s.2 = n) e ->
  exists e1 e2,
    qapply (OneQubitGate c1 [t]) e = Returns e1
    /\ qapply (OneQubitGate c2 [t]) e1 = Returns e2
    /\ forall k, length k = n -> amplitude e2 k = amplitude e k.
Proof.
  intros HA HB Hmul Ht He.
  destruct (qapply_one_qubit n c1 t e _ _ _ _ HA Ht He) as (e1 & He1 & Hamp1).
  assert (Hlen1 : Forall (fun s : complex * ket => length s.2 = n) e1).
  { eapply qapply_length; eassumption. }
  destruct (qapply_one_qubit n c2 t e1 _ _ _ _ HB Ht Hlen1) as (e2 & He2 & Hamp2).
  exists e1, e2. split; [exact He1|]. split; [exact He2|].
  intros k Hk. rewrite (Hamp2 k Hk).
  rewrite !Hamp1 by (rewrite length_set_qubit; exact Hk).
  rewrite !qubit_at_set_qubit by lia.
  rewrite !set_qubit_set_qubit by lia.
  assert (Hm2 : matrix_mul [[b00; b01]; [b10; b11]] [[a00; a01]; [a10; a11]]
               = [[b00 * a00 + (b01 * a10 + 0); b00 * a01 + (b01 * a11 + 0)];
                  [b10 * a00 + (b11 * a10 + 0); b10 * a01 + (b11 * a11 + 0)]]%C)
    by reflexivity.
  rewrite Hm2 in Hmul. unfold eye2 in Hmul.
  pose proof (f_equal (fun m => matrix_entry m 0 0) Hmul) as H00.
  pose proof (f_equal (fun m => matrix_entry m 0 1) Hmul) as H01.
  pose proof (f_equal (fun m => matrix_entry m 1 0) Hmul) as H10.
  pose proof (f_equal (fun m => matrix_entry m 1 1) Hmul) as H11.
  cbv beta in H00, H01, H10, H11. unfold matrix_entry in H00, H01, H10, H11.
  cbn [nth] in H00, H01, H10, H11.
  transitivity (amplitude e (set_qubit k t (qubit_at k t)));
    [| rewrite set_qubit_same; reflexivity].
  destruct (qubit_at k t); rewrite Clinear_combination.
  - rewrite H10, H11. apply Cunit_combination_r.
  - rewrite H00, H01. apply Cunit_combination_l.
Qed.

Lemma Cexp_quarter_turn :
  Cexp (Ci * RtoC PI * RtoC (/ 4))%C = ((sqrt 2 / 2)%R, (sqrt 2 / 2)%R).
Proof.
  unfold Cexp, Cmult, Ci, RtoC. simpl.
  match goal with |- context [exp ?a] => replace a with 0%R by lra end.
  match goal with |- context [cos ?b] => replace b with (PI / 4)%R by lra end.
  rewrite exp_0, cos_PI4, sin_PI4.
  pose proof inv_sqrt2 as H. f_equal; lra.
Qed.

(** The one-qubit classes of the factory whose matrices multiply to the
    identity: each of X, Y, Z and H with itself, S with SDG and T with TDG. *)
Lemma inverse_classes (c1 c2 : one_qubit_class) :
  In (c1, c2) [(XGate, XGate); (YGate, YGate); (ZGate, ZGate);
               (HadamardGate, HadamardGate);
               (PhaseGate, SDGGate); (SDGGate, PhaseGate);
               (TGate, TDGGate); (TDGGate, TGate)] ->
  exists a00 a01 a10 a11 b00 b01 b10 b11,
    class_target_matrix c1 = Some [[a00; a01]; [a10; a11]]
    /\ class_target_matrix c2 = Some [[b00; b01]; [b10; b11]]
    /\ matrix_mul [[b00; b01]; [b10; b11]] [[a00; a01]; [a10; a11]] = eye2.
Proof.
  intros H. simpl in H.
  pose proof sqrt2_sqr as Hs. pose proof inv_sqrt2 as Hi.
  repeat (destruct H as [[= <- <-]|H]); try contradiction;
    do 8 eexists; (split; [reflexivity|]); (split; [reflexivity|]);
    rewrite ?Cexp_quarter_turn, ?Cexp_minus_quarter_turn;
    cbv - [Rplus Rmult Rminus Ropp Rinv Rdiv sqrt IZR];
    repeat (apply f_equal2; try reflexivity); try rewrite Hi; nra.
Qed.

(** X25: the operator the factory builds for SDG undoes the one it builds
    for S, and TDG undoes T, in either order: on a register that holds the
    qubit, applying the two in sequence gives back every amplitude. *)
Theorem sdg_undoes_s_and_tdg_undoes_t
        (name1 name2 : string) (t n : nat) (p1 p2 : option loc)
        (h : gmap loc (list R)) (e : qexpr) :
  In (name1, name2) [("S", "SDG"); ("SDG", "S"); ("T", "TDG"); ("TDG", "T")]%string ->
  t < n ->
  Forall (fun s : complex * ket => length s.2 = n) e ->
  exists g1 g2 e1 e2,
    get_sym_op name1 [t] p1 h = (Returns g1, h)
    /\ get_sym_op name2 [t] p2 h = (Returns g2, h)
    /\ qapply g1 e = Returns e1
    /\ qapply g2 e1 = Returns e2
    /\ forall k, length k = n -> amplitude e2 k = amplitude e k.
Proof.
  intros H Ht He. simpl in H.
  repeat (destruct H as [[= <- <-]|H]); try contradiction;
    match goal with
    | |- context [get_sym_op ?a _ _ _] =>
        match goal with
        | |- context [get_sym_op ?b _ p2 _] =>
            let c1 := eval cbv in
              (match the_gate a [0] with
               | Returns (Some (OneQubitGate c _)) => c
               | _ => IdentityGate
               end) in
            let c2 := eval cbv in
              (match the_gate b [0] with
               | Returns (Some (OneQubitGate c _)) => c
               | _ => IdentityGate
               end) in
            destruct (inverse_classes c1 c2) as
              (a00 & a01 & a10 & a11 & b00 & b01 & b10 & b11 & HA & HB & Hm);
            [simpl; tauto|];
            destruct (qapply_inverse_pair n c1 c2 t e _ _ _ _ _ _ _ _
                        HA HB Hm Ht He) as (e1 & e2 & H1 & H2 & Hamp);
            exists (OneQubitGate c1 [t]), (OneQubitGate c2 [t]), e1, e2
        end
    end;
    (split; [|split; [|split; [exact H1|split; [exact H2|exact Hamp]]]]);
    unfold get_sym_op, the_gate; cbn [String.eqb Ascii.eqb Bool.eqb orb];
    rewrite (new_gate_NoDup _ [t]) by apply NoDup_singleton; reflexivity.
Qed.

Lemma sdg_undoes_s_and_tdg_undoes_t_witness :
  exists g1 g2 e1 e2,
    get_sym_op "T" [1] None ∅ = (Returns g1, ∅)
    /\ get_sym_op "TDG" [1] None ∅ = (Returns g2, ∅)
    /\ qapply g1 (Qubit (replicate 2 false)) = Returns e1
    /\ qapply g2 e1 = Returns e2
    /\ forall k, length k = 2 -> amplitude e2 k = amplitude (Qubit (replicate 2 false)) k.
Proof.
  apply (sdg_undoes_s_and_tdg_undoes_t "T" "TDG" 1 2 None None ∅).
  - simpl. tauto.
  - lia.
  - exact cx_example_state.
Defined.

(** X26: the operators the factory builds for X, Y, Z and H undo
    themselves: on a register that holds the qubit, applying one of them
    twice gives back every amplitude. *)
Theorem x_y_z_h_undo_themselves
        (name : string) (t n : nat) (p : option loc)
        (h : gmap loc (list R)) (e : qexpr) :
  str_in name ["X"; "Y"; "Z"; "H"] = true ->
  t < n ->
  Forall (fun s : complex * ket => length s.2 = n) e ->
  exists g e1 e2,
    get_sym_op name [t] p h = (Returns g, h)
    /\ qapply g e = Returns e1
    /\ qapply g e1 = Returns e2
    /\ forall k, length k = n -> amplitude e2 k = amplitude e k.
Proof.
  intros H Ht He. apply str_in_In in H. simpl in H.
  repeat (destruct H as [<-|H]); try contradiction;
    match goal with
    | |- context [get_sym_op ?a _ _ _] =>
        let c1 := eval cbv in
          (match the_gate a [0] with
           | Returns (Some (OneQubitGate c _)) => c
           | _ => IdentityGate
           end) in
        destruct (inverse_classes c1 c1) as
          (a00 & a01 & a10 & a11 & b00 & b01 & b10 & b11 & HA & HB & Hm);
        [simpl; tauto|];
        destruct (qapply_inverse_pair n c1 c1 t e _ _ _ _ _ _ _ _
                    HA HB Hm Ht He) as (e1 & e2 & H1 & H2 & Hamp);
        exists (OneQubitGate c1 [t]), e1, e2
    end;
    (split; [|split; [exact H1|split; [exact H2|exact Hamp]]]);
    unfold get_sym_op, the_gate; cbn [String.eqb Ascii.eqb Bool.eqb orb];
    rewrite (new_gate_NoDup _ [t]) by apply NoDup_singleton; reflexivity.
Qed.

Lemma x_y_z_h_undo_themselves_witness :
  exists g e1 e2,
    get_sym_op "H" [0] None ∅ = (Returns g, ∅)
    /\ qapply g (Qubit (replicate 2 false)) = Returns e1
    /\ qapply g e1 = Returns e2
    /\ forall k, length k = 2 -> amplitude e2 k = amplitude (Qubit (replicate 2 false)) k.
Proof.
  apply (x_y_z_h_undo_themselves "H" 0 2 None ∅).
  - reflexivity.
  - lia.
  - exact cx_example_state.
Defined.
